(** * casilocal.es: the content-ingestion and review-refinement scripts

    A shallow embedding of the two offline scripts of the repository
    (the spot-fetching script, [src/unnamed/part_001], and the review
    refiner, [src/unnamed/part_002]) and the properties of them that the
    specification states; then of the pure parts of the site (the filter
    of the map and the loader and schema of the spots,
    [src/unnamed/part_003] and [src/src/content/config.ts]) and of the
    sitemap filter ([src/scripts/filter-sitemap.mjs]), with further
    properties of all of them.

    JavaScript strings are sequences of UTF-16 code units; they are modelled
    as [list N].  Arrays are lists, a [Set] of strings is a [gset], the
    spots directory is a [gmap] from file names to file contents. *)

From Stdlib Require Import NArith ZArith QArith Qround Ascii String List Bool Lia.
From stdpp Require Import base list gmap sets.

Local Open Scope N_scope.

(** ** JavaScript strings *)

Abbreviation jsstring := (list N).

Module JsString.

(** A literal of the source, as code units (ASCII literals only). *)
Definition lit (s : string) : jsstring :=
  List.map N_of_ascii (list_ascii_of_string s).

Definition LF : N := 10.
Definition QUOTE : N := 34.
Definition DOLLAR : N := 36.
Definition HYPHEN : N := 45.

(** The regular-expression class [\s], which is also what
    [String.prototype.trim] strips: WhiteSpace and LineTerminator. *)
Definition isSpace (c : N) : bool :=
  ((9 <=? c) && (c <=? 13)) || (c =? 32) || (c =? 160) || (c =? 5760)
  || ((8192 <=? c) && (c <=? 8202)) || (c =? 8232) || (c =? 8233)
  || (c =? 8239) || (c =? 8287) || (c =? 12288) || (c =? 65279).

Fixpoint trimStart (s : jsstring) : jsstring :=
  match s with
  | c :: r => if isSpace c then trimStart r else s
  | [] => []
  end.

Definition trimEnd (s : jsstring) : jsstring := rev (trimStart (rev s)).

(** [s.trim()] *)
Definition trim (s : jsstring) : jsstring := trimEnd (trimStart s).

(** [s.startsWith(p)], returning what follows the prefix. *)
Fixpoint stripPrefix (p s : jsstring) : option jsstring :=
  match p, s with
  | [], _ => Some s
  | a :: p', b :: s' => if a =? b then stripPrefix p' s' else None
  | _ :: _, [] => None
  end.

Definition startsWith (p s : jsstring) : bool :=
  match stripPrefix p s with Some _ => true | None => false end.

(** The first occurrence of [p] in [s]: what precedes it and what follows
    it ([s.indexOf(p)] with the two slices). *)
Fixpoint splitFirst (p s : jsstring) : option (jsstring * jsstring) :=
  match stripPrefix p s with
  | Some r => Some ([], r)
  | None =>
      match s with
      | [] => None
      | c :: s' =>
          match splitFirst p s' with
          | Some (a, b) => Some (c :: a, b)
          | None => None
          end
      end
  end.

(** [s.includes(p)] *)
Definition includes (p s : jsstring) : bool :=
  match splitFirst p s with Some _ => true | None => false end.

(** [xs.join(sep)] *)
Fixpoint join (sep : jsstring) (xs : list jsstring) : jsstring :=
  match xs with
  | [] => []
  | [x] => x
  | x :: r => x ++ sep ++ join sep r
  end.

(** [s.split('\n')[0]]: the text before the first line feed. *)
Fixpoint firstLine (s : jsstring) : jsstring :=
  match s with
  | [] => []
  | c :: r => if c =? LF then [] else c :: firstLine r
  end.

(** The replacement of the class of double quotes by the empty string,
    with the flag g: every double quote removed. *)
Definition removeQuotes (s : jsstring) : jsstring :=
  List.filter (fun c => negb (c =? QUOTE)) s.

(** [x || d] on strings: the empty string is falsy. *)
Definition orElse (x d : jsstring) : jsstring :=
  match x with [] => d | _ => x end.

End JsString.

Import JsString.

(** ** Slugs *)

(** What the JavaScript runtime provides and the source only calls:
    Unicode lower-casing and canonical decomposition. *)
Record UnicodeOps := {
  toLowerCase : jsstring -> jsstring;
  normalizeNFD : jsstring -> jsstring
}.

Module Slug.

(** [[a-z0-9]] *)
Definition isAlnum (c : N) : bool :=
  ((97 <=? c) && (c <=? 122)) || ((48 <=? c) && (c <=? 57)).

(** The class of the combining diacritical marks, U+0300 to U+036F. *)
Definition isDiacritic (c : N) : bool := (768 <=? c) && (c <=? 879).

(** The first [replace]: the marks removed. *)
Definition removeDiacritics (s : jsstring) : jsstring :=
  List.filter (fun c => negb (isDiacritic c)) s.

(** [.replace(/[^a-z0-9]+/g, '-')]: [inRun] tells that the preceding code
    unit belonged to the run being replaced. *)
Fixpoint collapseFrom (inRun : bool) (s : jsstring) : jsstring :=
  match s with
  | [] => []
  | c :: r =>
      if isAlnum c then c :: collapseFrom false r
      else if inRun then collapseFrom true r
      else HYPHEN :: collapseFrom true r
  end.

Definition collapseNonAlnum (s : jsstring) : jsstring := collapseFrom false s.

(** The alternative [-$] of the last replacement. *)
Fixpoint dropFinalHyphen (s : jsstring) : jsstring :=
  match s with
  | [] => []
  | c :: r =>
      match r with
      | [] => if c =? HYPHEN then [] else [c]
      | _ :: _ => c :: dropFinalHyphen r
      end
  end.

(** The alternative [^-] of the last replacement. *)
Definition dropInitialHyphen (s : jsstring) : jsstring :=
  match s with
  | c :: r => if c =? HYPHEN then r else s
  | [] => []
  end.

(** [.replace(/(^-|-$)/g, '')] *)
Definition trimHyphens (s : jsstring) : jsstring :=
  dropFinalHyphen (dropInitialHyphen s).

(** [slugify(text)] *)
Definition slugify (U : UnicodeOps) (text : jsstring) : jsstring :=
  trimHyphens
    (collapseNonAlnum
       (removeDiacritics (normalizeNFD U (toLowerCase U text)))).

(** The pattern of the specification, [^[a-z0-9]+(-[a-z0-9]+)*$]:
    [slugTail] accepts what may follow one code unit of a group. *)
Fixpoint slugTail (s : jsstring) : bool :=
  match s with
  | [] => true
  | c :: r =>
      if isAlnum c then slugTail r
      else if c =? HYPHEN then
        match r with
        | d :: r' => isAlnum d && slugTail r'
        | [] => false
        end
      else false
  end.

Definition matchesSlugPattern (s : jsstring) : bool :=
  match s with
  | c :: r => isAlnum c && slugTail r
  | [] => false
  end.

(** The code units a slug is made of. *)
Definition isSlugUnit (c : N) : bool := isAlnum c || (c =? HYPHEN).

(** What the properties below need of the runtime: lower-casing and
    decomposition leave a string of digits, lower-case ASCII letters and
    hyphens as it is. *)
Definition FixesSlugUnits (f : jsstring -> jsstring) : Prop :=
  forall s, forallb isSlugUnit s = true -> f s = s.

(** Collapsed strings: slug units only, and no hyphen after a hyphen. *)
Fixpoint collapsed (s : jsstring) : bool :=
  match s with
  | [] => true
  | c :: r =>
      isSlugUnit c
      && match r with
         | d :: _ => negb ((c =? HYPHEN) && (d =? HYPHEN))
         | [] => true
         end
      && collapsed r
  end.

(** An ASCII-only runtime, to run the definitions. *)
Definition asciiLower (c : N) : N :=
  if (65 <=? c) && (c <=? 90) then c + 32 else c.

Definition asciiOps : UnicodeOps :=
  {| toLowerCase := List.map asciiLower; normalizeNFD := fun s => s |}.

End Slug.


(** ** The spot-fetching script ([src/unnamed/part_001]) *)

Module Ingest.

(** *** Values *)

(** The numbers of the script that are not counters are kept as rationals;
    a quotient of two counters is [NaN] when both are zero. *)
Inductive JsNumber :=
| NaN
| Infinity
| Finite (q : Q).

(** [a / b] for two counters. *)
Definition divide (a b : nat) : JsNumber :=
  match b with
  | O => match a with O => NaN | S _ => Infinity end
  | S _ => Finite (Z.of_nat a # Pos.of_nat b)
  end.

(** [x > 0.5]; every comparison with [NaN] is false. *)
Definition gtHalf (x : JsNumber) : bool :=
  match x with
  | NaN => false
  | Infinity => true
  | Finite q => negb (Qle_bool q (1 # 2))
  end.

(** What a property read or an interpolation can yield. *)
Inductive JsValue :=
| VUndefined
| VBool (b : bool)
| VNumber (q : Q)
| VString (s : jsstring)
| VInherited (name : jsstring).  (* a member of [Object.prototype] *)

Definition truthy (v : JsValue) : bool :=
  match v with
  | VUndefined => false
  | VBool b => b
  | VNumber q => negb (Qeq_bool q 0)
  | VString s => match s with [] => false | _ => true end
  | VInherited _ => true
  end.

(** [v || d] *)
Definition orValue (v d : JsValue) : JsValue := if truthy v then v else d.

(** [o || d] for an optional string: [undefined] and the empty string are
    falsy. *)
Definition orString (o : option jsstring) (d : jsstring) : jsstring :=
  match o with
  | Some (c :: r) => c :: r
  | _ => d
  end.

(** [o || d] for an optional number: [undefined] and zero are falsy. *)
Definition orNumber (o : option Q) (d : Q) : Q :=
  match o with
  | Some q => if Qeq_bool q 0 then d else q
  | None => d
  end.

Definition eqString (a b : jsstring) : bool := bool_decide (a = b).

(** [Math.round] *)
Definition mathRound (q : Q) : Z := Qfloor (q + (1 # 2)).

(** *** Records *)

(** A candidate returned by the place search, with the fields the script
    reads; [displayName] is [place.displayName?.text], a review is
    [r.text?.text]. *)
Record Place := {
  displayName : option jsstring;
  formattedAddress : option jsstring;
  googleMapsUri : option jsstring;
  rating : option Q;
  priceLevel : option jsstring;
  reviews : option (list (option jsstring));
  latitude : option Q;
  longitude : option Q
}.

(** An entry of processed-spots.json. *)
Record Entry := {
  uri : jsstring;
  name : jsstring;
  neighborhood : jsstring;
  slug : jsstring;
  processedAt : jsstring
}.

(** The object [synthesizeReview] returns. *)
Record Synthesis := {
  wifi_speed : JsValue;
  noise_level : JsValue;
  plug_access : JsValue;
  casi_score : JsValue;
  review : JsValue
}.

(** The content [generateMdx] builds: the template of the source with the
    values interpolated into it. *)
Record SpotFile := {
  sf_title : jsstring;
  sf_author : jsstring;
  sf_neighborhood : jsstring;
  sf_wifi_speed : JsValue;
  sf_noise_level : JsValue;
  sf_plug_access : JsValue;
  sf_coffee_price : JsValue;
  sf_casi_score : JsValue;
  sf_lat : Q;
  sf_long : Q;
  sf_review : JsValue
}.

(** *** The outside world *)

(** A request to the text-generation client.  The first three stand for
    the prompt templates of the source with these values interpolated; the
    last carries the prompt text itself. *)
Inductive Request :=
| AskNeighborhood (placeName address : jsstring)
| AskCleanName (rawName : jsstring)
| AskSynthesis (placeName reviewsText : jsstring) (rating : option Q)
| AskNewQuery (prompt : jsstring).

(** [groq.chat.completions.create]: the call is rejected, or the completion
    has no content, or it has one. *)
Inductive Completion :=
| Rejected
| NoContent
| Content (text : jsstring).

(** [JSON.parse] of the cleaned completion of [synthesizeReview]. *)
Inductive Parsed :=
| ParseError
| ParsedNull
| ParsedObject (s : Synthesis).

(** The services the script calls.  Every call is numbered, so that a
    world is any sequence of answers. *)
Record World := {
  unicode : UnicodeOps;
  placesApi : nat -> jsstring -> option (list Place);  (* [None]: throws *)
  groq : nat -> Request -> Completion;
  jsonParse : jsstring -> Parsed;
  clock : nat -> jsstring                              (* [toISOString] *)
}.

(** processed-spots.json *)
Inductive LedgerFile :=
| Missing
| Corrupt
| Stored (spots : list Entry).

Inductive Event :=
| EvFetchPlaces (query : jsstring)
| EvGroq (r : Request)
| EvWriteSpot (fileName : jsstring) (content : SpotFile)
| EvSaveLedger (spots : list Entry)
| EvReport (totalNew totalSkipped listed retries : nat).

(** The state of a run: the array [processedSpots] and the set
    [processedUris] are shared by [main] and [processPlaces], which mutates
    them. *)
Record State := {
  calls : nat;
  processedSpots : list Entry;
  processedUris : gset jsstring;
  ledgerFile : LedgerFile;
  trace : list Event
}.

(** *** Computations that may throw *)

Inductive Outcome (A : Type) :=
| Returns (a : A)
| Throws
| OutOfFuel.
Arguments Returns {A} a.
Arguments Throws {A}.
Arguments OutOfFuel {A}.

Definition M (A : Type) : Type := State -> Outcome A * State.

Definition ret {A} (a : A) : M A := fun s => (Returns a, s).

Definition throw {A} : M A := fun s => (Throws, s).

Definition bind {A B} (m : M A) (k : A -> M B) : M B :=
  fun s =>
    match m s with
    | (Returns a, s') => k a s'
    | (Throws, s') => (Throws, s')
    | (OutOfFuel, s') => (OutOfFuel, s')
    end.

Notation "'let*' x ':=' m 'in' k" := (bind m (fun x => k))
  (at level 10, x name, m at level 100, k at level 200).
Notation "m ';;' k" := (bind m (fun _ => k))
  (at level 100, k at level 200, right associativity).

Definition emit (e : Event) : M unit :=
  fun s =>
    (Returns tt,
     {| calls := calls s; processedSpots := processedSpots s;
        processedUris := processedUris s; ledgerFile := ledgerFile s;
        trace := trace s ++ [e] |}).

(** The number of the next call to the outside. *)
Definition nextCall : M nat :=
  fun s =>
    (Returns (calls s),
     {| calls := S (calls s); processedSpots := processedSpots s;
        processedUris := processedUris s; ledgerFile := ledgerFile s;
        trace := trace s |}).

Definition getSpots : M (list Entry) := fun s => (Returns (processedSpots s), s).

Definition hasUri (u : jsstring) : M bool :=
  fun s => (Returns (bool_decide (u ∈ processedUris s)), s).

(** [processedSpots.push(e); processedUris.add(e.uri)] *)
Definition pushSpot (e : Entry) : M unit :=
  fun s =>
    (Returns tt,
     {| calls := calls s; processedSpots := processedSpots s ++ [e];
        processedUris := {[uri e]} ∪ processedUris s;
        ledgerFile := ledgerFile s; trace := trace s |}).

(** *** The ledger *)

(** [loadProcessedSpots] *)
Definition loadProcessedSpots (f : LedgerFile) : list Entry :=
  match f with
  | Stored spots => spots
  | Missing | Corrupt => []
  end.

(** [saveProcessedSpots] *)
Definition saveProcessedSpots (spots : list Entry) : M unit :=
  emit (EvSaveLedger spots) ;;
  fun s =>
    (Returns tt,
     {| calls := calls s; processedSpots := processedSpots s;
        processedUris := processedUris s; ledgerFile := Stored spots;
        trace := trace s |}).

(** *** The clients *)

Definition callGroq (W : World) (r : Request) : M Completion :=
  let* n := nextCall in
  emit (EvGroq r) ;;
  ret (groq W n r).

(** [fetchPlaces] *)
Definition fetchPlaces (W : World) (query : jsstring) : M (list Place) :=
  let* n := nextCall in
  emit (EvFetchPlaces query) ;;
  match placesApi W n query with
  | Some places => ret places
  | None => throw
  end.

(** [completion.choices[0]?.message?.content?.trim()] *)
Definition trimmedContent (c : Completion) : option jsstring :=
  match c with
  | Content text => Some (trim text)
  | _ => None
  end.

(** The clean-up of a one-line answer: quotes removed, first line,
    trimmed. *)
Definition oneLine (s : jsstring) : jsstring :=
  trim (firstLine (removeQuotes s)).

(** [inferNeighborhoodWithGroq] *)
Definition inferNeighborhoodWithGroq (W : World) (placeName address : jsstring)
  : M jsstring :=
  let* c := callGroq W (AskNeighborhood placeName address) in
  match c with
  | Rejected => ret (lit "Centro")
  | _ => ret (oneLine (orString (trimmedContent c) (lit "Centro")))
  end.

(** [cleanCafeNameWithGroq] *)
Definition cleanCafeNameWithGroq (W : World) (rawName : jsstring) : M jsstring :=
  let* c := callGroq W (AskCleanName rawName) in
  match c with
  | Rejected => ret rawName
  | _ => ret (oneLine (orString (trimmedContent c) rawName))
  end.

(** The defaults of [synthesizeReview]. *)
Definition defaultSynthesis (placeName : jsstring) (rating : option Q)
  : Synthesis :=
  {| wifi_speed := VString (lit "reliable");
     noise_level := VString (lit "hum");
     plug_access := VBool true;
     casi_score := VNumber (inject_Z (mathRound (orNumber rating 7)));
     review :=
       VString
         (lit "## The Vibe" ++ [LF; LF] ++ placeName
          ++ lit " is a Madrid cafe that does the basics right. Expect decent coffee, reasonable seating, and the kind of atmosphere that won't distract you from your work."
          ++ [LF; LF] ++ lit "## The Verdict" ++ [LF; LF]
          ++ lit "A solid choice for the discerning remote worker. Not flashy, but functional.") |}.

(** [reviews?.slice(0, 5).map(...).filter(Boolean).join(...)] *)
Definition reviewsText (rs : option (list (option jsstring)))
  : option jsstring :=
  match rs with
  | None => None
  | Some l =>
      Some (join (LF :: lit "---" ++ [LF])
              (List.filter (fun t => match t with [] => false | _ => true end)
                 (List.map (fun r => orString r []) (firstn 5 l))))
  end.

(** [completion.choices[0]?.message?.content] *)
Definition content (c : Completion) : option jsstring :=
  match c with
  | Content text => Some text
  | _ => None
  end.

(** [synthesizeReview]; its call to the client is outside of any [try], and
    a parsed [null] is returned as it is.  [jsonParse] stands for the
    removal of the code fences, the trimming and [JSON.parse]. *)
Definition synthesizeReview (W : World) (placeName : jsstring)
    (rs : option (list (option jsstring))) (rating : option Q)
  : M (option Synthesis) :=
  match reviewsText rs with
  | Some (c :: t) =>
      let* r := callGroq W (AskSynthesis placeName (c :: t) rating) in
      match r with
      | Rejected => throw
      | _ =>
          match jsonParse W (orString (content r) []) with
          | ParseError => ret (Some (defaultSynthesis placeName rating))
          | ParsedNull => ret None
          | ParsedObject o => ret (Some o)
          end
      end
  | _ => ret (Some (defaultSynthesis placeName rating))
  end.

(** *** Prices *)

(** The own properties of [mapping]. *)
Definition mapping : list (jsstring * Q) :=
  [ (lit "PRICE_LEVEL_FREE", 0%Q);
    (lit "PRICE_LEVEL_INEXPENSIVE", 18 # 10);
    (lit "PRICE_LEVEL_MODERATE", 25 # 10);
    (lit "PRICE_LEVEL_EXPENSIVE", 35 # 10);
    (lit "PRICE_LEVEL_VERY_EXPENSIVE", 45 # 10) ].

(** The properties an object literal inherits from [Object.prototype]. *)
Definition objectPrototype : list jsstring :=
  List.map lit
    [ "constructor"; "__defineGetter__"; "__defineSetter__"; "hasOwnProperty";
      "__lookupGetter__"; "__lookupSetter__"; "isPrototypeOf";
      "propertyIsEnumerable"; "toString"; "valueOf"; "__proto__";
      "toLocaleString" ]%string.

Fixpoint ownProperty (props : list (jsstring * Q)) (key : jsstring)
  : option Q :=
  match props with
  | [] => None
  | (k, v) :: r => if eqString k key then Some v else ownProperty r key
  end.

(** [mapping[priceLevel]]; an absent [priceLevel] reads the key
    [undefined]. *)
Definition getProperty (key : option jsstring) : JsValue :=
  let k := match key with Some k => k | None => lit "undefined" end in
  match ownProperty mapping k with
  | Some v => VNumber v
  | None =>
      if existsb (eqString k) objectPrototype then VInherited k else VUndefined
  end.

(** [priceLevelToEuros] *)
Definition priceLevelToEuros (priceLevel : option jsstring) : JsValue :=
  orValue (getProperty priceLevel) (VNumber (25 # 10)).

(** *** Files *)

(** [generateMdx]; reading a field of a [null] synthesis throws. *)
Definition generateMdx (W : World) (place : Place) (synthesis : option Synthesis)
    (neighborhood cleanName : jsstring) : M (jsstring * SpotFile) :=
  let title :=
    match cleanName with
    | [] => orString (displayName place) (lit "Unknown Cafe")
    | _ => cleanName
    end in
  let neighborhoodSlug := Slug.slugify (unicode W) neighborhood in
  let cafeSlug := Slug.slugify (unicode W) title in
  let slug := neighborhoodSlug ++ [HYPHEN] ++ cafeSlug in
  let lat := orNumber (latitude place) (40416775 # 1000000) in
  let long := orNumber (longitude place) (- 370379 # 100000) in
  let coffeePrice := priceLevelToEuros (priceLevel place) in
  match synthesis with
  | None => throw
  | Some syn =>
      ret (slug,
           {| sf_title := title;
              sf_author := lit "murad-madi";
              sf_neighborhood := neighborhood;
              sf_wifi_speed := wifi_speed syn;
              sf_noise_level := noise_level syn;
              sf_plug_access := plug_access syn;
              sf_coffee_price := coffeePrice;
              sf_casi_score := casi_score syn;
              sf_lat := lat;
              sf_long := long;
              sf_review := review syn |})
  end.

(** *** Query suggestions *)

(** The prompt of [suggestNewQuery]: what precedes the list of names, the
    names, and what follows them. *)
Definition promptHead (originalQuery : jsstring) : jsstring :=
  lit "You are helping find NEW specialty coffee cafes in Madrid for remote workers."
  ++ [LF; LF] ++ lit "Original search query: " ++ [QUOTE] ++ originalQuery
  ++ [QUOTE] ++ [LF; LF]
  ++ lit "We already have these spots in our database:" ++ [LF].

Definition promptTail : jsstring :=
  [LF; LF]
  ++ lit "Suggest ONE new Google Maps search query that will find DIFFERENT cafes we don't have yet. Try:"
  ++ [LF] ++ lit "- Different neighborhoods (Arg" ++ [8730; 186]
  ++ lit "elles, Retiro, Tetu" ++ [8730; 176] ++ lit "n, Vallecas, etc.)"
  ++ [LF] ++ lit "- Different angles (" ++ [QUOTE] ++ lit "coworking cafes"
  ++ [QUOTE] ++ lit ", " ++ [QUOTE] ++ lit "quiet cafes with wifi" ++ [QUOTE]
  ++ lit ", " ++ [QUOTE] ++ lit "laptop friendly brunch spots" ++ [QUOTE]
  ++ lit ")" ++ [LF] ++ lit "- Specific areas (" ++ [QUOTE]
  ++ lit "cafes near Calle Fuencarral" ++ [QUOTE] ++ lit ", " ++ [QUOTE]
  ++ lit "coffee shops in Chamart" ++ [8730; 8800] ++ lit "n" ++ [QUOTE]
  ++ lit ")" ++ [LF; LF]
  ++ lit "Respond with ONLY the search query text, no explanation. Keep it under 10 words.".

Definition suggestPrompt (originalQuery : jsstring)
    (processedNames : list jsstring) : jsstring :=
  promptHead originalQuery
  ++ join [LF] (firstn 15 processedNames)
  ++ promptTail.

(** [suggestNewQuery]; [None] is [null]. *)
Definition suggestNewQuery (W : World) (originalQuery : jsstring)
    (processedNames : list jsstring) : M (option jsstring) :=
  let* c := callGroq W (AskNewQuery (suggestPrompt originalQuery processedNames)) in
  match c with
  | Rejected => ret None
  | _ => ret (Some (oneLine (orString (trimmedContent c) [])))
  end.

(** *** Batches *)

Record BatchResult := {
  newCount : nat;
  skippedCount : nat;
  skippedNames : list jsstring
}.

(** The body of the loop of [processPlaces] for one place. *)
Definition processPlace (W : World) (place : Place) (acc : BatchResult)
  : M BatchResult :=
  let name := orString (displayName place) (lit "Unknown") in
  let uri := orString (googleMapsUri place) [] in
  let* seen := hasUri uri in
  if seen then
    ret {| newCount := newCount acc;
           skippedCount := S (skippedCount acc);
           skippedNames := skippedNames acc ++ [name] |}
  else
    let* neighborhood :=
      inferNeighborhoodWithGroq W name (orString (formattedAddress place) []) in
    let* cleanName := cleanCafeNameWithGroq W name in
    let* synthesis := synthesizeReview W cleanName (reviews place) (rating place) in
    let* file := generateMdx W place synthesis neighborhood cleanName in
    emit (EvWriteSpot (fst file ++ lit ".mdx") (snd file)) ;;
    let* n := nextCall in
    pushSpot {| uri := uri; name := name; neighborhood := neighborhood;
                slug := fst file; processedAt := clock W n |} ;;
    ret {| newCount := S (newCount acc);
           skippedCount := skippedCount acc;
           skippedNames := skippedNames acc |}.

Fixpoint processFrom (W : World) (places : list Place) (acc : BatchResult)
  : M BatchResult :=
  match places with
  | [] => ret acc
  | place :: rest =>
      let* acc' := processPlace W place acc in
      processFrom W rest acc'
  end.

(** [processPlaces] *)
Definition processPlaces (W : World) (places : list Place) : M BatchResult :=
  processFrom W places
    {| newCount := 0; skippedCount := 0; skippedNames := [] |}.

(** *** The run *)

Definition MAX_RETRIES : nat := 3.

(** The variables of [main] that its loop updates. *)
Record LoopVars := {
  query : jsstring;
  retryCount : nat;
  totalNew : nat;
  totalSkipped : nat
}.

(** How an iteration of the loop ends. *)
Inductive Step :=
| Continue (v : LoopVars)
| Break (v : LoopVars).

(** The retry condition of [main]. *)
Definition shouldRetry (r : BatchResult) (found retries : nat) : bool :=
  gtHalf (divide (skippedCount r) found)
  && (newCount r <? 5)%nat
  && (retries <? MAX_RETRIES - 1)%nat.

(** The body of the loop of [main]. *)
Definition iteration (W : World) (processedNames : list jsstring)
    (v : LoopVars) : M Step :=
  let* places := fetchPlaces W (query v) in
  let* r := processPlaces W places in
  let v' :=
    {| query := query v; retryCount := retryCount v;
       totalNew := totalNew v + newCount r;
       totalSkipped := totalSkipped v + skippedCount r |} in
  if shouldRetry r (length places) (retryCount v) then
    let* newQuery :=
      suggestNewQuery W (query v) (processedNames ++ skippedNames r) in
    match newQuery with
    | Some (c :: t) =>
        if negb (eqString (c :: t) (query v)) then
          ret (Continue {| query := c :: t; retryCount := S (retryCount v);
                           totalNew := totalNew v';
                           totalSkipped := totalSkipped v' |})
        else ret (Break v')
    | _ => ret (Break v')
    end
  else ret (Break v').

(** [while (retryCount < MAX_RETRIES) { ... }] *)
Fixpoint loop (fuel : nat) (W : World) (processedNames : list jsstring)
    (v : LoopVars) : M LoopVars :=
  if (retryCount v <? MAX_RETRIES)%nat then
    match fuel with
    | O => fun s => (OutOfFuel, s)
    | S fuel' =>
        let* step := iteration W processedNames v in
        match step with
        | Continue v' => loop fuel' W processedNames v'
        | Break v' => ret v'
        end
    end
  else ret v.

(** The first statements of [main]: the ledger is loaded once, into the
    array and the set; the result is the array as loaded. *)
Definition loadLedger : M (list Entry) :=
  fun s =>
    let spots := loadProcessedSpots (ledgerFile s) in
    (Returns spots,
     {| calls := calls s; processedSpots := spots;
        processedUris := list_to_set (List.map uri spots);
        ledgerFile := ledgerFile s; trace := trace s |}).

Definition defaultQuery : jsstring :=
  lit "Laptop friendly specialty coffee madrid".

(** [main], with [argv2] for [process.argv[2]]. *)
Definition main (W : World) (argv2 : option jsstring) : M LoopVars :=
  let* loaded := loadLedger in
  let processedNames := List.map name loaded in
  let* v :=
    loop MAX_RETRIES W processedNames
      {| query := orString argv2 defaultQuery;
         retryCount := 0; totalNew := 0; totalSkipped := 0 |} in
  let* spots := getSpots in
  saveProcessedSpots spots ;;
  emit (EvReport (totalNew v) (totalSkipped v) (length spots) (retryCount v)) ;;
  ret v.

(** A fresh process on a given ledger file. *)
Definition boot (f : LedgerFile) : State :=
  {| calls := 0; processedSpots := []; processedUris := ∅;
     ledgerFile := f; trace := [] |}.

End Ingest.

(** ** The review refiner ([src/unnamed/part_002]) *)

Module Refine.

(** *** The regular expressions of the script *)

(** The longest prefix of [s] whose code units satisfy [p], and the rest:
    a greedy starred class. *)
Fixpoint spanWhile (p : N -> bool) (s : jsstring) : jsstring * jsstring :=
  match s with
  | c :: r =>
      if p c then let (a, b) := spanWhile p r in (c :: a, b) else ([], s)
  | [] => ([], [])
  end.

Definition notQuote (c : N) : bool := negb (c =? QUOTE).

(** A match, at the start of [s], of [key] followed by white space, a
    double quote, code units other than the double quote and a double
    quote: the matched text, the quoted text and what follows the match.
    The quoted text may be empty unless [nonEmpty].  The two starred
    classes cannot give back what they took, for the code unit that
    follows each of them is outside of it. *)
Definition matchField (key : jsstring) (nonEmpty : bool) (s : jsstring)
  : option (jsstring * jsstring * jsstring) :=
  match stripPrefix key s with
  | None => None
  | Some r =>
      let (ws, r1) := spanWhile isSpace r in
      match r1 with
      | c :: r2 =>
          if c =? QUOTE then
            let (value, r3) := spanWhile notQuote r2 in
            match r3 with
            | _ :: rest =>
                match nonEmpty, value with
                | true, [] => None
                | _, _ =>
                    Some (key ++ ws ++ [QUOTE] ++ value ++ [QUOTE], value, rest)
                end
            | [] => None
            end
          else None
      | [] => None
      end
  end.

(** The leftmost match in [s]: what precedes it, the matched text, the
    quoted text and what follows. *)
Fixpoint findField (key : jsstring) (nonEmpty : bool) (s : jsstring)
  : option (jsstring * jsstring * jsstring * jsstring) :=
  match matchField key nonEmpty s with
  | Some (m, v, rest) => Some ([], m, v, rest)
  | None =>
      match s with
      | [] => None
      | c :: s' =>
          match findField key nonEmpty s' with
          | Some (b, m, v, a) => Some (c :: b, m, v, a)
          | None => None
          end
      end
  end.

Definition isDigit (c : N) : bool := (48 <=? c) && (c <=? 57).

Definition digitValue (c : N) : nat := N.to_nat (c - 48).

(** The capture of index [i], or the reference itself when there is no such
    capture. *)
Definition capture (captures : list jsstring) (i : nat) (ref : jsstring)
  : jsstring :=
  if ((1 <=? i) && (i <=? length captures))%nat
  then nth (i - 1) captures []
  else ref.

(** The expansion of a replacement string (GetSubstitution of ECMAScript):
    the dollar patterns stand for a dollar, the matched text, what precedes
    it, what follows it, and the captures.  The expressions of the script
    have no named groups. *)
Fixpoint getSubstitution (matched before after : jsstring)
    (captures : list jsstring) (template : jsstring) : jsstring :=
  match template with
  | [] => []
  | c :: t =>
      if c =? DOLLAR then
        match t with
        | [] => [DOLLAR]
        | d :: t' =>
            if d =? DOLLAR then
              DOLLAR :: getSubstitution matched before after captures t'
            else if d =? 38 then
              matched ++ getSubstitution matched before after captures t'
            else if d =? 96 then
              before ++ getSubstitution matched before after captures t'
            else if d =? 39 then
              after ++ getSubstitution matched before after captures t'
            else if isDigit d then
              match t' with
              | e :: t'' =>
                  if isDigit e
                     && (10 * digitValue d + digitValue e <=? length captures)%nat
                  then
                    capture captures (10 * digitValue d + digitValue e)
                      [DOLLAR; d; e]
                    ++ getSubstitution matched before after captures t''
                  else
                    capture captures (digitValue d) [DOLLAR; d]
                    ++ getSubstitution matched before after captures t'
              | [] => capture captures (digitValue d) [DOLLAR; d]
              end
            else DOLLAR :: getSubstitution matched before after captures t
        end
      else c :: getSubstitution matched before after captures t
  end.

(** [s.replace(re, template)] for a field expression without the flag g:
    the leftmost match is replaced.  [groups] gives the captures of a
    match. *)
Definition replaceField (key : jsstring) (groups : jsstring -> list jsstring)
    (template s : jsstring) : jsstring :=
  match findField key false s with
  | None => s
  | Some (b, m, _, a) => b ++ getSubstitution m b a (groups m) template ++ a
  end.

(** [s.endsWith(suffix)] *)
Definition endsWith (suffix s : jsstring) : bool :=
  startsWith (rev suffix) (rev s).

(** [s.replace(p, '')] for a string [p]: its first occurrence removed. *)
Definition removeFirst (p s : jsstring) : jsstring :=
  match splitFirst p s with
  | Some (a, b) => a ++ b
  | None => s
  end.

(** *** Content files *)

Definition fence : jsstring := lit "---" ++ [LF].

Definition delimiter : jsstring := LF :: lit "---" ++ [LF].

(** [parseMdx]: the frontmatter and the body; [None] when it throws.  The
    lazy group ends at the first delimiter. *)
Definition parseMdx (content : jsstring) : option (jsstring * jsstring) :=
  match stripPrefix fence content with
  | None => None
  | Some r =>
      match splitFirst delimiter r with
      | None => None
      | Some (frontmatter, rest) => Some (frontmatter, trim rest)
      end
  end.

(** The text of an author field. *)
Definition authorLine (author : jsstring) : jsstring :=
  lit "author: " ++ [QUOTE] ++ author ++ [QUOTE].

(** The frontmatter that [buildMdx] writes. *)
Definition patchAuthor (frontmatter author : jsstring) : jsstring :=
  match author with
  | [] => frontmatter
  | _ =>
      if includes (lit "author:") frontmatter then
        replaceField (lit "author:") (fun _ => []) (authorLine author)
          frontmatter
      else
        replaceField (lit "title:") (fun m => [m])
          (lit "$1" ++ [LF] ++ authorLine author) frontmatter
  end.

(** [buildMdx] *)
Definition buildMdx (frontmatter body author : jsstring) : jsstring :=
  let newFrontmatter := patchAuthor frontmatter author in
  lit "---" ++ [LF] ++ newFrontmatter ++ [LF] ++ lit "---" ++ [LF; LF]
  ++ body ++ [LF].

(** *** The outside world *)

(** An entry of refined-spots.json. *)
Record Entry := {
  filename : jsstring;
  spotName : jsstring;
  refinedAt : jsstring
}.

Inductive Completion :=
| Rejected
| NoContent
| Content (text : jsstring).

(** The services the script calls, every call numbered; the request of
    [refineReview] stands for its prompt with these values. *)
Record World := {
  groq : nat -> jsstring -> jsstring -> jsstring -> Completion;
  random : nat -> Q;                                   (* [Math.random] *)
  clock : nat -> jsstring
}.

(** refined-spots.json *)
Inductive LedgerFile :=
| Missing
| Corrupt
| Stored (spots : list Entry).

Inductive Event :=
| EvGroq (spotName neighborhood currentReview : jsstring)
| EvWriteSpot (fileName content : jsstring)
| EvSaveLedger (spots : list Entry)
| EvSleep (ms : Z).

(** The files: the ledger and the spots directory. *)
Record State := {
  calls : nat;
  ledgerFile : LedgerFile;
  spotsDir : gmap jsstring jsstring;
  trace : list Event
}.

Inductive Outcome (A : Type) :=
| Returns (a : A)
| Throws
| Exits (code : Z).
Arguments Returns {A} a.
Arguments Throws {A}.
Arguments Exits {A} code.

Definition M (A : Type) : Type := State -> Outcome A * State.

Definition ret {A} (a : A) : M A := fun s => (Returns a, s).

Definition throw {A} : M A := fun s => (Throws, s).

Definition bind {A B} (m : M A) (k : A -> M B) : M B :=
  fun s =>
    match m s with
    | (Returns a, s') => k a s'
    | (Throws, s') => (Throws, s')
    | (Exits c, s') => (Exits c, s')
    end.

(** [try { m } catch { }], for a computation without a result. *)
Definition catch (m : M unit) : M unit :=
  fun s =>
    match m s with
    | (Throws, s') => (Returns tt, s')
    | r => r
    end.

Notation "'let*' x ':=' m 'in' k" := (bind m (fun x => k))
  (at level 10, x name, m at level 100, k at level 200).
Notation "m ';;' k" := (bind m (fun _ => k))
  (at level 100, k at level 200, right associativity).

Definition emit (e : Event) : M unit :=
  fun s =>
    (Returns tt,
     {| calls := calls s; ledgerFile := ledgerFile s; spotsDir := spotsDir s;
        trace := trace s ++ [e] |}).

Definition nextCall : M nat :=
  fun s =>
    (Returns (calls s),
     {| calls := S (calls s); ledgerFile := ledgerFile s;
        spotsDir := spotsDir s; trace := trace s |}).

(** [readdirSync(SPOTS_DIR)] *)
Definition readdir : M (list jsstring) :=
  fun s => (Returns ((map_to_list (spotsDir s)).*1), s).

(** [existsSync(join(SPOTS_DIR, name))] *)
Definition existsFile (fileName : jsstring) : M bool :=
  fun s =>
    (Returns (match spotsDir s !! fileName with Some _ => true | None => false end),
     s).

(** [readFileSync(join(SPOTS_DIR, name))] *)
Definition readFile (fileName : jsstring) : M jsstring :=
  fun s =>
    match spotsDir s !! fileName with
    | Some content => (Returns content, s)
    | None => (Throws, s)
    end.

(** [writeFileSync(join(SPOTS_DIR, name), content)] *)
Definition writeFile (fileName content : jsstring) : M unit :=
  emit (EvWriteSpot fileName content) ;;
  fun s =>
    (Returns tt,
     {| calls := calls s; ledgerFile := ledgerFile s;
        spotsDir := <[fileName := content]> (spotsDir s); trace := trace s |}).

(** [loadRefinedSpots] *)
Definition loadRefinedSpots : M (list Entry) :=
  fun s =>
    (Returns (match ledgerFile s with
              | Stored spots => spots
              | Missing | Corrupt => []
              end), s).

(** [saveRefinedSpots] *)
Definition saveRefinedSpots (spots : list Entry) : M unit :=
  emit (EvSaveLedger spots) ;;
  fun s =>
    (Returns tt,
     {| calls := calls s; ledgerFile := Stored spots; spotsDir := spotsDir s;
        trace := trace s |}).

(** *** Authors and reviews *)

Definition ltQ (a b : Q) : bool := negb (Qle_bool b a).

(** [selectRandomAuthor] *)
Definition selectRandomAuthor (W : World) : M jsstring :=
  let* n := nextCall in
  let rand := random W n in
  if ltQ rand (40 # 100) then ret (lit "murad")
  else if ltQ rand (55 # 100) then ret (lit "isabella")
  else if ltQ rand (70 # 100) then ret (lit "mikelia")
  else if ltQ rand (85 # 100) then ret (lit "sara")
  else ret (lit "robert").

(** [refineReview]; the call to the client is outside of any [try]. *)
Definition refineReview (W : World)
    (spotName neighborhood currentReview : jsstring) : M jsstring :=
  let* n := nextCall in
  emit (EvGroq spotName neighborhood currentReview) ;;
  match groq W n spotName neighborhood currentReview with
  | Rejected => throw
  | c =>
      let refined :=
        match c with
        | Content text => trim text
        | _ => []
        end in
      if startsWith (lit "##") refined then ret refined
      else ret (lit "## The Vibe" ++ [LF; LF] ++ refined)
  end.

(** *** The run *)

Definition RATE_LIMIT_MS : Z := 600 * 1000.

(** What the loop of [main] carries from file to file. *)
Record Progress := {
  refinedSpots : list Entry;
  processed : nat
}.

(** The [try] block of the loop of [main] for one file. *)
Definition refineFile (W : World) (singleFile : bool) (total : nat)
    (fileName : jsstring) (p : Progress) : M Progress :=
  let* content := readFile fileName in
  match parseMdx content with
  | None => throw
  | Some (frontmatter, body) =>
      let spotName :=
        match findField (lit "title:") true frontmatter with
        | Some (_, _, v, _) => v
        | None => removeFirst (lit ".mdx") fileName
        end in
      let neighborhood :=
        match findField (lit "neighborhood:") true frontmatter with
        | Some (_, _, v, _) => v
        | None => lit "Madrid"
        end in
      let* author := selectRandomAuthor W in
      let* refinedBody := refineReview W spotName neighborhood body in
      let newContent := buildMdx frontmatter refinedBody author in
      writeFile fileName newContent ;;
      let* spots :=
        if singleFile then ret (refinedSpots p)
        else
          let* n := nextCall in
          let spots :=
            refinedSpots p
            ++ [{| filename := fileName; spotName := spotName;
                   refinedAt := clock W n |}] in
          saveRefinedSpots spots ;;
          ret spots in
      let processed' := S (processed p) in
      (if (processed' <? total)%nat then emit (EvSleep RATE_LIMIT_MS)
       else ret tt) ;;
      ret {| refinedSpots := spots; processed := processed' |}
  end.

(** The loop of [main]: a failure is caught and the loop goes on with the
    progress made before the file. *)
Fixpoint refineAll (W : World) (singleFile : bool) (total : nat)
    (files : list jsstring) (p : Progress) : M Progress :=
  match files with
  | [] => ret p
  | fileName :: rest =>
      fun s =>
        match refineFile W singleFile total fileName p s with
        | (Returns p', s') => refineAll W singleFile total rest p' s'
        | (Throws, s') => refineAll W singleFile total rest p s'
        | (Exits c, s') => (Exits c, s')
        end
  end.

Definition inLedger (spots : list Entry) (fileName : jsstring) : bool :=
  bool_decide
    (fileName ∈ (list_to_set (List.map filename spots) : gset jsstring)).

(** The files [main] is to refine. *)
Definition selectFiles (argv2 : option jsstring) : M (list jsstring) :=
  match argv2 with
  | Some (c :: t) =>
      let singleFile := c :: t in
      let fileName :=
        if endsWith (lit ".mdx") singleFile then singleFile
        else singleFile ++ lit ".mdx" in
      let* found := existsFile fileName in
      if found then ret [fileName] else fun s => (Exits 1, s)
  | _ =>
      let* names := readdir in
      let files :=
        List.filter (fun f => negb (bool_decide (f = lit "example-spot.mdx")))
          (List.filter (endsWith (lit ".mdx")) names) in
      let* refinedSpots := loadRefinedSpots in
      ret (List.filter (fun f => negb (inLedger refinedSpots f)) files)
  end.

(** [main], with [argv2] for [process.argv[2]]; the result is the number of
    reviews refined. *)
Definition main (W : World) (argv2 : option jsstring) : M nat :=
  let singleFile :=
    match argv2 with Some (_ :: _) => true | _ => false end in
  let* filesToProcess := selectFiles argv2 in
  match filesToProcess with
  | [] => ret 0%nat
  | _ =>
      let* refinedSpots :=
        if singleFile then ret [] else loadRefinedSpots in
      let* p :=
        refineAll W singleFile (length filesToProcess) filesToProcess
          {| refinedSpots := refinedSpots; processed := 0 |} in
      ret (processed p)
  end.

(** A fresh process on given files. *)
Definition boot (f : LedgerFile) (dir : gmap jsstring jsstring) : State :=
  {| calls := 0; ledgerFile := f; spotsDir := dir; trace := [] |}.

End Refine.

(** ** The site ([src/unnamed/part_003], [src/src/content/config.ts]) *)

Module Site.

Definition eqString (a b : jsstring) : bool := bool_decide (a = b).

(** *** The map *)

(** The interface [Spot] of the map component. *)
Record Spot := {
  id : jsstring;
  name : jsstring;
  slug : jsstring;
  lat : Q;
  lng : Q;
  wifi : jsstring;
  noise : jsstring;
  power : jsstring;
  score : Q
}.

(** The callback of [spots.filter] in [MapInterface], for the three filters
    of its state. *)
Definition keepsSpot (filterWifi filterNoise filterPower : jsstring)
    (spot : Spot) : bool :=
  if negb (eqString filterWifi (lit "all"))
     && negb (eqString (wifi spot) filterWifi) then false
  else if negb (eqString filterNoise (lit "all"))
          && negb (eqString (noise spot) filterNoise) then false
  else if eqString filterPower (lit "available")
          && negb (eqString (power spot) (lit "available")) then false
  else true.

(** [filteredSpots] *)
Definition filteredSpots (spots : list Spot)
    (filterWifi filterNoise filterPower : jsstring) : list Spot :=
  List.filter (keepsSpot filterWifi filterNoise filterPower) spots.

(** *** The content collection *)

Definition SLASH : N := 47.

(** [s.split(sep)] for a separator of one code unit. *)
Fixpoint splitOn (sep : N) (s : jsstring) : list jsstring :=
  match s with
  | [] => [[]]
  | c :: r =>
      if c =? sep then [] :: splitOn sep r
      else
        match splitOn sep r with
        | x :: xs => (c :: x) :: xs
        | [] => [[c]]
        end
  end.

(** [s.substring(0, s.length - n)] *)
Definition dropLast (n : nat) (s : jsstring) : jsstring :=
  firstn (length s - n) s.

(** The replacement of a final [.mdx] or [.md] by the empty string.  The
    expression is anchored at the end and the input ends in one of the two
    at most, so that it has one match at most. *)
Definition stripExtension (entry : jsstring) : jsstring :=
  if Refine.endsWith (lit ".mdx") entry then dropLast 4 entry
  else if Refine.endsWith (lit ".md") entry then dropLast 3 entry
  else entry.

(** [generateId] of the loader of the spots. *)
Definition generateId (entry : jsstring) : jsstring :=
  if Refine.endsWith (lit "/index.mdx") entry
     || Refine.endsWith (lit "/index.md") entry then
    let parts := splitOn SLASH entry in
    if (2 <=? length parts)%nat then nth (length parts - 2) parts []
    else stripExtension entry
  else stripExtension entry.

(** The computed field [rentScore] of the schema of the spots, for a
    finite price. *)
Definition rentScore (coffee_price : Q) : jsstring :=
  if Refine.ltQ coffee_price 2 then lit "High"
  else if Refine.ltQ (35 # 10) coffee_price then lit "Low"
  else lit "Medium".

End Site.

(** ** The sitemap filter ([src/scripts/filter-sitemap.mjs]) *)

Module Sitemap.

(** *** The regular expression [locRegex] *)

(** The line terminators, which the dot of a regular expression does not
    match. *)
Definition isLineTerminator (c : N) : bool :=
  (c =? 10) || (c =? 13) || (c =? 8232) || (c =? 8233).

(** The lazy group and the closing tag, at the start of [s]: the shortest
    text without a line terminator that [close] follows, and what follows
    [close]. *)
Fixpoint lazyUntil (close s : jsstring) : option (jsstring * jsstring) :=
  match stripPrefix close s with
  | Some rest => Some ([], rest)
  | None =>
      match s with
      | c :: r =>
          if isLineTerminator c then None
          else
            match lazyUntil close r with
            | Some (url, rest) => Some (c :: url, rest)
            | None => None
            end
      | [] => None
      end
  end.

(** A match of [locRegex] at the start of [s]: the group and what follows
    the match. *)
Definition matchLoc (s : jsstring) : option (jsstring * jsstring) :=
  match stripPrefix (lit "<loc>") s with
  | Some r => lazyUntil (lit "</loc>") r
  | None => None
  end.

(** [locRegex.exec]: the leftmost match in what is left of the text. *)
Fixpoint findLoc (s : jsstring) : option (jsstring * jsstring) :=
  match matchLoc s with
  | Some m => Some m
  | None =>
      match s with
      | _ :: r => findLoc r
      | [] => None
      end
  end.

(** The loop that collects the groups, match after match.  Every match
    shortens what is left, so that the length of the text is fuel
    enough. *)
Fixpoint execAll (fuel : nat) (s : jsstring) : list jsstring :=
  match fuel with
  | O => []
  | S fuel' =>
      match findLoc s with
      | Some (url, rest) => url :: execAll fuel' rest
      | None => []
      end
  end.

Definition extractUrls (sitemapContent : jsstring) : list jsstring :=
  execAll (length sitemapContent) sitemapContent.

(** *** The outside world *)

Inductive Node :=
| File (content : jsstring)
| Directory.

(** What the script calls and reads: [new URL(url).pathname] ([None] when
    the constructor throws), [path.join], the two paths it computes when it
    starts, the disk, and the variable [SKIP_HTML_EXT_CHECK] of the
    environment. *)
Record World := {
  pathnameOf : jsstring -> option jsstring;
  join : list jsstring -> jsstring;
  DIST_DIR : jsstring;
  SITEMAP_PATH : jsstring;
  disk : jsstring -> option Node;
  SKIP_HTML_EXT_CHECK : option jsstring
}.

(** [fs.existsSync] *)
Definition existsSync (W : World) (p : jsstring) : bool :=
  match disk W p with Some _ => true | None => false end.

(** [fs.writeFileSync] *)
Definition writeFileSync (W : World) (p content : jsstring) : World :=
  {| pathnameOf := pathnameOf W; join := join W; DIST_DIR := DIST_DIR W;
     SITEMAP_PATH := SITEMAP_PATH W;
     disk := fun q => if bool_decide (q = p) then Some (File content)
                      else disk W q;
     SKIP_HTML_EXT_CHECK := SKIP_HTML_EXT_CHECK W |}.

(** *** The pages *)

(** The file in which the script looks for the page of a URL; [None] when
    the URL does not parse. *)
Definition filePathOf (W : World) (url : jsstring) : option jsstring :=
  match pathnameOf W url with
  | None => None
  | Some p =>
      let pathname :=
        match stripPrefix (lit "/") p with Some r => r | None => p end in
      let pathname :=
        match pathname with
        | [] => lit "index.html"
        | _ =>
            if Refine.endsWith (lit "/") pathname then
              pathname ++ lit "index.html"
            else
              match SKIP_HTML_EXT_CHECK W with
              | Some (_ :: _) => pathname
              | _ =>
                  if existsSync W
                       (join W [DIST_DIR W; pathname; lit "index.html"])
                  then join W [pathname; lit "index.html"]
                  else if existsSync W
                            (join W [DIST_DIR W; pathname ++ lit ".html"])
                  then pathname ++ lit ".html"
                  else pathname
              end
        end in
      Some (join W [DIST_DIR W; pathname])
  end.

(** The body of the loop over the URLs: whether the URL is retained.  A
    URL that does not parse and a page that cannot be read are caught. *)
Definition retained (W : World) (url : jsstring) : bool :=
  match filePathOf W url with
  | None => false
  | Some filePath =>
      match disk W filePath with
      | Some (File content) => includes (lit "<img ") content
      | Some Directory => false
      | None => false
      end
  end.

(** *** The new sitemap *)

Definition fallbackHeader : jsstring :=
  lit "<?xml version=" ++ [QUOTE] ++ lit "1.0" ++ [QUOTE] ++ lit " encoding="
  ++ [QUOTE] ++ lit "UTF-8" ++ [QUOTE] ++ lit "?><urlset xmlns=" ++ [QUOTE]
  ++ lit "http://www.sitemaps.org/schemas/sitemap/0.9" ++ [QUOTE] ++ lit ">".

Definition footer : jsstring := lit "</urlset>".

(** What precedes the first [<url>], or else the first [</urlset>], or
    else the header of an empty sitemap. *)
Definition headerOf (sitemapContent : jsstring) : jsstring :=
  match splitFirst (lit "<url>") sitemapContent with
  | Some (header, _) => header
  | None =>
      match splitFirst footer sitemapContent with
      | Some (header, _) => header
      | None => fallbackHeader
      end
  end.

Definition urlEntry (url : jsstring) : jsstring :=
  lit "<url><loc>" ++ url ++ lit "</loc></url>".

Definition newSitemap (sitemapContent : jsstring) (validUrls : list jsstring)
  : jsstring :=
  headerOf sitemapContent ++ concat (List.map urlEntry validUrls) ++ footer.

(** How a run ends: it returns, or reading the sitemap throws. *)
Inductive Outcome :=
| Returns
| Throws.

(** [filterSitemap] *)
Definition filterSitemap (W : World) : Outcome * World :=
  match disk W (SITEMAP_PATH W) with
  | None => (Returns, W)
  | Some Directory => (Throws, W)
  | Some (File sitemapContent) =>
      let urls := extractUrls sitemapContent in
      let validUrls := List.filter (retained W) urls in
      (Returns,
       writeFileSync W (SITEMAP_PATH W) (newSitemap sitemapContent validUrls))
  end.

End Sitemap.

(** ** Observations on runs of the spot-fetching script *)

Module IngestObs.
Import Ingest.

Definition isWrite (e : Event) : bool :=
  match e with EvWriteSpot _ _ => true | _ => false end.

Definition isSave (e : Event) : bool :=
  match e with EvSaveLedger _ => true | _ => false end.

Definition isFetch (e : Event) : bool :=
  match e with EvFetchPlaces _ => true | _ => false end.

(** A request for an alternative query. *)
Definition isSuggest (e : Event) : bool :=
  match e with EvGroq (AskNewQuery _) => true | _ => false end.

(** A request made while enriching a candidate. *)
Definition isEnrich (e : Event) : bool :=
  match e with
  | EvGroq (AskNewQuery _) => false
  | EvGroq _ => true
  | _ => false
  end.

(** What a batch may emit. *)
Definition isBatchEvent (e : Event) : bool := isEnrich e || isWrite e.

Definition count (p : Event -> bool) (evs : list Event) : nat :=
  length (List.filter p evs).

(** A call to the outside that emits [e]. *)
Definition called (e : Event) (s : State) : State :=
  {| calls := S (calls s); processedSpots := processedSpots s;
     processedUris := processedUris s; ledgerFile := ledgerFile s;
     trace := trace s ++ [e] |}.

(** The state after a candidate has been written and recorded. *)
Definition recorded (e : Entry) (fileName : jsstring) (f : SpotFile)
    (s : State) : State :=
  {| calls := S (calls s); processedSpots := processedSpots s ++ [e];
     processedUris := {[uri e]} ∪ processedUris s;
     ledgerFile := ledgerFile s;
     trace := trace s ++ [EvWriteSpot fileName f] |}.

(** From [s] to [s'] only enrichment requests were made. *)
Definition Enriched (s s' : State) : Prop :=
  processedSpots s' = processedSpots s /\
  processedUris s' = processedUris s /\
  ledgerFile s' = ledgerFile s /\
  (calls s <= calls s')%nat /\
  exists evs, trace s' = trace s ++ evs /\ forallb isEnrich evs = true.

(** From [s] to [s'] the entries [added] were appended to the ledger in
    memory and the events [evs] emitted, all of them of the kind [p]; the
    ledger file was left alone. *)
Definition Ran (p : Event -> bool) (s s' : State) (added : list Entry)
    (evs : list Event) : Prop :=
  processedSpots s' = processedSpots s ++ added /\
  processedUris s' = list_to_set (List.map uri added) ∪ processedUris s /\
  ledgerFile s' = ledgerFile s /\
  (calls s <= calls s')%nat /\
  trace s' = trace s ++ evs /\
  forallb p evs = true /\
  count isWrite evs = length added /\
  NoDup (List.map uri added) /\
  Forall (fun e => uri e ∉ processedUris s) added.

(** What the loop of [main] may emit. *)
Definition isLoopEvent (e : Event) : bool :=
  isBatchEvent e || isFetch e || isSuggest e.

(** What [suggestNewQuery] makes of a completion. *)
Definition suggestion (c : Completion) : option jsstring :=
  match c with
  | Rejected => None
  | _ => Some (oneLine (orString (trimmedContent c) []))
  end.

(** The totals of [main] after a batch. *)
Definition tally (v : LoopVars) (r : BatchResult) : LoopVars :=
  {| query := query v; retryCount := retryCount v;
     totalNew := totalNew v + newCount r;
     totalSkipped := totalSkipped v + skippedCount r |}.

(** The variables of [main] when it retries with the query [q]. *)
Definition retried (v : LoopVars) (q : jsstring) : LoopVars :=
  {| query := q; retryCount := S (retryCount v);
     totalNew := totalNew v; totalSkipped := totalSkipped v |}.

(** What [main] does with a suggestion. *)
Definition decide_step (v : LoopVars) (newQuery : option jsstring) : Step :=
  match newQuery with
  | Some (c :: t) =>
      if negb (eqString (c :: t) (query v)) then Continue (retried v (c :: t))
      else Break v
  | _ => Break v
  end.

(** The counters after a skipped candidate and after a new one. *)
Definition skip (place : Place) (acc : BatchResult) : BatchResult :=
  {| newCount := newCount acc; skippedCount := S (skippedCount acc);
     skippedNames :=
       skippedNames acc ++ [orString (displayName place) (lit "Unknown")] |}.

Definition keep (acc : BatchResult) : BatchResult :=
  {| newCount := S (newCount acc); skippedCount := skippedCount acc;
     skippedNames := skippedNames acc |}.

(** The variables of [main] before its loop. *)
Definition firstVars (argv2 : option jsstring) : LoopVars :=
  {| query := orString argv2 defaultQuery;
     retryCount := 0; totalNew := 0; totalSkipped := 0 |}.

(** The state in which [main] enters its loop. *)
Definition loaded (s : State) : State :=
  {| calls := calls s;
     processedSpots := loadProcessedSpots (ledgerFile s);
     processedUris :=
       list_to_set (List.map uri (loadProcessedSpots (ledgerFile s)));
     ledgerFile := ledgerFile s; trace := trace s |}.

(** The state in which [main] ends: the ledger saved, the totals
    reported. *)
Definition finished (v : LoopVars) (s : State) : State :=
  {| calls := calls s; processedSpots := processedSpots s;
     processedUris := processedUris s;
     ledgerFile := Stored (processedSpots s);
     trace := trace s ++ [EvSaveLedger (processedSpots s);
                          EvReport (totalNew v) (totalSkipped v)
                            (length (processedSpots s)) (retryCount v)] |}.

(** The world never makes the script throw while it enriches. *)
Definition Enrichable (W : World) : Prop :=
  (forall n r, groq W n r <> Rejected) /\
  (forall t, jsonParse W t <> ParsedNull).

(** The ledger in memory agrees with its set of keys, which has no
    duplicates. *)
Definition Consistent (s : State) : Prop :=
  NoDup (List.map uri (processedSpots s)) /\
  processedUris s = list_to_set (List.map uri (processedSpots s)).

(** The claim that the ledger is saved after each batch, on a trace: no
    discovery call is made, and the run does not end, while a batch is not
    saved. *)
Fixpoint savedEachBatch (pending : bool) (evs : list Event) : bool :=
  match evs with
  | [] => negb pending
  | EvFetchPlaces _ :: r => negb pending && savedEachBatch true r
  | EvSaveLedger _ :: r => savedEachBatch false r
  | _ :: r => savedEachBatch pending r
  end.

End IngestObs.

(** ** Observations on content files and on runs of the review refiner *)

Module RefineObs.
Import Refine.

(** The author field of a header: the quoted text of the leftmost match of
    the expression with which [buildMdx] looks for it. *)
Definition authorField (header : jsstring) : option jsstring :=
  match findField (lit "author:") false header with
  | Some (_, _, v, _) => Some v
  | None => None
  end.

(** An author that [buildMdx] writes as it is: not empty, and without a
    dollar, a double quote or a line feed. *)
Definition plainAuthor (author : jsstring) : bool :=
  match author with
  | [] => false
  | _ =>
      forallb (fun c => negb (c =? DOLLAR) && negb (c =? QUOTE)
                        && negb (c =? LF)) author
  end.

(** A header in which [buildMdx] finds where to put the author: it has a
    quoted author field, or it does not contain the text of the key of one
    and has a quoted title field. *)
Definition hasAuthorSlot (header : jsstring) : bool :=
  match findField (lit "author:") false header with
  | Some _ => true
  | None =>
      negb (includes (lit "author:") header)
      && match findField (lit "title:") false header with
         | Some _ => true
         | None => false
         end
  end.

(** What [matchField] asks of the text that follows the key. *)
Definition afterKey (r : jsstring) : bool :=
  let (ws, r1) := spanWhile isSpace r in
  match r1 with
  | c :: r2 =>
      if c =? QUOTE then
        let (value, r3) := spanWhile notQuote r2 in
        match r3 with _ :: _ => true | [] => false end
      else false
  | [] => false
  end.

(** No delimiter starts inside [s] when a delimiter follows it. *)
Definition Clear (s : jsstring) : Prop :=
  forall s1 s2 r, s = s1 ++ s2 -> s2 <> [] ->
    stripPrefix delimiter (s2 ++ delimiter ++ r) = None.

Definition noDollar (c : N) : bool := negb (c =? DOLLAR).

Definition notLF (c : N) : bool := negb (c =? LF).

(** The ledger that a process would load. *)
Definition load (f : LedgerFile) : list Entry :=
  match f with
  | Stored spots => spots
  | Missing | Corrupt => []
  end.

(** Runs of the refiner one after the other; before each of them the spots
    directory is whatever it has become. *)
Fixpoint runs (rs : list (World * option jsstring * gmap jsstring jsstring))
    (f : LedgerFile) : LedgerFile :=
  match rs with
  | [] => f
  | (W, argv2, dir) :: rest =>
      runs rest (ledgerFile (snd (main W argv2 (boot f dir))))
  end.

End RefineObs.

Module IngestRuns.
Import Ingest.

(** Runs of the spot-fetching script one after the other. *)
Fixpoint runs (rs : list (World * option jsstring)) (f : LedgerFile)
  : LedgerFile :=
  match rs with
  | [] => f
  | (W, argv2) :: rest =>
      runs rest (ledgerFile (snd (main W argv2 (boot f))))
  end.

End IngestRuns.

(** ** Example runs *)

Module Examples.
Import Ingest IngestObs.

(** A candidate with a display name and an address on the map. *)
Definition place (n u : string) : Place :=
  {| displayName := Some (lit n); formattedAddress := None;
     googleMapsUri := Some (lit u); rating := None; priceLevel := None;
     reviews := None; latitude := None; longitude := None |}.

Definition entry (n u : string) : Entry :=
  {| uri := lit u; name := lit n; neighborhood := lit "Centro";
     slug := lit "centro-x"; processedAt := lit "2025-01-01T00:00:00.000Z" |}.

(** A ledger of two entries. *)
Definition ledger2 : list Entry :=
  [entry "Toma Cafe" "maps/1"; entry "Hola Coffee" "maps/2"].

(** The first discovery call finds the two known places and a new one, the
    later ones find nothing; the text generation suggests another query and
    is silent otherwise. *)
Definition world1 : World :=
  {| unicode := Slug.asciiOps;
     placesApi := fun n _ =>
       match n with
       | O => Some [place "Toma Cafe" "maps/1"; place "Hola Coffee" "maps/2";
                    place "Acid Cafe" "maps/3"]
       | _ => Some []
       end;
     groq := fun _ r =>
       match r with
       | AskNewQuery _ => Content (lit "quiet cafes in Retiro")
       | _ => NoContent
       end;
     jsonParse := fun _ => ParseError;
     clock := fun _ => lit "2025-06-01T10:00:00.000Z" |}.

(** Every discovery call finds nothing. *)
Definition world0 : World :=
  {| unicode := Slug.asciiOps;
     placesApi := fun _ _ => Some [];
     groq := fun _ _ => NoContent;
     jsonParse := fun _ => ParseError;
     clock := fun _ => lit "2025-06-01T10:00:00.000Z" |}.

(** The only discovery call finds the same new place twice. *)
Definition worldTwice : World :=
  {| unicode := Slug.asciiOps;
     placesApi := fun _ _ =>
       Some [place "Acid Cafe" "maps/3"; place "Acid Cafe" "maps/3"];
     groq := fun _ _ => NoContent;
     jsonParse := fun _ => ParseError;
     clock := fun _ => lit "2025-06-01T10:00:00.000Z" |}.

(** Sixteen known names, of which the last is also skipped in the round. *)
Definition known16 : list jsstring :=
  List.map lit
    [ "Cafe 01"; "Cafe 02"; "Cafe 03"; "Cafe 04"; "Cafe 05"; "Cafe 06";
      "Cafe 07"; "Cafe 08"; "Cafe 09"; "Cafe 10"; "Cafe 11"; "Cafe 12";
      "Cafe 13"; "Cafe 14"; "Cafe 15"; "Zeta" ]%string.

End Examples.

(** ** Further observations *)

Module MoreObs.
Import Ingest IngestObs.

(** The names of the files written, in order. *)
Fixpoint writtenFiles (evs : list Event) : list jsstring :=
  match evs with
  | [] => []
  | EvWriteSpot fileName _ :: r => fileName :: writtenFiles r
  | _ :: r => writtenFiles r
  end.

(** The file of an entry of the ledger. *)
Definition fileOf (e : Entry) : jsstring := slug e ++ lit ".mdx".

(** A review with a text. *)
Definition hasText (r : option jsstring) : bool :=
  match r with
  | Some (_ :: _) => true
  | _ => false
  end.

(** A slug or the empty string. *)
Definition slugOrEmpty (s : jsstring) : bool :=
  match s with
  | [] => true
  | _ => Slug.matchesSlugPattern s
  end.

(** The address on the map and the display name that [processPlaces] reads
    of a candidate. *)
Definition uriOf (place : Place) : jsstring := orString (googleMapsUri place) [].

Definition nameOf (place : Place) : jsstring :=
  orString (displayName place) (lit "Unknown").

(** The title that [generateMdx] gives to a candidate. *)
Definition titleOf (place : Place) (cleanName : jsstring) : jsstring :=
  match cleanName with
  | [] => orString (displayName place) (lit "Unknown Cafe")
  | _ => cleanName
  end.

(** The candidates of a batch that are new and those that are skipped,
    given the addresses known when the batch begins: a candidate is new
    when its address is neither known nor that of an earlier candidate of
    the batch. *)
Fixpoint partitionNew (known : gset jsstring) (places : list Place)
  : list Place * list Place :=
  match places with
  | [] => ([], [])
  | p :: r =>
      if bool_decide (uriOf p ∈ known) then
        let (n, k) := partitionNew known r in (n, p :: k)
      else
        let (n, k) := partitionNew ({[uriOf p]} ∪ known) r in (p :: n, k)
  end.

(** The slug of an entry: the slug of its neighbourhood, a hyphen, and a
    slug or nothing. *)
Definition wellSlugged (W : World) (e : Entry) : Prop :=
  exists b,
    slug e = Slug.slugify (unicode W) (neighborhood e) ++ [HYPHEN] ++ b /\
    slugOrEmpty b = true.

(** The reviews of a candidate that [synthesizeReview] looks at. *)
Definition firstReviews (rs : option (list (option jsstring)))
  : list (option jsstring) :=
  firstn 5 (match rs with Some l => l | None => [] end).

(** The discovery service always answers. *)
Definition Discoverable (W : World) : Prop :=
  forall n q, placesApi W n q <> None.

End MoreObs.

Module MoreRefineObs.
Import Refine RefineObs.

(** [AUTHORS] *)
Definition AUTHORS : list jsstring :=
  [lit "murad"; lit "isabella"; lit "mikelia"; lit "sara"; lit "robert"].

(** The kinds of events of a run. *)
Definition isSleep (e : Event) : bool :=
  match e with EvSleep _ => true | _ => false end.

Definition isGroq (e : Event) : bool :=
  match e with EvGroq _ _ _ => true | _ => false end.

Definition isWrite (e : Event) : bool :=
  match e with EvWriteSpot _ _ => true | _ => false end.

Definition isSave (e : Event) : bool :=
  match e with EvSaveLedger _ => true | _ => false end.

Definition count (p : Event -> bool) (evs : list Event) : nat :=
  length (List.filter p evs).

(** The names of the files written, in order. *)
Fixpoint writtenFiles (evs : list Event) : list jsstring :=
  match evs with
  | [] => []
  | EvWriteSpot fileName _ :: r => fileName :: writtenFiles r
  | _ :: r => writtenFiles r
  end.

(** Every pause lasts [RATE_LIMIT_MS]. *)
Definition pausesAtRate (evs : list Event) : Prop :=
  forall ms, EvSleep ms ∈ evs -> ms = RATE_LIMIT_MS.

(** The state after a call that leaves no trace, and after a request to the
    text generation. *)
Definition ticked (s : State) : State :=
  {| calls := S (calls s); ledgerFile := ledgerFile s; spotsDir := spotsDir s;
     trace := trace s |}.

Definition asked (spotName neighborhood currentReview : jsstring) (s : State)
  : State :=
  {| calls := S (calls s); ledgerFile := ledgerFile s; spotsDir := spotsDir s;
     trace := trace s ++ [EvGroq spotName neighborhood currentReview] |}.

(** The heading that [refineReview] puts before a text without one. *)
Definition vibe : jsstring := lit "## The Vibe" ++ [LF; LF].

(** What [refineReview] returns for a completion that is not rejected. *)
Definition refinedText (c : Completion) : jsstring :=
  let refined := match c with Content text => trim text | _ => [] end in
  if startsWith (lit "##") refined then refined else vibe ++ refined.

(** The name under which [main] looks for the file given on the command
    line. *)
Definition fileArg (arg : jsstring) : jsstring :=
  if endsWith (lit ".mdx") arg then arg else arg ++ lit ".mdx".

(** The spot name and the neighbourhood that [main] reads in a
    frontmatter. *)
Definition spotNameOf (frontmatter fileName : jsstring) : jsstring :=
  match findField (lit "title:") true frontmatter with
  | Some (_, _, v, _) => v
  | None => removeFirst (lit ".mdx") fileName
  end.

Definition neighborhoodOf (frontmatter : jsstring) : jsstring :=
  match findField (lit "neighborhood:") true frontmatter with
  | Some (_, _, v, _) => v
  | None => lit "Madrid"
  end.

(** A file that a batch is to refine: in the spots directory, with the
    extension of the content files, not the example, and not in the
    ledger. *)
Definition selectable (s : State) (f : jsstring) : Prop :=
  is_Some (spotsDir s !! f) /\ endsWith (lit ".mdx") f = true /\
  f <> lit "example-spot.mdx" /\
  f ∉ List.map filename (load (ledgerFile s)).

(** A content file with a title, and a directory that holds it. *)
Definition tomaFile : jsstring :=
  lit "---" ++ [LF] ++ lit "title: " ++ [QUOTE] ++ lit "Toma" ++ [QUOTE]
  ++ [LF] ++ lit "---" ++ [LF; LF] ++ lit "old" ++ [LF].

Definition tomaDir : gmap jsstring jsstring :=
  {[ lit "sol-toma.mdx" := tomaFile ]}.

(** The text generation answers with a review, the generator of random
    numbers with one half. *)
Definition reviewer : World :=
  {| groq := fun _ _ _ _ => Content (lit "## First Impressions");
     random := fun _ => 1 # 2;
     clock := fun _ => lit "2025-06-01T10:00:00.000Z" |}.

End MoreRefineObs.

Module SitemapObs.
Import Sitemap.

(** The code unit with which a tag begins. *)
Definition TAG : N := 60.

Definition notLineTerminator (c : N) : bool := negb (isLineTerminator c).

(** A text that the lazy group of [locRegex] captures when the closing tag
    follows it: no line terminator, and no closing tag that begins in
    it. *)
Definition Captured (url : jsstring) : Prop :=
  forallb notLineTerminator url = true /\
  forall u1 u2 r, url = u1 ++ u2 -> u2 <> [] ->
    stripPrefix (lit "</loc>") (u2 ++ lit "</loc>" ++ r) = None.

(** The text [p] does not begin in [h] when a tag follows [h]. *)
Definition NoTag (p h : jsstring) : Prop :=
  forall a b t, h = a ++ b -> b <> [] -> stripPrefix p (b ++ TAG :: t) = None.

(** A site of two pages, of which the first has an image, and its
    sitemap. *)
Definition siteMap : jsstring :=
  lit "<urlset>" ++ urlEntry (lit "https://casilocal.es/")
  ++ urlEntry (lit "https://casilocal.es/about/") ++ footer.

Definition site : World :=
  {| pathnameOf := fun url =>
       match stripPrefix (lit "https://casilocal.es") url with
       | Some p => Some p
       | None => None
       end;
     join := fun parts => JsString.join (lit "/") parts;
     DIST_DIR := lit "dist";
     SITEMAP_PATH := lit "dist/sitemap-0.xml";
     disk := fun p =>
       if bool_decide (p = lit "dist/sitemap-0.xml") then Some (File siteMap)
       else if bool_decide (p = lit "dist/index.html")
       then Some (File (lit "<h1>Casi</h1><img src=x>"))
       else if bool_decide (p = lit "dist/about/index.html")
       then Some (File (lit "<h1>About</h1>"))
       else None;
     SKIP_HTML_EXT_CHECK := None |}.

End SitemapObs.
(** * Properties *)

(** ** Slugs *)

Module SlugFacts.
Import Slug.

(** Case analysis on the comparisons of code units that occur in the goal
    and in the hypotheses. *)
Ltac units :=
  unfold isSlugUnit, isAlnum, isDiacritic, HYPHEN in *;
  repeat match goal with
    | H : context [N.leb ?a ?b] |- _ => destruct (N.leb_spec a b)
    | |- context [N.leb ?a ?b] => destruct (N.leb_spec a b)
    | H : context [N.eqb ?a ?b] |- _ => destruct (N.eqb_spec a b)
    | |- context [N.eqb ?a ?b] => destruct (N.eqb_spec a b)
    end;
  simpl in *; try congruence; try lia.

Lemma list_ind2 {A} (P : list A -> Prop) :
  P [] -> (forall a, P [a]) ->
  (forall a b l, P l -> P (b :: l) -> P (a :: b :: l)) ->
  forall l, P l.
Proof.
  intros H0 H1 H2 l.
  assert (P l /\ forall a, P (a :: l)) as [? _]; [|assumption].
  induction l as [|b l [IH1 IH2]]; split; auto.
Qed.

Lemma alnum_not_hyphen c : isAlnum c = true -> (c =? HYPHEN) = false.
Proof. intros H. units. Qed.

Lemma unit_not_alnum c :
  isSlugUnit c = true -> isAlnum c = false -> (c =? HYPHEN) = true.
Proof. unfold isSlugUnit. intros H E. rewrite E in H. exact H. Qed.

Lemma alnum_unit c : isAlnum c = true -> isSlugUnit c = true.
Proof. unfold isSlugUnit. intros ->. reflexivity. Qed.

Lemma unit_not_diacritic c : isSlugUnit c = true -> isDiacritic c = false.
Proof. intros H. units. Qed.

Lemma collapsed_inv a r :
  collapsed (a :: r) = true ->
  isSlugUnit a = true /\ collapsed r = true /\
  match r with
  | d :: _ => (a =? HYPHEN) = true -> isAlnum d = true
  | [] => True
  end.
Proof.
  simpl. intros H. apply andb_true_iff in H as [H Hr].
  apply andb_true_iff in H as [Ha Hd]. split; [exact Ha|]. split; [exact Hr|].
  destruct r as [|d r]; [exact I|]. intros E. rewrite E in Hd. simpl in Hd.
  simpl in Hr. apply andb_true_iff in Hr as [Hr _].
  apply andb_true_iff in Hr as [Hu _].
  destruct (isAlnum d) eqn:Ed; [reflexivity|].
  rewrite (unit_not_alnum d Hu Ed) in Hd. discriminate.
Qed.

Lemma collapseFrom_collapsed b s :
  collapsed (collapseFrom b s) = true /\
  (b = true -> match collapseFrom b s with
               | d :: _ => (d =? HYPHEN) = false
               | [] => True
               end).
Proof.
  revert b. induction s as [|c r IH]; intros b; simpl; [auto|].
  destruct (isAlnum c) eqn:Hc.
  - destruct (IH false) as [IH1 _]. split.
    + simpl. rewrite IH1, (alnum_unit c Hc), (alnum_not_hyphen c Hc).
      destruct (collapseFrom false r); reflexivity.
    + intros _. apply alnum_not_hyphen, Hc.
  - destruct (IH true) as [IH1 IH2]. destruct b; [auto|].
    split; [|discriminate].
    simpl. rewrite IH1. specialize (IH2 eq_refl).
    destruct (collapseFrom true r); [reflexivity|]. rewrite IH2. reflexivity.
Qed.

Lemma collapsed_tail c r : collapsed (c :: r) = true -> collapsed r = true.
Proof. intros H. apply collapsed_inv in H. tauto. Qed.

Lemma slugTail_dropFinalHyphen s :
  collapsed s = true -> slugTail (dropFinalHyphen s) = true.
Proof.
  induction s as [|a|a b l IH1 IH2] using list_ind2; intros H.
  - reflexivity.
  - simpl. destruct (a =? HYPHEN) eqn:E; [reflexivity|].
    simpl. rewrite E. apply collapsed_inv in H as (Ha & _ & _).
    destruct (isAlnum a) eqn:Ea; [reflexivity|].
    rewrite (unit_not_alnum a Ha Ea) in E. discriminate.
  - apply collapsed_inv in H as (Ha & Hb & Hab).
    pose proof (collapsed_tail _ _ Hb) as Hl.
    specialize (IH1 Hl). specialize (IH2 Hb).
    change (dropFinalHyphen (a :: b :: l)) with (a :: dropFinalHyphen (b :: l)).
    destruct (isAlnum a) eqn:Ea.
    { simpl. rewrite Ea. exact IH2. }
    pose proof (unit_not_alnum a Ha Ea) as Eh. specialize (Hab Eh).
    destruct l as [|c l].
    + simpl. rewrite (alnum_not_hyphen b Hab). simpl. rewrite Ea, Eh, Hab.
      reflexivity.
    + change (dropFinalHyphen (b :: c :: l))
        with (b :: dropFinalHyphen (c :: l)) in *.
      change (slugTail (a :: b :: dropFinalHyphen (c :: l)))
        with (if isAlnum a then slugTail (b :: dropFinalHyphen (c :: l))
              else if a =? HYPHEN
                   then isAlnum b && slugTail (dropFinalHyphen (c :: l))
                   else false).
      rewrite Ea, Eh, Hab, IH1. reflexivity.
Qed.

Lemma slug_shape s :
  collapsed s = true ->
  trimHyphens s = [] \/ matchesSlugPattern (trimHyphens s) = true.
Proof.
  intros H. unfold trimHyphens.
  assert (exists u, dropInitialHyphen s = u /\ collapsed u = true /\
            match u with c :: _ => isAlnum c = true | [] => True end)
    as (u & -> & Hu & Hhd).
  { destruct s as [|c r]; simpl; [eauto|].
    apply collapsed_inv in H as H'. destruct H' as (Hc & Hr & Hcr).
    destruct (c =? HYPHEN) eqn:E.
    - exists r. split; [reflexivity|]. split; [exact Hr|].
      destruct r as [|d r]; [exact I|]. apply Hcr. reflexivity.
    - exists (c :: r). split; [reflexivity|]. split; [exact H|].
      destruct (isAlnum c) eqn:Ec; [reflexivity|].
      rewrite (unit_not_alnum c Hc Ec) in E. discriminate. }
  destruct u as [|c r]; [left; reflexivity|right].
  destruct r as [|d r].
  - simpl. rewrite (alnum_not_hyphen c Hhd).
    simpl. rewrite Hhd. reflexivity.
  - change (dropFinalHyphen (c :: d :: r)) with (c :: dropFinalHyphen (d :: r)).
    unfold matchesSlugPattern. rewrite Hhd. cbn [andb].
    apply (slugTail_dropFinalHyphen (d :: r)). eapply collapsed_tail, Hu.
Qed.

Lemma hyphen_unit c : (c =? HYPHEN) = true -> isSlugUnit c = true.
Proof. unfold isSlugUnit. intros ->. apply orb_true_r. Qed.

Lemma slugTail_step a b l :
  slugTail (a :: b :: l) =
  if isAlnum a then slugTail (b :: l)
  else if a =? HYPHEN then isAlnum b && slugTail l else false.
Proof. reflexivity. Qed.

Lemma slugTail_units s : slugTail s = true -> forallb isSlugUnit s = true.
Proof.
  induction s as [|a|a b l IH1 IH2] using list_ind2; intros H.
  - reflexivity.
  - simpl in *. destruct (isAlnum a) eqn:E; [rewrite (alnum_unit a E); auto|].
    destruct (a =? HYPHEN); discriminate.
  - rewrite slugTail_step in H.
    change (forallb isSlugUnit (a :: b :: l))
      with (isSlugUnit a && (isSlugUnit b && forallb isSlugUnit l)).
    destruct (isAlnum a) eqn:Ea.
    + specialize (IH2 H). simpl in IH2. rewrite IH2, (alnum_unit a Ea).
      reflexivity.
    + destruct (a =? HYPHEN) eqn:Eh; [|discriminate].
      apply andb_true_iff in H as [Hb Hl].
      rewrite (IH1 Hl), (alnum_unit b Hb), (hyphen_unit a Eh). reflexivity.
Qed.

Lemma slugTail_collapse s : slugTail s = true -> collapseFrom false s = s.
Proof.
  induction s as [|a|a b l IH1 IH2] using list_ind2; intros H.
  - reflexivity.
  - simpl in *. destruct (isAlnum a); [reflexivity|].
    destruct (a =? HYPHEN); discriminate.
  - rewrite slugTail_step in H.
    simpl. destruct (isAlnum a) eqn:Ea.
    + f_equal. specialize (IH2 H). simpl in IH2. exact IH2.
    + destruct (a =? HYPHEN) eqn:Eh; [|discriminate].
      apply andb_true_iff in H as [Hb Hl]. rewrite Hb, (IH1 Hl).
      apply N.eqb_eq in Eh. subst a. reflexivity.
Qed.

Lemma slugTail_dropFinal s : slugTail s = true -> dropFinalHyphen s = s.
Proof.
  induction s as [|a|a b l IH1 IH2] using list_ind2; intros H.
  - reflexivity.
  - simpl in *. destruct (isAlnum a) eqn:E.
    + rewrite (alnum_not_hyphen a E). reflexivity.
    + destruct (a =? HYPHEN); discriminate.
  - rewrite slugTail_step in H.
    change (dropFinalHyphen (a :: b :: l)) with (a :: dropFinalHyphen (b :: l)).
    f_equal. destruct (isAlnum a) eqn:Ea; [auto|].
    destruct (a =? HYPHEN) eqn:Eh; [|discriminate].
    apply andb_true_iff in H as [Hb Hl]. apply IH2. simpl. rewrite Hb. exact Hl.
Qed.

Lemma units_no_diacritics s :
  forallb isSlugUnit s = true -> removeDiacritics s = s.
Proof.
  induction s as [|c r IH]; simpl; [reflexivity|]. intros H.
  apply andb_true_iff in H as [Hc Hr]. rewrite (IH Hr).
  rewrite (unit_not_diacritic c Hc). reflexivity.
Qed.

Lemma slugify_fixes_slugs U s :
  FixesSlugUnits (toLowerCase U) -> FixesSlugUnits (normalizeNFD U) ->
  s = [] \/ matchesSlugPattern s = true -> slugify U s = s.
Proof.
  intros HL HN Hs. unfold slugify.
  assert (forallb isSlugUnit s = true /\ slugTail s = true /\
          dropInitialHyphen s = s) as (Hu & Ht & Hi).
  { destruct Hs as [->|Hs]; [auto|]. destruct s as [|c r]; [discriminate|].
    simpl in Hs. apply andb_true_iff in Hs as [Hc Hr].
    split; [|split].
    - simpl. rewrite (slugTail_units _ Hr), (alnum_unit c Hc). reflexivity.
    - simpl. rewrite Hc. exact Hr.
    - simpl. rewrite (alnum_not_hyphen c Hc). reflexivity. }
  rewrite (HL _ Hu), (HN _ Hu), (units_no_diacritics _ Hu).
  unfold collapseNonAlnum, trimHyphens.
  rewrite (slugTail_collapse _ Ht), Hi. apply slugTail_dropFinal, Ht.
Qed.

Lemma asciiLower_unit c : isSlugUnit c = true -> asciiLower c = c.
Proof. intros H. unfold asciiLower. units. Qed.

Lemma asciiOps_fixes :
  FixesSlugUnits (toLowerCase asciiOps) /\ FixesSlugUnits (normalizeNFD asciiOps).
Proof.
  split; [|intros s _; reflexivity].
  intros s. simpl. induction s as [|c r IH]; simpl; [reflexivity|].
  intros H. apply andb_true_iff in H as [Hc Hr].
  rewrite (IH Hr), (asciiLower_unit c Hc). reflexivity.
Qed.

End SlugFacts.

(** C7. For every input string, [slugify] applied to a slug returns it, and
    a slug is empty or matches the pattern of lower-case alphanumeric groups
    separated by single hyphens, with no hyphen at either end.  The runtime's
    lower-casing and canonical decomposition are any functions that leave
    strings of slug units unchanged. *)
Theorem slugify_idempotent_and_shaped (U : UnicodeOps) (x : jsstring) :
  Slug.FixesSlugUnits (toLowerCase U) ->
  Slug.FixesSlugUnits (normalizeNFD U) ->
  Slug.slugify U (Slug.slugify U x) = Slug.slugify U x /\
  (Slug.slugify U x = [] \/ Slug.matchesSlugPattern (Slug.slugify U x) = true).
Proof.
  intros HL HN.
  assert (Slug.slugify U x = [] \/
          Slug.matchesSlugPattern (Slug.slugify U x) = true) as Hshape.
  { unfold Slug.slugify. apply SlugFacts.slug_shape.
    apply (SlugFacts.collapseFrom_collapsed false). }
  split; [|exact Hshape].
  apply SlugFacts.slugify_fixes_slugs; assumption.
Qed.

Lemma slugify_idempotent_and_shaped_witness :
  Slug.slugify Slug.asciiOps
    (Slug.slugify Slug.asciiOps (lit "  Hola -- Coffee & Co.  "))
  = Slug.slugify Slug.asciiOps (lit "  Hola -- Coffee & Co.  ") /\
  (Slug.slugify Slug.asciiOps (lit "  Hola -- Coffee & Co.  ") = [] \/
   Slug.matchesSlugPattern
     (Slug.slugify Slug.asciiOps (lit "  Hola -- Coffee & Co.  ")) = true).
Proof.
  apply slugify_idempotent_and_shaped; apply SlugFacts.asciiOps_fixes.
Defined.

(** ** The spot-fetching script *)

Module IngestFacts.
Import Ingest IngestObs.

Lemma Enriched_refl s : Enriched s s.
Proof.
  repeat split; auto. exists []. rewrite app_nil_r. auto.
Qed.

Lemma Enriched_trans s1 s2 s3 : Enriched s1 s2 -> Enriched s2 s3 -> Enriched s1 s3.
Proof.
  intros (A1 & A2 & A3 & A4 & e1 & A5 & A6) (B1 & B2 & B3 & B4 & e2 & B5 & B6).
  repeat split; try congruence; try lia.
  exists (e1 ++ e2). rewrite B5, A5, app_assoc, forallb_app, A6, B6. auto.
Qed.

Lemma Enriched_called r s :
  isEnrich (EvGroq r) = true -> Enriched s (called (EvGroq r) s).
Proof.
  intros H. repeat split; simpl; auto. exists [EvGroq r]. simpl in *.
  rewrite H. auto.
Qed.

Lemma callGroq_run W r s :
  callGroq W r s = (Returns (groq W (calls s) r), called (EvGroq r) s).
Proof. reflexivity. Qed.

Lemma inferNeighborhood_run W n a s :
  exists v, inferNeighborhoodWithGroq W n a s
            = (Returns v, called (EvGroq (AskNeighborhood n a)) s).
Proof.
  unfold inferNeighborhoodWithGroq, bind. rewrite callGroq_run.
  destruct (groq W (calls s) _); eexists; reflexivity.
Qed.

Lemma cleanCafeName_run W n s :
  exists v, cleanCafeNameWithGroq W n s
            = (Returns v, called (EvGroq (AskCleanName n)) s).
Proof.
  unfold cleanCafeNameWithGroq, bind. rewrite callGroq_run.
  destruct (groq W (calls s) _); eexists; reflexivity.
Qed.

Lemma synthesizeReview_run W n rs rating s :
  exists o s', synthesizeReview W n rs rating s = (o, s') /\ Enriched s s' /\
    o <> OutOfFuel /\ (Enrichable W -> exists syn, o = Returns (Some syn)).
Proof.
  unfold synthesizeReview.
  destruct (reviewsText rs) as [[|c t]|].
  1, 3: do 2 eexists; split; [reflexivity|]; split; [apply Enriched_refl|];
        split; [discriminate|]; eauto.
  unfold bind. rewrite callGroq_run.
  set (r := AskSynthesis n (c :: t) rating).
  assert (Enriched s (called (EvGroq r) s)) as HE by (apply Enriched_called; reflexivity).
  destruct (groq W (calls s) r) eqn:G.
  - do 2 eexists; split; [reflexivity|]. split; [exact HE|]. split; [discriminate|].
    intros [HG _]. destruct (HG _ _ G).
  - destruct (jsonParse W _) eqn:P;
      (do 2 eexists; split; [reflexivity|]; split; [exact HE|]; split;
       [discriminate|]); eauto.
    intros [_ HP]. destruct (HP _ P).
  - destruct (jsonParse W _) eqn:P;
      (do 2 eexists; split; [reflexivity|]; split; [exact HE|]; split;
       [discriminate|]); eauto.
    intros [_ HP]. destruct (HP _ P).
Qed.

Lemma generateMdx_run W place syn n c s :
  match syn with
  | Some _ => exists f, generateMdx W place syn n c s = (Returns f, s)
  | None => generateMdx W place syn n c s = (Throws, s)
  end.
Proof. destruct syn; [eexists|]; reflexivity. Qed.

(** One candidate: skipped with the state untouched, or enriched and then
    either thrown away by an exception or written and recorded. *)
Lemma processPlace_run W place acc s :
  let u := orString (googleMapsUri place) [] in
  exists o s', processPlace W place acc s = (o, s') /\
    ((u ∈ processedUris s /\ o = Returns (skip place acc) /\ s' = s)
     \/
     ((u ∉ processedUris s) /\
      exists s1, Enriched s s1 /\
        ((o = Throws /\ s' = s1 /\ ~ Enrichable W) \/
         exists e fn f, uri e = u /\ o = Returns (keep acc) /\
                        s' = recorded e fn f s1))).
Proof.
  intros u. unfold processPlace, bind at 1, hasUri. fold u.
  case_bool_decide as Hu.
  { do 2 eexists. split; [reflexivity|]. left. auto. }
  unfold bind at 1.
  destruct (inferNeighborhood_run W (orString (displayName place) (lit "Unknown"))
              (orString (formattedAddress place) []) s) as [nb ->].
  set (s1 := called _ s).
  assert (Enriched s s1) as H1 by (apply Enriched_called; reflexivity).
  unfold bind at 1.
  destruct (cleanCafeName_run W (orString (displayName place) (lit "Unknown")) s1)
    as [cn ->].
  set (s2 := called _ s1).
  assert (Enriched s s2) as H2.
  { eapply Enriched_trans; [exact H1|]. apply Enriched_called; reflexivity. }
  unfold bind at 1.
  destruct (synthesizeReview_run W cn (reviews place) (rating place) s2)
    as (o & s3 & -> & H3 & Ho & Hen).
  assert (Enriched s s3) as H3' by (eapply Enriched_trans; eauto).
  destruct o as [[syn|]| |].
  - unfold bind at 1.
    destruct (generateMdx_run W place (Some syn) nb cn s3) as [[sl f] ->].
    do 2 eexists. split; [reflexivity|]. right. split; [exact Hu|].
    exists s3. split; [exact H3'|]. right.
    eexists _, _, _. split; [|split; reflexivity]. reflexivity.
  - unfold bind at 1. rewrite (generateMdx_run W place None nb cn s3).
    do 2 eexists. split; [reflexivity|]. right. split; [exact Hu|].
    exists s3. split; [exact H3'|]. left. split; [reflexivity|].
    split; [reflexivity|]. intros HW. destruct (Hen HW) as [? ?]. congruence.
  - do 2 eexists. split; [reflexivity|]. right. split; [exact Hu|].
    exists s3. split; [exact H3'|]. left. split; [reflexivity|].
    split; [reflexivity|]. intros HW. destruct (Hen HW) as [? ?]. congruence.
  - congruence.
Qed.

(** *** Summaries of runs *)

Lemma count_app p a b : count p (a ++ b) = (count p a + count p b)%nat.
Proof. unfold count. rewrite List.filter_app, length_app. reflexivity. Qed.

Lemma forallb_weaken (p q : Event -> bool) evs :
  (forall e, p e = true -> q e = true) ->
  forallb p evs = true -> forallb q evs = true.
Proof.
  intros Hpq. induction evs as [|e r IH]; simpl; [auto|].
  intros H. apply andb_true_iff in H as [He Hr]. rewrite (Hpq _ He), (IH Hr).
  reflexivity.
Qed.

Lemma count_none p q evs :
  (forall e, p e = true -> q e = false) ->
  forallb p evs = true -> count q evs = 0%nat.
Proof.
  intros Hpq. unfold count. induction evs as [|e r IH]; simpl; [auto|].
  intros H. apply andb_true_iff in H as [He Hr]. rewrite (Hpq _ He). auto.
Qed.

Lemma Ran_refl p s : Ran p s s [] [].
Proof.
  unfold Ran, count. simpl. rewrite !app_nil_r.
  split; [reflexivity|]. split; [symmetry; apply (left_id_L ∅ (∪))|].
  repeat split; auto; constructor.
Qed.

Lemma Ran_weaken (p q : Event -> bool) s s' added evs :
  (forall e, p e = true -> q e = true) ->
  Ran p s s' added evs -> Ran q s s' added evs.
Proof.
  intros Hpq (A1 & A2 & A3 & A4 & A5 & A6 & A7 & A8 & A9).
  repeat split; auto. eapply forallb_weaken; eauto.
Qed.

Lemma Ran_trans p s1 s2 s3 a1 a2 e1 e2 :
  Ran p s1 s2 a1 e1 -> Ran p s2 s3 a2 e2 -> Ran p s1 s3 (a1 ++ a2) (e1 ++ e2).
Proof.
  intros (A1 & A2 & A3 & A4 & A5 & A6 & A7 & A8 & A9)
         (B1 & B2 & B3 & B4 & B5 & B6 & B7 & B8 & B9).
  assert (forall e, e ∈ a2 -> uri e ∉ processedUris s1 /\ uri e ∉ List.map uri a1)
    as Hfresh.
  { intros e He. rewrite Forall_forall in B9. specialize (B9 e He).
    rewrite A2 in B9. split.
    - intros Hin. apply B9. apply elem_of_union_r, Hin.
    - intros Hin. apply B9. apply elem_of_union_l, elem_of_list_to_set, Hin. }
  split; [rewrite B1, A1, app_assoc; reflexivity|].
  split.
  { rewrite B2, A2, List.map_app, list_to_set_app_L.
    rewrite (comm_L (∪) (list_to_set (List.map uri a1))
               (list_to_set (List.map uri a2))).
    apply (assoc_L (∪)). }
  split; [congruence|]. split; [lia|].
  split; [rewrite B5, A5, app_assoc; reflexivity|].
  split; [rewrite forallb_app, A6, B6; reflexivity|].
  split; [rewrite count_app, A7, B7, length_app; reflexivity|].
  split.
  - rewrite List.map_app. apply NoDup_app. split; [exact A8|]. split; [|exact B8].
    intros x Hx Hx2. apply list_elem_of_fmap in Hx2 as (e & -> & He).
    destruct (Hfresh e He) as [_ Hn]. apply Hn, Hx.
  - apply Forall_app. split; [exact A9|].
    apply Forall_forall. intros e He. apply (Hfresh e He).
Qed.

Lemma Ran_called (p : Event -> bool) e s :
  p e = true -> isWrite e = false -> Ran p s (called e s) [] [e].
Proof.
  intros He Hw. unfold Ran, count. simpl. rewrite He, Hw, app_nil_r. simpl.
  split; [reflexivity|]. split; [symmetry; apply (left_id_L ∅ (∪))|].
  repeat split; auto; constructor.
Qed.

Lemma Ran_enriched s s' :
  Enriched s s' -> exists evs, Ran isBatchEvent s s' [] evs.
Proof.
  intros (A1 & A2 & A3 & A4 & evs & A5 & A6). exists evs.
  unfold Ran. simpl. rewrite app_nil_r.
  split; [assumption|].
  split; [rewrite A2; symmetry; apply (left_id_L ∅ (∪))|].
  repeat split; auto; [| |constructor].
  - eapply forallb_weaken; [|exact A6]. intros e He. unfold isBatchEvent.
    rewrite He. reflexivity.
  - eapply count_none; [|exact A6]. intros [] H; try discriminate; reflexivity.
Qed.

Lemma Ran_recorded e fn f s :
  uri e ∉ processedUris s ->
  Ran isBatchEvent s (recorded e fn f s) [e] [EvWriteSpot fn f].
Proof.
  intros Hu. unfold Ran, count. simpl.
  split; [reflexivity|].
  split; [rewrite (right_id_L ∅ (∪)); reflexivity|].
  repeat split; auto; try lia.
  all: try apply NoDup_singleton.
  all: try (repeat constructor; exact Hu).
Qed.

(** A batch: every candidate is counted once, as new or as skipped, and only
    candidates whose address is not yet known are written and recorded. *)
Lemma processFrom_run W places acc s :
  exists o s' added evs,
    processFrom W places acc s = (o, s') /\ Ran isBatchEvent s s' added evs /\
    match o with
    | Returns r =>
        newCount r = (newCount acc + length added)%nat /\
        (newCount r + skippedCount r
         = newCount acc + skippedCount acc + length places)%nat
    | Throws => ~ Enrichable W
    | OutOfFuel => False
    end.
Proof.
  revert acc s. induction places as [|place rest IH]; intros acc s.
  - exists (Returns acc), s, [], []. simpl.
    split; [reflexivity|]. split; [apply Ran_refl|]. lia.
  - simpl. unfold bind at 1.
    destruct (processPlace_run W place acc s) as (o & s1 & -> & Hcase).
    destruct Hcase as [(Hu & -> & ->)|(Hu & s0 & HE & Hcase)].
    + destruct (IH (skip place acc) s) as (o & s' & added & evs & -> & HR & Ho).
      exists o, s', added, evs. split; [reflexivity|]. split; [exact HR|].
      destruct o; auto. simpl in Ho. lia.
    + destruct (Ran_enriched _ _ HE) as [evs0 HR0].
      assert (uri_fresh : processedUris s0 = processedUris s) by apply HE.
      destruct Hcase as [(-> & -> & HW)|(e & fn & f & He & -> & ->)].
      * exists Throws, s0, [], evs0. auto.
      * destruct (IH (keep acc) (recorded e fn f s0))
          as (o & s' & added & evs & -> & HR & Ho).
        assert (Ran isBatchEvent s0 (recorded e fn f s0) [e] [EvWriteSpot fn f])
          as HR1.
        { apply Ran_recorded. rewrite He, uri_fresh. exact Hu. }
        pose proof (Ran_trans _ _ _ _ _ _ _ _ HR0 (Ran_trans _ _ _ _ _ _ _ _ HR1 HR))
          as HR2.
        exists o, s', ([] ++ [e] ++ added), (evs0 ++ [EvWriteSpot fn f] ++ evs).
        split; [reflexivity|]. split; [exact HR2|].
        destruct o; auto. simpl in *. lia.
Qed.

Lemma fetchPlaces_run W q s :
  fetchPlaces W q s =
  match placesApi W (calls s) q with
  | Some places => (Returns places, called (EvFetchPlaces q) s)
  | None => (Throws, called (EvFetchPlaces q) s)
  end.
Proof.
  unfold fetchPlaces, bind, nextCall, emit. simpl.
  destruct (placesApi W (calls s) q); reflexivity.
Qed.

Lemma suggestNewQuery_run W q names s :
  suggestNewQuery W q names s =
  (Returns (suggestion (groq W (calls s) (AskNewQuery (suggestPrompt q names)))),
   called (EvGroq (AskNewQuery (suggestPrompt q names))) s).
Proof.
  unfold suggestNewQuery, bind. rewrite callGroq_run.
  destruct (groq W (calls s) _); reflexivity.
Qed.

(** An iteration of the loop of [main], step by step. *)
Lemma iteration_run W names v s :
  iteration W names v s =
  match placesApi W (calls s) (query v) with
  | None => (Throws, called (EvFetchPlaces (query v)) s)
  | Some places =>
      match processPlaces W places (called (EvFetchPlaces (query v)) s) with
      | (Returns r, s1) =>
          if shouldRetry r (length places) (retryCount v) then
            let ask := AskNewQuery (suggestPrompt (query v)
                                      (names ++ skippedNames r)) in
            (Returns (decide_step (tally v r) (suggestion (groq W (calls s1) ask))),
             called (EvGroq ask) s1)
          else (Returns (Break (tally v r)), s1)
      | (Throws, s1) => (Throws, s1)
      | (OutOfFuel, s1) => (OutOfFuel, s1)
      end
  end.
Proof.
  unfold iteration, bind at 1. rewrite fetchPlaces_run.
  destruct (placesApi W (calls s) (query v)) as [places|]; [|reflexivity].
  unfold bind at 1.
  destruct (processPlaces W places _) as [[r| |] s1]; try reflexivity.
  destruct (shouldRetry r (length places) (retryCount v)); [|reflexivity].
  unfold bind. rewrite suggestNewQuery_run. cbv zeta.
  destruct (suggestion _) as [[|c t]|]; try reflexivity.
  unfold decide_step, tally, retried. simpl.
  destruct (negb _); reflexivity.
Qed.

Lemma processPlaces_run W places s :
  exists o s' added evs,
    processPlaces W places s = (o, s') /\ Ran isBatchEvent s s' added evs /\
    match o with
    | Returns r =>
        newCount r = length added /\
        (newCount r + skippedCount r = length places)%nat
    | Throws => ~ Enrichable W
    | OutOfFuel => False
    end.
Proof.
  unfold processPlaces.
  destruct (processFrom_run W places
              {| newCount := 0; skippedCount := 0; skippedNames := [] |} s)
    as (o & s' & added & evs & E & HR & Ho).
  exists o, s', added, evs. split; [exact E|]. split; [exact HR|].
  destruct o; auto.
Qed.

Lemma batch_is_loop e : isBatchEvent e = true -> isLoopEvent e = true.
Proof. unfold isLoopEvent. intros ->. reflexivity. Qed.

(** An iteration appends entries and emits events of the loop; it does not
    touch the ledger file. *)
Lemma iteration_ran W names v s :
  exists o s' added evs,
    iteration W names v s = (o, s') /\ Ran isLoopEvent s s' added evs /\
    match o with
    | Returns (Continue v') => retryCount v' = S (retryCount v)
    | Returns (Break _) => True
    | Throws => True
    | OutOfFuel => False
    end.
Proof.
  rewrite iteration_run.
  set (s0 := called (EvFetchPlaces (query v)) s).
  assert (Ran isLoopEvent s s0 [] [EvFetchPlaces (query v)]) as H0
    by (apply Ran_called; reflexivity).
  destruct (placesApi W (calls s) (query v)) as [places|].
  2: { exists Throws, s0, [], [EvFetchPlaces (query v)]. auto. }
  destruct (processPlaces_run W places s0) as (o & s1 & added & evs & -> & HR & Ho).
  apply (Ran_weaken _ _ _ _ _ _ batch_is_loop) in HR.
  pose proof (Ran_trans _ _ _ _ _ _ _ _ H0 HR) as H1.
  destruct o as [r| |].
  - destruct (shouldRetry r (length places) (retryCount v)).
    + cbv zeta.
      set (ask := AskNewQuery _).
      assert (Ran isLoopEvent s1 (called (EvGroq ask) s1) [] [EvGroq ask]) as H2
        by (apply Ran_called; reflexivity).
      pose proof (Ran_trans _ _ _ _ _ _ _ _ H1 H2) as H3.
      do 4 eexists. split; [reflexivity|]. split; [exact H3|].
      unfold decide_step. destruct (suggestion _) as [[|c t]|]; auto.
      destruct (negb _); auto.
    + do 4 eexists. split; [reflexivity|]. split; [exact H1|]. exact I.
  - do 4 eexists. split; [reflexivity|]. split; [exact H1|]. exact I.
  - destruct Ho.
Qed.

Lemma loop_eq fuel W names v :
  loop fuel W names v =
  if (retryCount v <? MAX_RETRIES)%nat then
    match fuel with
    | O => fun s => (OutOfFuel, s)
    | S fuel' =>
        bind (iteration W names v)
             (fun step => match step with
                          | Continue v' => loop fuel' W names v'
                          | Break v' => ret v'
                          end)
    end
  else ret v.
Proof. destruct fuel; reflexivity. Qed.

(** The loop ends, by a return or by an exception, within the iterations
    that the retry counter leaves. *)
Lemma loop_ran fuel W names v s :
  (MAX_RETRIES <= fuel + retryCount v)%nat ->
  exists o s' added evs,
    loop fuel W names v s = (o, s') /\ Ran isLoopEvent s s' added evs /\
    o <> OutOfFuel.
Proof.
  revert v s. induction fuel as [|fuel IH]; intros v s Hfuel; rewrite loop_eq.
  - destruct (Nat.ltb_spec (retryCount v) MAX_RETRIES); [simpl in *; lia|].
    exists (Returns v), s, [], []. split; [reflexivity|].
    split; [apply Ran_refl|discriminate].
  - destruct (Nat.ltb_spec (retryCount v) MAX_RETRIES).
    2: { exists (Returns v), s, [], []. split; [reflexivity|].
         split; [apply Ran_refl|discriminate]. }
    unfold bind.
    destruct (iteration_ran W names v s) as (o & s1 & a1 & e1 & -> & H1 & Ho).
    destruct o as [[v'|v']| |].
    + destruct (IH v' s1) as (o & s2 & a2 & e2 & -> & H2 & Ho2); [lia|].
      do 4 eexists. split; [reflexivity|].
      split; [exact (Ran_trans _ _ _ _ _ _ _ _ H1 H2)|exact Ho2].
    + do 4 eexists. split; [reflexivity|]. split; [exact H1|discriminate].
    + do 4 eexists. split; [reflexivity|]. split; [exact H1|discriminate].
    + destruct Ho.
Qed.

(** [main]: the ledger loaded, the loop, the ledger saved and the totals
    reported. *)
Lemma main_run W argv2 s :
  main W argv2 s =
  match loop MAX_RETRIES W
          (List.map name (loadProcessedSpots (ledgerFile s)))
          (firstVars argv2) (loaded s) with
  | (Returns v, s1) => (Returns v, finished v s1)
  | (Throws, s1) => (Throws, s1)
  | (OutOfFuel, s1) => (OutOfFuel, s1)
  end.
Proof.
  unfold main, bind at 1, loadLedger. fold (loaded s).
  unfold bind at 1. fold (firstVars argv2).
  destruct (loop _ _ _ _ _) as [[v| |] s1]; try reflexivity.
  unfold bind, getSpots, saveProcessedSpots, bind, emit, ret, finished. simpl.
  rewrite <- app_assoc. reflexivity.
Qed.

(** A run of [main] as a whole. *)
Lemma main_ran W argv2 s :
  exists o s' added evs,
    main W argv2 s = (o, s') /\
    NoDup (List.map uri added) /\
    (forall e, e ∈ added ->
       uri e ∉ List.map uri (loadProcessedSpots (ledgerFile s))) /\
    forallb isLoopEvent evs = true /\
    count isWrite evs = length added /\
    match o with
    | Returns v =>
        let spots := loadProcessedSpots (ledgerFile s) ++ added in
        processedSpots s' = spots /\
        ledgerFile s' = Stored spots /\
        trace s' = trace s ++ evs ++
                   [EvSaveLedger spots;
                    EvReport (totalNew v) (totalSkipped v) (length spots)
                      (retryCount v)]
    | Throws =>
        processedSpots s' = loadProcessedSpots (ledgerFile s) ++ added /\
        ledgerFile s' = ledgerFile s /\ trace s' = trace s ++ evs
    | OutOfFuel => False
    end.
Proof.
  rewrite main_run.
  destruct (loop_ran MAX_RETRIES W
              (List.map name (loadProcessedSpots (ledgerFile s)))
              (firstVars argv2) (loaded s))
    as (o & s1 & added & evs & -> & HR & Ho); [unfold MAX_RETRIES; simpl; lia|].
  destruct HR as (A1 & A2 & A3 & A4 & A5 & A6 & A7 & A8 & A9).
  simpl in *.
  assert (forall e, e ∈ added ->
            uri e ∉ List.map uri (loadProcessedSpots (ledgerFile s))) as Hfresh.
  { intros e He Hin. rewrite Forall_forall in A9. apply (A9 e He).
    apply elem_of_list_to_set, Hin. }
  destruct o as [v| |]; [| |congruence].
  - exists (Returns v), (finished v s1), added, evs.
    split; [reflexivity|]. do 4 (split; [assumption|]).
    unfold finished. simpl. rewrite A1, A5, <- app_assoc. auto.
  - exists Throws, s1, added, evs.
    split; [reflexivity|]. do 4 (split; [assumption|]). auto.
Qed.

(** *** The retry condition *)

Lemma gtHalf_divide a b : gtHalf (divide a b) = true <-> (b < 2 * a)%nat.
Proof.
  destruct b as [|b]; simpl.
  - destruct a; simpl; split; intros; try discriminate; try lia; auto.
  - unfold Qle_bool. cbn [Qnum Qden].
    assert (Z.pos (Pos.of_nat (S b)) = Z.of_nat (S b)) as ->
      by (rewrite <- positive_nat_Z, Nat2Pos.id; lia).
    rewrite negb_true_iff, Z.leb_gt. lia.
Qed.

Lemma shouldRetry_true r found retries :
  shouldRetry r found retries = true <->
  (found < 2 * skippedCount r)%nat /\ (newCount r < 5)%nat /\
  (retries < MAX_RETRIES - 1)%nat.
Proof.
  unfold shouldRetry. rewrite !andb_true_iff, gtHalf_divide, !Nat.ltb_lt. tauto.
Qed.

(** *** The events of the loop *)

Lemma iteration_starts W names v s :
  exists rest,
    trace (snd (iteration W names v s))
    = trace s ++ EvFetchPlaces (query v) :: rest.
Proof.
  rewrite iteration_run.
  set (s0 := called (EvFetchPlaces (query v)) s).
  destruct (placesApi W (calls s) (query v)) as [places|].
  2: { exists []. reflexivity. }
  destruct (processPlaces_run W places s0) as (o & s1 & added & evs & -> & HR & Ho).
  assert (trace s1 = trace s ++ EvFetchPlaces (query v) :: evs) as Ht.
  { destruct HR as (_ & _ & _ & _ & -> & _). simpl. rewrite <- app_assoc.
    reflexivity. }
  destruct o as [r| |]; try (exists evs; exact Ht).
  destruct (shouldRetry _ _ _); [|exists evs; exact Ht].
  cbv zeta. simpl. rewrite Ht, <- app_assoc. eexists. reflexivity.
Qed.

Lemma loop_extends fuel W names v s :
  exists evs, trace (snd (loop fuel W names v s)) = trace s ++ evs.
Proof.
  revert v s. induction fuel as [|fuel IH]; intros v s; rewrite loop_eq;
    destruct (retryCount v <? MAX_RETRIES)%nat;
    try (exists []; rewrite app_nil_r; reflexivity).
  unfold bind.
  destruct (iteration_ran W names v s) as (o & s1 & a1 & e1 & E & H1 & Ho).
  rewrite E. destruct H1 as (_ & _ & _ & _ & Ht & _).
  destruct o as [[v'|v']| |]; try (exists e1; exact Ht).
  destruct (IH v' s1) as [e2 H2]. exists (e1 ++ e2).
  rewrite H2, Ht, app_assoc. reflexivity.
Qed.

Lemma loop_starts fuel W names v s :
  (retryCount v < MAX_RETRIES)%nat ->
  exists rest,
    trace (snd (loop (S fuel) W names v s))
    = trace s ++ EvFetchPlaces (query v) :: rest.
Proof.
  intros Hv. rewrite loop_eq. apply Nat.ltb_lt in Hv. rewrite Hv.
  unfold bind.
  destruct (iteration_starts W names v s) as [rest Hrest].
  destruct (iteration W names v s) as [[[v'|v']| |] s1]; simpl in Hrest;
    try (exists rest; exact Hrest).
  destruct (loop_extends fuel W names v' s1) as [evs Hevs].
  exists (rest ++ evs). rewrite Hevs, Hrest, <- app_assoc. reflexivity.
Qed.

(** A run of [main] keeps the keys of the ledger distinct. *)
Lemma ingest_main_ledger W argv2 s :
  NoDup (List.map uri (loadProcessedSpots (ledgerFile s))) ->
  NoDup (List.map uri
           (loadProcessedSpots (ledgerFile (snd (main W argv2 s))))).
Proof.
  intros Hnd.
  destruct (main_ran W argv2 s)
    as (o & s' & added & evs & -> & Hadd & Hfresh & _ & _ & Ho).
  simpl. destruct o as [v| |]; [| |destruct Ho].
  - destruct Ho as (_ & -> & _). simpl. rewrite List.map_app.
    apply NoDup_app. split; [exact Hnd|]. split; [|exact Hadd].
    intros x Hx Hx2. apply list_elem_of_fmap in Hx2 as (e & -> & He).
    apply (Hfresh e He), Hx.
  - destruct Ho as (_ & -> & _). exact Hnd.
Qed.

Lemma ingest_runs_ledger rs f :
  NoDup (List.map uri (loadProcessedSpots f)) ->
  NoDup (List.map uri (loadProcessedSpots (IngestRuns.runs rs f))).
Proof.
  revert f. induction rs as [|[W argv2] rest IH]; intros f H; [exact H|].
  simpl. apply IH. apply (ingest_main_ledger W argv2 (boot f)). exact H.
Qed.

End IngestFacts.

(** ** Strings *)

Module StringFacts.

Lemma stripPrefix_app p r : stripPrefix p (p ++ r) = Some r.
Proof.
  induction p as [|a p IH]; simpl; [reflexivity|].
  rewrite N.eqb_refl. exact IH.
Qed.

Lemma stripPrefix_Some p s r : stripPrefix p s = Some r -> s = p ++ r.
Proof.
  revert s. induction p as [|a p IH]; intros s; simpl.
  - intros [= ->]. reflexivity.
  - destruct s as [|b s]; [discriminate|].
    destruct (N.eqb_spec a b); [|discriminate].
    intros H. subst b. rewrite (IH _ H). reflexivity.
Qed.

(** The test looks at no more than the length of the prefix. *)
Lemma stripPrefix_window d a x y :
  (length d <= length a)%nat ->
  stripPrefix d (a ++ x) = None -> stripPrefix d (a ++ y) = None.
Proof.
  revert a. induction d as [|c d IH]; intros a Hlen; simpl; [discriminate|].
  destruct a as [|b a]; [simpl in Hlen; lia|]. simpl.
  destruct (c =? b); [|reflexivity]. apply IH. simpl in Hlen. lia.
Qed.

(** A code unit that the prefix does not contain makes the test fail
    wherever it stands in the window. *)
Lemma stripPrefix_foreign d p c x y :
  forallb (fun u => negb (u =? c)) d = true ->
  stripPrefix d (p ++ c :: x) = None -> stripPrefix d (p ++ c :: y) = None.
Proof.
  revert d. induction p as [|b p IH]; intros d Hd; simpl.
  - destruct d as [|a d]; [discriminate|]. simpl in *.
    apply andb_true_iff in Hd as [Ha _]. apply negb_true_iff in Ha.
    rewrite Ha. reflexivity.
  - destruct d as [|a d]; [discriminate|]. simpl in *.
    apply andb_true_iff in Hd as [_ Hd].
    destruct (a =? b); [|reflexivity]. apply IH, Hd.
Qed.

Lemma stripPrefix_head d0 d c s :
  (d0 =? c) = false -> stripPrefix (d0 :: d) (c :: s) = None.
Proof. simpl. intros ->. reflexivity. Qed.

(** A prefix whose first code unit does not occur again in it cannot
    start inside an occurrence of itself. *)
Lemma stripPrefix_overlap k0 ktl b r t :
  k0 ∉ ktl -> b <> [] ->
  stripPrefix (k0 :: ktl) (b ++ (k0 :: ktl) ++ r) = Some t ->
  exists b', b = (k0 :: ktl) ++ b'.
Proof.
  intros Hk Hb H. apply stripPrefix_Some in H.
  apply app_eq_app in H as [l [[H1 H2]|[H1 H2]]].
  - exists l. exact H1.
  - destruct b as [|b0 b]; [congruence|]. simpl in H1.
    injection H1 as <- Hktl.
    destruct l as [|l0 l].
    + exists []. rewrite app_nil_r in *. subst ktl. reflexivity.
    + simpl in H2. injection H2 as <- _. exfalso. apply Hk. subst ktl.
      apply elem_of_app. right. left.
Qed.

Lemma splitFirst_Some p s a b : splitFirst p s = Some (a, b) -> s = a ++ p ++ b.
Proof.
  revert a. induction s as [|c s IH]; intros a; simpl.
  - destruct (stripPrefix p []) eqn:E; [|discriminate].
    intros [= <- <-]. apply stripPrefix_Some in E. exact E.
  - destruct (stripPrefix p (c :: s)) eqn:E.
    + intros [= <- <-]. apply stripPrefix_Some in E. exact E.
    + destruct (splitFirst p s) as [[a' b']|]; [|discriminate].
      intros [= <- <-]. rewrite (IH a' eq_refl). reflexivity.
Qed.

(** The first occurrence: no occurrence starts before it. *)
Lemma splitFirst_first p s a b :
  splitFirst p s = Some (a, b) ->
  forall a1 a2, a = a1 ++ a2 -> a2 <> [] ->
    stripPrefix p (a2 ++ p ++ b) = None.
Proof.
  revert a. induction s as [|c s IH]; intros a; simpl.
  - destruct (stripPrefix p []) eqn:E; [|discriminate].
    intros [= <- <-] a1 a2 H. destruct a1, a2; try discriminate. congruence.
  - destruct (stripPrefix p (c :: s)) eqn:E.
    + intros [= <- <-] a1 a2 H. destruct a1, a2; try discriminate. congruence.
    + destruct (splitFirst p s) as [[a' b']|] eqn:Es; [|discriminate].
      intros [= <- <-] a1 a2 H Hne.
      destruct a1 as [|x a1]; simpl in H.
      * subst a2. rewrite (splitFirst_Some _ _ _ _ Es) in E. exact E.
      * injection H as _ H. eapply IH; eauto.
Qed.

Lemma splitFirst_here p s r :
  stripPrefix p s = Some r -> splitFirst p s = Some ([], r).
Proof. intros H. destruct s; simpl; rewrite H; reflexivity. Qed.

Lemma splitFirst_intro p a b :
  (forall a1 a2, a = a1 ++ a2 -> a2 <> [] ->
     stripPrefix p (a2 ++ p ++ b) = None) ->
  splitFirst p (a ++ p ++ b) = Some (a, b).
Proof.
  induction a as [|c a IH]; intros H.
  - simpl. apply splitFirst_here, stripPrefix_app.
  - assert (stripPrefix p (c :: a ++ p ++ b) = None) as H0
      by (apply (H [] (c :: a) eq_refl); discriminate).
    cbn [app splitFirst]. rewrite H0.
    rewrite IH; [reflexivity|].
    intros a1 a2 -> Hne. apply (H (c :: a1) a2); [reflexivity|exact Hne].
Qed.

(** No occurrence at all. *)
Lemma splitFirst_None p s :
  splitFirst p s = None -> forall a r, s = a ++ r -> stripPrefix p r = None.
Proof.
  revert p. induction s as [|c s IH]; intros p; simpl.
  - destruct (stripPrefix p []) eqn:E; [discriminate|].
    intros _ a r H. destruct a, r; try discriminate. exact E.
  - destruct (stripPrefix p (c :: s)) eqn:E; [discriminate|].
    destruct (splitFirst p s) as [[a' b']|] eqn:Es; [discriminate|].
    intros _ a r H. destruct a as [|x a]; simpl in H.
    + subst r. exact E.
    + injection H as _ H. eapply IH; eauto.
Qed.

(** A nonempty suffix of [u ++ w] is a suffix of [w], or a nonempty suffix
    of [u] followed by [w]. *)
Lemma suffix_app_cases {A} (u w s1 s2 : list A) :
  u ++ w = s1 ++ s2 -> s2 <> [] ->
  (exists k, k <> [] /\ s2 = k ++ w /\ u = s1 ++ k) \/
  (exists k, w = k ++ s2).
Proof.
  intros H Hne. apply app_eq_app in H as [l [[H1 H2]|[H1 H2]]].
  - destruct l as [|x l].
    + right. exists []. simpl in *. auto.
    + left. exists (x :: l). split; [discriminate|]. auto.
  - right. exists l. exact H2.
Qed.

Lemma isSpace_LF : isSpace LF = true.
Proof. reflexivity. Qed.

Lemma trimStart_snoc_space b c :
  isSpace c = true ->
  trimStart (b ++ [c]) = if forallb isSpace b then [] else trimStart b ++ [c].
Proof.
  intros Hc. induction b as [|x b IH]; simpl.
  - rewrite Hc. reflexivity.
  - destruct (isSpace x); simpl; [exact IH|reflexivity].
Qed.

Lemma trimStart_all_space b : forallb isSpace b = true -> trimStart b = [].
Proof.
  induction b as [|x b IH]; simpl; [reflexivity|].
  intros H. apply andb_true_iff in H as [Hx Hb]. rewrite Hx. auto.
Qed.

Lemma trimEnd_snoc_space b c : isSpace c = true -> trimEnd (b ++ [c]) = trimEnd b.
Proof.
  intros Hc. unfold trimEnd. rewrite rev_app_distr. simpl. rewrite Hc.
  reflexivity.
Qed.

(** What [parseMdx] makes of the body that [buildMdx] wrote. *)
Lemma trim_between_line_feeds b : trim (LF :: b ++ [LF]) = trim b.
Proof.
  unfold trim. simpl. rewrite trimStart_snoc_space by reflexivity.
  destruct (forallb isSpace b) eqn:E.
  - rewrite (trimStart_all_space b E). reflexivity.
  - apply trimEnd_snoc_space. reflexivity.
Qed.

End StringFacts.

(** ** The review refiner *)

Module RefineFacts.
Import Refine RefineObs StringFacts.

(** *** Matching *)

Lemma spanWhile_eq p s :
  s = fst (spanWhile p s) ++ snd (spanWhile p s) /\
  forallb p (fst (spanWhile p s)) = true /\
  match snd (spanWhile p s) with
  | c :: _ => p c = false
  | [] => True
  end.
Proof.
  induction s as [|c s (IH1 & IH2 & IH3)]; simpl; [auto|].
  destruct (p c) eqn:E; [|simpl; auto].
  destruct (spanWhile p s) as [a b]. simpl in *. rewrite E, IH2.
  split; [congruence|]. split; [reflexivity|exact IH3].
Qed.

(** A starred class stops at a code unit outside of it. *)
Lemma spanWhile_stop p u c r :
  p c = false ->
  spanWhile p (u ++ c :: r)
  = (fst (spanWhile p u), snd (spanWhile p u) ++ c :: r).
Proof.
  intros Hc. induction u as [|x u IH]; simpl.
  - rewrite Hc. reflexivity.
  - destruct (p x); [|reflexivity]. rewrite IH.
    destruct (spanWhile p u). reflexivity.
Qed.

Lemma spanWhile_all p u : forallb p u = true -> spanWhile p u = (u, []).
Proof.
  induction u as [|x u IH]; simpl; [reflexivity|]. intros H.
  apply andb_true_iff in H as [Hx Hu]. rewrite Hx, (IH Hu). reflexivity.
Qed.

Lemma spanWhile_exact p u c r :
  forallb p u = true -> p c = false -> spanWhile p (u ++ c :: r) = (u, c :: r).
Proof.
  intros Hu Hc. rewrite (spanWhile_stop p u c r Hc), (spanWhile_all p u Hu).
  reflexivity.
Qed.

Lemma notQuote_false q : notQuote q = false -> q = QUOTE.
Proof.
  unfold notQuote. intros H. apply negb_false_iff, N.eqb_eq in H. exact H.
Qed.

Lemma matchField_shape key ne s m v rest :
  matchField key ne s = Some (m, v, rest) ->
  exists ws,
    m = key ++ ws ++ [QUOTE] ++ v ++ [QUOTE] /\ s = m ++ rest /\
    forallb isSpace ws = true /\ forallb notQuote v = true.
Proof.
  unfold matchField. destruct (stripPrefix key s) as [r|] eqn:E; [|discriminate].
  apply stripPrefix_Some in E.
  destruct (spanWhile_eq isSpace r) as (Hr & Hws & _).
  destruct (spanWhile isSpace r) as [ws r1]. simpl in *.
  destruct r1 as [|c r2]; [discriminate|].
  destruct (N.eqb_spec c QUOTE) as [->|]; [|discriminate].
  destruct (spanWhile_eq notQuote r2) as (Hr2 & Hv & Hq).
  destruct (spanWhile notQuote r2) as [value r3]. simpl in *.
  destruct r3 as [|q rest']; [discriminate|].
  apply notQuote_false in Hq. subst q.
  intros H.
  assert (Some (key ++ ws ++ [QUOTE] ++ value ++ [QUOTE], value, rest')
          = Some (m, v, rest)) as [= <- <- <-].
  { destruct ne, value; try discriminate; exact H. }
  exists ws. subst s r r2. rewrite <- !app_assoc. simpl.
  split; [reflexivity|]. split; [|split; assumption].
  rewrite <- app_assoc. reflexivity.
Qed.

Lemma matchField_build key ne ws v rest :
  forallb isSpace ws = true -> forallb notQuote v = true ->
  (ne = true -> v <> []) ->
  matchField key ne (key ++ ws ++ [QUOTE] ++ v ++ [QUOTE] ++ rest)
  = Some (key ++ ws ++ [QUOTE] ++ v ++ [QUOTE], v, rest).
Proof.
  intros Hws Hv Hne. unfold matchField. rewrite stripPrefix_app.
  simpl. rewrite (spanWhile_exact isSpace ws QUOTE _ Hws) by reflexivity.
  rewrite N.eqb_refl.
  rewrite (spanWhile_exact notQuote v QUOTE rest Hv) by reflexivity.
  destruct ne, v; try reflexivity. destruct Hne; reflexivity.
Qed.

Lemma findField_here key ne s m v rest :
  matchField key ne s = Some (m, v, rest) ->
  findField key ne s = Some ([], m, v, rest).
Proof. intros H. destruct s; simpl; rewrite H; reflexivity. Qed.

Lemma findField_Some key ne s b m v a :
  findField key ne s = Some (b, m, v, a) ->
  s = b ++ m ++ a /\ matchField key ne (m ++ a) = Some (m, v, a) /\
  forall b1 b2, b = b1 ++ b2 -> b2 <> [] ->
    matchField key ne (b2 ++ m ++ a) = None.
Proof.
  assert (forall s, matchField key ne s = Some (m, v, a) -> s = m ++ a) as Hm.
  { intros s' H. apply matchField_shape in H as (ws & _ & H & _). exact H. }
  revert b. induction s as [|c s IH]; intros b; simpl.
  - destruct (matchField key ne []) as [[[m' v'] r']|] eqn:E; [|discriminate].
    intros [= <- <- <- <-]. pose proof (Hm _ E) as Hs.
    split; [exact Hs|]. split; [rewrite <- Hs; exact E|].
    intros b1 b2 H. destruct b1, b2; try discriminate. congruence.
  - destruct (matchField key ne (c :: s)) as [[[m' v'] r']|] eqn:E.
    + intros [= <- <- <- <-]. pose proof (Hm _ E) as Hs.
      split; [exact Hs|]. split; [rewrite <- Hs; exact E|].
      intros b1 b2 H. destruct b1, b2; try discriminate. congruence.
    + destruct (findField key ne s) as [[[[b' m'] v'] a']|] eqn:Ef; [|discriminate].
      intros [= <- <- <- <-].
      destruct (IH b' eq_refl) as (Hs & Hmatch & Hfirst).
      split; [simpl; congruence|]. split; [exact Hmatch|].
      intros b1 b2 H Hne. destruct b1 as [|x b1]; simpl in H.
      * subst b2. simpl. rewrite <- Hs. exact E.
      * injection H as _ H. eapply Hfirst; eauto.
Qed.

Lemma findField_intro key ne b r m v a :
  (forall b1 b2, b = b1 ++ b2 -> b2 <> [] -> matchField key ne (b2 ++ r) = None) ->
  matchField key ne r = Some (m, v, a) ->
  findField key ne (b ++ r) = Some (b, m, v, a).
Proof.
  intros Hb Hr. induction b as [|c b IH].
  - simpl. apply findField_here, Hr.
  - assert (matchField key ne (c :: b ++ r) = None) as H0
      by (apply (Hb [] (c :: b) eq_refl); discriminate).
    cbn [app findField]. rewrite H0, IH; [reflexivity|].
    intros b1 b2 -> Hne. apply (Hb (c :: b1) b2); [reflexivity|exact Hne].
Qed.

Lemma findField_None key ne s :
  findField key ne s = None ->
  forall a r, s = a ++ r -> matchField key ne r = None.
Proof.
  induction s as [|c s IH]; simpl.
  - destruct (matchField key ne []) as [[[m v] r']|] eqn:E; [discriminate|].
    intros _ a r H. destruct a, r; try discriminate. exact E.
  - destruct (matchField key ne (c :: s)) as [[[m v] r']|] eqn:E; [discriminate|].
    destruct (findField key ne s) as [[[[b' m'] v'] a']|] eqn:Ef; [discriminate|].
    intros _ a r H. destruct a as [|x a]; simpl in H.
    + subst r. exact E.
    + injection H as _ H. eapply IH; eauto.
Qed.

(** *** Replacement strings *)

Lemma getSubstitution_plain m b a caps t :
  forallb noDollar t = true -> getSubstitution m b a caps t = t.
Proof.
  induction t as [|c t IH]; simpl; [reflexivity|]. intros H.
  apply andb_true_iff in H as [Hc Ht]. unfold noDollar in Hc.
  apply negb_true_iff in Hc. rewrite Hc, (IH Ht). reflexivity.
Qed.

Lemma getSubstitution_group1 m b a x t :
  getSubstitution m b a [x] (lit "$1" ++ LF :: t)
  = x ++ getSubstitution m b a [x] (LF :: t).
Proof. reflexivity. Qed.

(** *** The author field *)

Lemma authorLine_shape author :
  authorLine author = lit "author:" ++ [32] ++ [QUOTE] ++ author ++ [QUOTE].
Proof. reflexivity. Qed.

Lemma plainAuthor_inv author :
  plainAuthor author = true ->
  author <> [] /\ forallb noDollar author = true /\
  forallb notQuote author = true /\ forallb notLF author = true.
Proof.
  unfold plainAuthor. destruct author as [|c t]; [discriminate|].
  intros H. split; [discriminate|]. revert H.
  generalize (c :: t). intros a H.
  induction a as [|x a IH]; simpl; [auto|].
  simpl in H. apply andb_true_iff in H as [Hx Ha].
  apply andb_true_iff in Hx as [Hx H3]. apply andb_true_iff in Hx as [H1 H2].
  destruct (IH Ha) as (I1 & I2 & I3).
  rewrite I1, I2, I3. unfold noDollar, notQuote, notLF.
  rewrite H1, H2, H3. auto.
Qed.

Lemma authorLine_noDollar author :
  forallb noDollar author = true -> forallb noDollar (authorLine author) = true.
Proof.
  intros H. unfold authorLine. rewrite !forallb_app, H. reflexivity.
Qed.

Lemma authorLine_notLF author :
  forallb notLF author = true -> forallb notLF (authorLine author) = true.
Proof.
  intros H. unfold authorLine. rewrite !forallb_app, H. reflexivity.
Qed.

Lemma found_includes key ne s b m v a :
  findField key ne s = Some (b, m, v, a) -> includes key s = true.
Proof.
  intros H. apply findField_Some in H as (Hs & Hm & _).
  apply matchField_shape in Hm as (ws & Hshape & _).
  unfold includes. destruct (splitFirst key s) eqn:E; [reflexivity|].
  pose proof (splitFirst_None _ _ E b (m ++ a) Hs) as Hn.
  rewrite Hshape, <- app_assoc, stripPrefix_app in Hn. discriminate.
Qed.

(** With a quoted author field, the leftmost one is replaced. *)
Lemma patch_replace fm author b m v a :
  plainAuthor author = true ->
  findField (lit "author:") false fm = Some (b, m, v, a) ->
  patchAuthor fm author = b ++ authorLine author ++ a.
Proof.
  intros Hp Hf. destruct (plainAuthor_inv _ Hp) as (Hne & Hd & _).
  unfold patchAuthor. destruct author as [|c t]; [congruence|].
  rewrite (found_includes _ _ _ _ _ _ _ Hf).
  unfold replaceField. rewrite Hf.
  rewrite getSubstitution_plain by (apply authorLine_noDollar, Hd).
  reflexivity.
Qed.

(** Without the text of the key of an author field and with a quoted title
    field, an author field is put on a line after the leftmost title. *)
Lemma patch_insert fm author b m v a :
  plainAuthor author = true ->
  includes (lit "author:") fm = false ->
  findField (lit "title:") false fm = Some (b, m, v, a) ->
  patchAuthor fm author = b ++ (m ++ LF :: authorLine author) ++ a.
Proof.
  intros Hp Hi Hf. destruct (plainAuthor_inv _ Hp) as (Hne & Hd & _ & Hl).
  unfold patchAuthor. destruct author as [|c t]; [congruence|].
  rewrite Hi. unfold replaceField. rewrite Hf.
  change (lit "$1" ++ [LF] ++ authorLine (c :: t))
    with (lit "$1" ++ LF :: authorLine (c :: t)).
  rewrite getSubstitution_group1.
  rewrite getSubstitution_plain; [reflexivity|].
  change (LF :: authorLine (c :: t)) with ([LF] ++ authorLine (c :: t)).
  rewrite forallb_app, (authorLine_noDollar _ Hd). reflexivity.
Qed.

(** With neither, the frontmatter is left as it is. *)
Lemma patch_nothing fm author :
  findField (lit "author:") false fm = None ->
  findField (lit "title:") false fm = None ->
  patchAuthor fm author = fm.
Proof.
  intros Ha Ht. unfold patchAuthor, replaceField. rewrite Ha, Ht.
  destruct author; [reflexivity|]. destruct (includes _ _); reflexivity.
Qed.

(** *** Delimiters *)

Lemma parse_shape original fm body :
  parseMdx original = Some (fm, body) ->
  exists rest, original = fence ++ fm ++ delimiter ++ rest /\ body = trim rest /\
               Clear fm.
Proof.
  unfold parseMdx. destruct (stripPrefix fence original) as [r|] eqn:E;
    [|discriminate].
  destruct (splitFirst delimiter r) as [[f rest]|] eqn:Es; [|discriminate].
  intros [= <- <-]. exists rest.
  apply stripPrefix_Some in E. pose proof (splitFirst_Some _ _ _ _ Es) as Hr.
  split; [congruence|]. split; [reflexivity|].
  intros s1 s2 r' Hs Hne.
  pose proof (splitFirst_first _ _ _ _ Es s1 s2 Hs Hne) as H.
  rewrite app_assoc in H. rewrite app_assoc.
  eapply stripPrefix_window; [|exact H].
  rewrite length_app. lia.
Qed.

Lemma clear_parse fm rest :
  Clear fm -> parseMdx (fence ++ fm ++ delimiter ++ rest) = Some (fm, trim rest).
Proof.
  intros H. unfold parseMdx. rewrite stripPrefix_app.
  rewrite splitFirst_intro; [reflexivity|].
  intros a1 a2 Ha Hne. eapply H; eauto.
Qed.

Lemma forallb_suffix_head (p : N -> bool) k1 c k :
  forallb p (k1 ++ c :: k) = true -> p c = true.
Proof.
  rewrite forallb_app. simpl. intros H.
  apply andb_true_iff in H as [_ H]. apply andb_true_iff in H as [H _]. exact H.
Qed.

(** A delimiter starts with a line feed. *)
Lemma delimiter_head c s : notLF c = true -> stripPrefix delimiter (c :: s) = None.
Proof.
  intros H. unfold delimiter. apply stripPrefix_head.
  unfold notLF in H. apply negb_true_iff in H. rewrite N.eqb_sym. exact H.
Qed.

(** Replacing, in a clear text, a part by another: the two begin with the
    same code unit, which no delimiter contains, and no delimiter starts
    inside the new part. *)
Lemma Clear_patch pre X Y post c0 X' Y' :
  X = c0 :: X' -> Y = c0 :: Y' ->
  forallb (fun u => negb (u =? c0)) delimiter = true ->
  Clear (pre ++ Y ++ post) ->
  (forall k1 k r, X = k1 ++ k -> k <> [] ->
     stripPrefix delimiter (k ++ post ++ delimiter ++ r) = None) ->
  Clear (pre ++ X ++ post).
Proof.
  intros HX HY Hc0 Hold Hin s1 s2 r Hs Hne.
  destruct (suffix_app_cases _ _ _ _ Hs Hne) as [(k & Hk & -> & Hpre)|[k Hk]].
  - pose proof (Hold s1 (k ++ Y ++ post) r) as H.
    rewrite Hpre, <- app_assoc in H. specialize (H eq_refl).
    rewrite HY in H. rewrite HX. rewrite <- !app_assoc in *. cbn [app] in *.
    eapply stripPrefix_foreign; [exact Hc0|]. apply H.
    destruct k; [congruence|discriminate].
  - destruct (suffix_app_cases _ _ _ _ Hk Hne) as [(j & Hj & -> & HXj)|[j Hj]].
    + rewrite <- app_assoc. eapply Hin; eauto.
    + apply (Hold (pre ++ Y ++ j) s2 r); [|exact Hne].
      rewrite Hj, <- !app_assoc. reflexivity.
Qed.

Lemma delimiter_no_letter :
  forallb (fun u => negb (u =? 97)) delimiter = true /\
  forallb (fun u => negb (u =? 116)) delimiter = true /\
  forallb (fun u => negb (u =? QUOTE)) delimiter = true.
Proof. repeat split; reflexivity. Qed.

Lemma Clear_replace b m v a author :
  plainAuthor author = true ->
  matchField (lit "author:") false (m ++ a) = Some (m, v, a) ->
  Clear (b ++ m ++ a) -> Clear (b ++ authorLine author ++ a).
Proof.
  intros Hp Hm Hold. destruct (plainAuthor_inv _ Hp) as (_ & _ & _ & Hl).
  apply matchField_shape in Hm as (ws & Hshape & _).
  eapply (Clear_patch b (authorLine author) m a 97);
    [reflexivity|rewrite Hshape; reflexivity|apply delimiter_no_letter|exact Hold|].
  intros k1 k r HX Hne. destruct k as [|c k]; [congruence|].
  cbn [app]. apply delimiter_head.
  apply (forallb_suffix_head notLF k1 c k). rewrite <- HX.
  apply authorLine_notLF, Hl.
Qed.

Lemma Clear_insert b m v a author :
  plainAuthor author = true ->
  matchField (lit "title:") false (m ++ a) = Some (m, v, a) ->
  Clear (b ++ m ++ a) -> Clear (b ++ (m ++ LF :: authorLine author) ++ a).
Proof.
  intros Hp Hm Hold. destruct (plainAuthor_inv _ Hp) as (_ & _ & _ & Hl).
  apply matchField_shape in Hm as (ws & Hshape & _).
  eapply (Clear_patch b (m ++ LF :: authorLine author) m a 116);
    [rewrite Hshape; reflexivity|rewrite Hshape; reflexivity
    |apply delimiter_no_letter|exact Hold|].
  intros k1 k r HX Hne.
  destruct (suffix_app_cases _ _ _ _ HX Hne) as [(j & Hj & -> & Hmj)|[j Hj]].
  - (* the suffix begins inside the title field, which ends with a quote *)
    assert (exists j', j = j' ++ [QUOTE]) as [j' ->].
    { assert (m = (lit "title:" ++ ws ++ [QUOTE] ++ v) ++ [QUOTE]) as Hm'
        by (rewrite Hshape, <- !app_assoc; reflexivity).
      rewrite Hm' in Hmj.
      destruct (suffix_app_cases _ _ _ _ Hmj Hj) as [(i & _ & -> & _)|[i Hi]];
        [eauto|].
      destruct i as [|x i].
      - exists []. cbn [app] in *. congruence.
      - destruct i; destruct j; cbn [app] in *; try discriminate; congruence. }
    pose proof (Hold (b ++ k1) ((j' ++ [QUOTE]) ++ a) r) as H.
    rewrite Hmj, <- !app_assoc in H. specialize (H eq_refl).
    rewrite <- !app_assoc in *. cbn [app] in *.
    eapply stripPrefix_foreign; [apply delimiter_no_letter|]. apply H.
    destruct j'; discriminate.
  - destruct j as [|x j]; cbn [app] in Hj.
    + subst k. reflexivity.
    + injection Hj as _ Hj. destruct k as [|c k]; [congruence|].
      cbn [app]. apply delimiter_head.
      apply (forallb_suffix_head notLF j c k). rewrite <- Hj.
      apply authorLine_notLF, Hl.
Qed.

(** *** Where the author field is found *)

Lemma spanWhile_stops_at p s c :
  c ∈ s -> p c = false -> snd (spanWhile p s) <> [].
Proof.
  intros Hin Hc. induction s as [|x s IH]; [inversion Hin|].
  simpl. destruct (p x) eqn:Ex; [|discriminate].
  destruct (spanWhile p s) as [u w]. simpl in *. apply IH.
  apply elem_of_cons in Hin as [->|Hin]; [congruence|exact Hin].
Qed.

Lemma matchField_afterKey key s :
  matchField key false s = None <->
  match stripPrefix key s with
  | Some r => afterKey r = false
  | None => True
  end.
Proof.
  unfold matchField, afterKey. destruct (stripPrefix key s) as [r|]; [|tauto].
  destruct (spanWhile isSpace r) as [ws r1]. destruct r1 as [|c r2]; [tauto|].
  destruct (c =? QUOTE); [|tauto].
  destruct (spanWhile notQuote r2) as [value r3].
  destruct r3; [tauto|]. split; discriminate.
Qed.

Lemma afterKey_before b3 k0 rest :
  isSpace k0 = false -> (k0 =? QUOTE) = false ->
  afterKey (b3 ++ k0 :: rest) =
  match snd (spanWhile isSpace b3) with
  | c :: r2 =>
      (c =? QUOTE)
      && match snd (spanWhile notQuote (r2 ++ k0 :: rest)) with
         | _ :: _ => true
         | [] => false
         end
  | [] => false
  end.
Proof.
  intros Hsp Hq. unfold afterKey. rewrite (spanWhile_stop isSpace b3 k0 _ Hsp).
  destruct (spanWhile isSpace b3) as [ws1 r1]. cbn [fst snd].
  destruct r1 as [|c r2]; cbn [app]; [rewrite Hq; reflexivity|].
  destruct (c =? QUOTE); [|reflexivity].
  destruct (spanWhile notQuote _) as [value r3]. reflexivity.
Qed.

(** Before the match of a field, a text that does not match still does not
    when the field is replaced by another text that begins with the key. *)
Lemma matchField_swap k0 ktl b2 X Y a :
  k0 ∉ ktl -> isSpace k0 = false -> (k0 =? QUOTE) = false ->
  b2 <> [] -> QUOTE ∈ Y ->
  matchField (k0 :: ktl) false (b2 ++ (k0 :: ktl) ++ Y ++ a) = None ->
  matchField (k0 :: ktl) false (b2 ++ (k0 :: ktl) ++ X ++ a) = None.
Proof.
  intros Hk Hsp Hq Hb HY Hold.
  apply matchField_afterKey. apply matchField_afterKey in Hold.
  destruct (stripPrefix (k0 :: ktl) (b2 ++ (k0 :: ktl) ++ X ++ a)) as [t|] eqn:E;
    [|exact I].
  destruct (stripPrefix_overlap k0 ktl b2 _ _ Hk Hb E) as [b3 ->].
  rewrite <- app_assoc, stripPrefix_app in E. injection E as <-.
  rewrite <- app_assoc, stripPrefix_app in Hold.
  change (b3 ++ (k0 :: ktl) ++ X ++ a) with (b3 ++ k0 :: ktl ++ X ++ a).
  change (b3 ++ (k0 :: ktl) ++ Y ++ a) with (b3 ++ k0 :: ktl ++ Y ++ a) in Hold.
  rewrite (afterKey_before b3 k0 _ Hsp Hq).
  rewrite (afterKey_before b3 k0 _ Hsp Hq) in Hold.
  destruct (snd (spanWhile isSpace b3)) as [|c r2]; [reflexivity|].
  destruct (c =? QUOTE); [|reflexivity]. exfalso.
  assert (snd (spanWhile notQuote (r2 ++ k0 :: ktl ++ Y ++ a)) <> []) as Hne.
  { apply (spanWhile_stops_at notQuote _ QUOTE); [|reflexivity].
    apply elem_of_app. right. apply elem_of_cons. right.
    apply elem_of_app. right. apply elem_of_app. left. exact HY. }
  destruct (snd (spanWhile notQuote (r2 ++ k0 :: ktl ++ Y ++ a)));
    [congruence|discriminate Hold].
Qed.

Lemma author_key :
  lit "author:" = 97 :: lit "uthor:" /\ 97 ∉ lit "uthor:" /\
  isSpace 97 = false /\ (97 =? QUOTE) = false.
Proof.
  split; [reflexivity|]. split; [|split; reflexivity].
  intros H. apply list_elem_of_In in H. vm_compute in H.
  repeat (destruct H as [H|H]; [discriminate H|]). exact H.
Qed.

Lemma authorLine_match author a :
  forallb notQuote author = true ->
  matchField (lit "author:") false (authorLine author ++ a)
  = Some (authorLine author, author, a).
Proof.
  intros H. rewrite authorLine_shape.
  pose proof (matchField_build (lit "author:") false [32] author a eq_refl H) as Hm.
  rewrite <- !app_assoc. apply Hm. discriminate.
Qed.

(** After a replacement the leftmost author field is the one written. *)
Lemma author_found_replace b m v a author :
  plainAuthor author = true ->
  findField (lit "author:") false (b ++ m ++ a) = Some (b, m, v, a) ->
  findField (lit "author:") false (b ++ authorLine author ++ a)
  = Some (b, authorLine author, author, a).
Proof.
  intros Hp Hf. destruct (plainAuthor_inv _ Hp) as (_ & _ & Hq & _).
  apply findField_Some in Hf as (_ & Hm & Hfirst).
  apply matchField_shape in Hm as (ws & Hshape & _).
  destruct author_key as (Hkey & Hnot & Hsp & Hnq).
  apply findField_intro; [|apply authorLine_match, Hq].
  intros b1 b2 Hb Hne. specialize (Hfirst b1 b2 Hb Hne).
  rewrite Hshape, <- app_assoc in Hfirst. rewrite authorLine_shape, <- app_assoc.
  rewrite Hkey in *.
  eapply matchField_swap; eauto.
  apply elem_of_app. right. left.
Qed.

Lemma snoc_cases {A} (l : list A) : l = [] \/ exists l' x, l = l' ++ [x].
Proof.
  destruct l as [|a l] using rev_ind; [left; reflexivity|right; eauto].
Qed.

(** After an insertion the leftmost author field is the one written. *)
Lemma author_found_insert b m a author :
  plainAuthor author = true ->
  includes (lit "author:") (b ++ m ++ a) = false ->
  findField (lit "author:") false (b ++ (m ++ LF :: authorLine author) ++ a)
  = Some (b ++ m ++ [LF], authorLine author, author, a).
Proof.
  intros Hp Hi. destruct (plainAuthor_inv _ Hp) as (_ & _ & Hq & _).
  destruct author_key as (Hkey & Hnot & Hsp & Hnq).
  assert (b ++ (m ++ LF :: authorLine author) ++ a
          = (b ++ m ++ [LF]) ++ authorLine author ++ a) as ->
    by (rewrite <- !app_assoc; reflexivity).
  apply findField_intro; [|apply authorLine_match, Hq].
  intros b1 b2 Hb Hne. apply matchField_afterKey.
  destruct (stripPrefix _ _) as [t|] eqn:E; [exfalso|exact I].
  rewrite authorLine_shape, <- app_assoc, Hkey in E.
  destruct (stripPrefix_overlap _ _ _ _ _ Hnot Hne E) as [b3 ->].
  rewrite <- Hkey in *. clear E.
  (* the key would occur before the line feed, that is in the old text *)
  destruct (snoc_cases b3) as [->|(b3' & x & ->)].
  - rewrite app_nil_r in Hb.
    change (lit "author:") with (lit "author" ++ [58]) in Hb.
    rewrite !app_assoc in Hb.
    apply app_inj_tail in Hb as [_ Hb]. discriminate Hb.
  - rewrite !app_assoc in Hb. apply app_inj_tail in Hb as [Hb _].
    unfold includes in Hi.
    destruct (splitFirst (lit "author:") (b ++ m ++ a)) eqn:Es; [discriminate|].
    pose proof (splitFirst_None _ _ Es b1 (lit "author:" ++ b3' ++ a)) as Hn.
    rewrite stripPrefix_app in Hn. discriminate Hn.
    rewrite !app_assoc. rewrite Hb. reflexivity.
Qed.

End RefineFacts.

(** ** Runs of the review refiner *)

Module RefineRuns.
Import Refine RefineObs.

Lemma selectRandomAuthor_run W s :
  exists a s',
    selectRandomAuthor W s = (Returns a, s') /\ ledgerFile s' = ledgerFile s /\
    spotsDir s' = spotsDir s /\ trace s' = trace s /\
    a ∈ [lit "murad"; lit "isabella"; lit "mikelia"; lit "sara"; lit "robert"].
Proof.
  unfold selectRandomAuthor, bind, nextCall.
  repeat match goal with
         | |- context [if ?c then _ else _] => destruct c
         end;
    do 2 eexists; (split; [reflexivity|]); simpl; repeat split;
    set_solver.
Qed.

Lemma refineReview_run W sn nb body s :
  exists o s',
    refineReview W sn nb body s = (o, s') /\ ledgerFile s' = ledgerFile s /\
    spotsDir s' = spotsDir s /\
    match o with Exits _ => False | _ => True end.
Proof.
  unfold refineReview, bind, nextCall, emit. simpl.
  destruct (groq W (calls s) sn nb body);
    repeat match goal with
           | |- context [if ?c then _ else _] => destruct c
           end;
    do 2 eexists; (split; [reflexivity|]); simpl; auto.
Qed.

(** One file: a failure leaves the ledger file alone; a success leaves it
    alone in single-file mode and otherwise stores the ledger in memory
    with one more entry, for this file. *)
Lemma refineFile_run W single total f p s :
  exists o s',
    refineFile W single total f p s = (o, s') /\
    match o with
    | Returns p' =>
        if single then
          refinedSpots p' = refinedSpots p /\ ledgerFile s' = ledgerFile s
        else
          exists e, filename e = f /\
            refinedSpots p' = refinedSpots p ++ [e] /\
            ledgerFile s' = Stored (refinedSpots p')
    | Throws => ledgerFile s' = ledgerFile s
    | Exits _ => False
    end.
Proof.
  unfold refineFile, bind at 1, readFile.
  destruct (spotsDir s !! f) as [content|];
    [|do 2 eexists; split; [reflexivity|reflexivity]].
  destruct (parseMdx content) as [[fm body]|];
    [|do 2 eexists; split; [reflexivity|reflexivity]].
  unfold bind at 1.
  destruct (selectRandomAuthor_run W s) as (a & s1 & -> & L1 & _).
  unfold bind at 1.
  destruct (refineReview_run W
              match findField (lit "title:") true fm with
              | Some (_, _, v, _) => v
              | None => removeFirst (lit ".mdx") f
              end
              match findField (lit "neighborhood:") true fm with
              | Some (_, _, v, _) => v
              | None => lit "Madrid"
              end body s1) as (o & s2 & -> & L2 & _ & Ho).
  destruct o as [rb| |c]; [| |destruct Ho].
  2: { do 2 eexists. split; [reflexivity|]. congruence. }
  destruct single.
  - unfold bind, writeFile, bind, emit, ret. simpl.
    destruct (S (processed p) <? total)%nat;
      do 2 eexists; (split; [reflexivity|]); simpl; split; congruence.
  - unfold bind, writeFile, saveRefinedSpots, bind, emit, nextCall, ret. simpl.
    destruct (S (processed p) <? total)%nat;
      do 2 eexists; (split; [reflexivity|]); simpl;
      eexists; (split; [|split; reflexivity]); reflexivity.
Qed.

(** The loop in batch mode: the ledger file follows the ledger in memory,
    which grows by entries for some of the files, in their order. *)
Lemma refineAll_batch W total files p s :
  load (ledgerFile s) = refinedSpots p ->
  NoDup files ->
  exists p' s' added,
    refineAll W false total files p s = (Returns p', s') /\
    load (ledgerFile s') = refinedSpots p' /\
    refinedSpots p' = refinedSpots p ++ added /\
    NoDup (List.map filename added) /\
    (forall e, e ∈ added -> filename e ∈ files).
Proof.
  revert p s. induction files as [|f rest IH]; intros p s Hload Hnd.
  - exists p, s, []. simpl. rewrite app_nil_r.
    split; [reflexivity|]. split; [exact Hload|]. split; [reflexivity|].
    split; [constructor|]. intros e He. inversion He.
  - apply NoDup_cons in Hnd as [Hf Hrest]. simpl.
    destruct (refineFile_run W false total f p s) as (o & s1 & -> & Ho).
    destruct o as [p1| |c]; [| |destruct Ho].
    + destruct Ho as (e & He & Hp1 & Hfile).
      destruct (IH p1 s1) as (p' & s' & added & -> & A1 & A2 & A3 & A4);
        [rewrite Hfile; reflexivity|exact Hrest|].
      exists p', s', (e :: added). split; [reflexivity|]. split; [exact A1|].
      split; [rewrite A2, Hp1, <- app_assoc; reflexivity|]. split.
      * simpl. apply NoDup_cons. split; [|exact A3].
        intros Hin. apply list_elem_of_fmap in Hin as (e' & He' & Hin).
        apply Hf. rewrite <- He, He'. apply A4, Hin.
      * intros e' Hin. apply elem_of_cons in Hin as [->|Hin].
        -- rewrite He. left.
        -- right. apply A4, Hin.
    + destruct (IH p s1) as (p' & s' & added & -> & A1 & A2 & A3 & A4);
        [rewrite Ho; exact Hload|exact Hrest|].
      exists p', s', added. split; [reflexivity|]. split; [exact A1|].
      split; [exact A2|]. split; [exact A3|].
      intros e' Hin. right. apply A4, Hin.
Qed.

(** The loop in single-file mode leaves the ledger file alone. *)
Lemma refineAll_single W total files p s :
  exists p' s',
    refineAll W true total files p s = (Returns p', s') /\
    ledgerFile s' = ledgerFile s.
Proof.
  revert p s. induction files as [|f rest IH]; intros p s.
  - exists p, s. split; reflexivity.
  - simpl. destruct (refineFile_run W true total f p s) as (o & s1 & -> & Ho).
    destruct o as [p1| |c]; [| |destruct Ho].
    + destruct Ho as [_ Hfile].
      destruct (IH p1 s1) as (p' & s' & -> & A). exists p', s'.
      split; [reflexivity|congruence].
    + destruct (IH p s1) as (p' & s' & -> & A). exists p', s'.
      split; [reflexivity|congruence].
Qed.

(** The files of a batch: without duplicates, and none of them in the
    ledger. *)
Lemma selectFiles_batch s :
  exists files,
    selectFiles None s = (Returns files, s) /\ NoDup files /\
    (forall f, f ∈ files -> f ∉ List.map filename (load (ledgerFile s))) /\
    (forall f, f ∈ files ->
       is_Some (spotsDir s !! f) /\ endsWith (lit ".mdx") f = true /\
       f <> lit "example-spot.mdx").
Proof.
  unfold selectFiles, bind, readdir, loadRefinedSpots, ret. simpl.
  eexists. split; [reflexivity|]. fold (load (ledgerFile s)).
  split; [|split].
  - apply NoDup_ListNoDup. do 3 apply List.NoDup_filter.
    apply NoDup_ListNoDup, NoDup_fst_map_to_list.
  - intros f Hf Hin. apply list_elem_of_In, List.filter_In in Hf as [_ Hf].
    apply negb_true_iff in Hf. unfold inLedger in Hf.
    apply bool_decide_eq_false in Hf. apply Hf, elem_of_list_to_set, Hin.
  - intros f Hf. apply list_elem_of_In, List.filter_In in Hf as [Hf _].
    apply List.filter_In in Hf as [Hf Hne]. apply List.filter_In in Hf as [Hf He].
    split; [|split; [exact He|]].
    + apply list_elem_of_In, list_elem_of_fmap in Hf as ([k v] & -> & Hkv).
      apply elem_of_map_to_list in Hkv. simpl. eauto.
    + apply negb_true_iff, bool_decide_eq_false in Hne. exact Hne.
Qed.

(** A run of [main] keeps the keys of the ledger distinct. *)
Lemma refine_main_ledger W argv2 s :
  NoDup (List.map filename (load (ledgerFile s))) ->
  NoDup (List.map filename (load (ledgerFile (snd (main W argv2 s))))).
Proof.
  intros Hnd. unfold main.
  destruct argv2 as [[|c t]|].
  2: { (* single-file mode *)
    unfold bind at 1, selectFiles, bind, existsFile, ret.
    destruct (spotsDir s !! _); [|exact Hnd].
    simpl.
    destruct (refineAll_single W 1
                [if endsWith (lit ".mdx") (c :: t) then c :: t
                 else (c :: t) ++ lit ".mdx"]
                {| refinedSpots := []; processed := 0 |} s)
      as (p' & s' & E & Hfile).
    simpl in E. rewrite E. simpl. rewrite Hfile. exact Hnd. }
  all: unfold bind at 1;
    try change (selectFiles (Some [])) with (selectFiles None);
    destruct (selectFiles_batch s) as (files & -> & Hfiles & Hfresh & _);
    destruct files as [|f rest]; [exact Hnd|];
    unfold bind at 1, loadRefinedSpots;
    destruct (refineAll_batch W (length (f :: rest)) (f :: rest)
                {| refinedSpots := load (ledgerFile s); processed := 0 |} s
                eq_refl Hfiles)
      as (p' & s' & added & E & A1 & A2 & A3 & A4);
    fold (load (ledgerFile s)); unfold bind; rewrite E; simpl;
    rewrite A1, A2; simpl; rewrite List.map_app;
    apply NoDup_app; (split; [exact Hnd|]); (split; [|exact A3]);
    intros x Hx Hx2; apply list_elem_of_fmap in Hx2 as (e & -> & He);
    apply (Hfresh _ (A4 e He)), Hx.
Qed.

Lemma refine_runs_ledger rs f :
  NoDup (List.map filename (load f)) ->
  NoDup (List.map filename (load (runs rs f))).
Proof.
  revert f. induction rs as [|[[W argv2] dir] rest IH]; intros f H; [exact H|].
  simpl. apply IH. apply (refine_main_ledger W argv2 (boot f dir)). exact H.
Qed.

End RefineRuns.

(** ** What the specification says of the spot-fetching script *)

Import Ingest IngestObs.

(** C1. In a batch handled by [processPlaces], a candidate whose address on
    the map is already in the set of known addresses is counted as skipped
    and leaves the state as it was: nothing is requested, written or
    appended for it.  For the batch as a whole: as many files are written
    as entries are appended, none of the appended entries has an address
    that was known when the batch began, and, when the batch returns, the
    new and the skipped candidates add up to the candidates of the batch.
    The batch returns unless an enrichment throws. *)
Theorem processPlaces_counts_and_skips
    (W : World) (places : list Place) (s : State) :
  (forall place acc st,
     orString (googleMapsUri place) [] ∈ processedUris st ->
     processPlace W place acc st = (Returns (skip place acc), st)) /\
  (exists added evs,
     let res := processPlaces W places s in
     processedSpots (snd res) = processedSpots s ++ added /\
     trace (snd res) = trace s ++ evs /\
     count isWrite evs = length added /\
     Forall (fun e => uri e ∉ processedUris s) added /\
     match fst res with
     | Returns r =>
         (newCount r + skippedCount r = length places)%nat /\
         newCount r = length added
     | Throws => ~ Enrichable W
     | OutOfFuel => False
     end).
Proof.
  split.
  - intros place acc st Hu.
    destruct (IngestFacts.processPlace_run W place acc st)
      as (o & s' & E & [(_ & -> & ->)|(Hn & _)]); [exact E|].
    destruct (Hn Hu).
  - destruct (IngestFacts.processPlaces_run W places s)
      as (o & s' & added & evs & E & HR & Ho).
    exists added, evs. cbv zeta. rewrite E. simpl.
    destruct HR as (A1 & _ & _ & _ & A5 & _ & A7 & _ & A9).
    repeat (split; [assumption|]).
    destruct o as [r| |]; [|exact Ho|exact Ho].
    destruct Ho as [Hn Hsum]. split; [exact Hsum|exact Hn].
Qed.

Lemma processPlaces_counts_and_skips_witness :
  exists r,
    fst (processPlaces Examples.world1
           [Examples.place "Toma Cafe" "maps/1"; Examples.place "Acid Cafe" "maps/3"]
           (loaded (boot (Stored Examples.ledger2)))) = Returns r /\
    (newCount r + skippedCount r = 2)%nat.
Proof.
  destruct (processPlaces_counts_and_skips Examples.world1
              [Examples.place "Toma Cafe" "maps/1"; Examples.place "Acid Cafe" "maps/3"]
              (loaded (boot (Stored Examples.ledger2))))
    as (_ & added & evs & H).
  cbv zeta in H. destruct H as (_ & _ & _ & _ & H).
  destruct (fst (processPlaces _ _ _)) as [r| |] eqn:E.
  - exists r. split; [reflexivity|]. apply H.
  - exfalso. apply H. split; intros; simpl; discriminate.
  - destruct H.
Defined.

(** C2, at the tier that the code gets wrong.  The table of
    [priceLevelToEuros] holds 0 for the free tier, and the function returns
    2.5 for it: the zero of the table is falsy, so the default replaces
    it. *)
Theorem priceLevelToEuros_free_gives_default :
  ownProperty mapping (lit "PRICE_LEVEL_FREE") = Some 0%Q /\
  priceLevelToEuros (Some (lit "PRICE_LEVEL_FREE")) = VNumber (25 # 10).
Proof. split; reflexivity. Qed.

(** The other four tiers are mapped as the table says, and a missing tier
    to the default. *)
Lemma priceLevelToEuros_other_tiers :
  priceLevelToEuros (Some (lit "PRICE_LEVEL_INEXPENSIVE")) = VNumber (18 # 10) /\
  priceLevelToEuros (Some (lit "PRICE_LEVEL_MODERATE")) = VNumber (25 # 10) /\
  priceLevelToEuros (Some (lit "PRICE_LEVEL_EXPENSIVE")) = VNumber (35 # 10) /\
  priceLevelToEuros (Some (lit "PRICE_LEVEL_VERY_EXPENSIVE")) = VNumber (45 # 10) /\
  priceLevelToEuros None = VNumber (25 # 10).
Proof. repeat split; reflexivity. Qed.

(** A label that is neither a key of the table nor a member of
    [Object.prototype] is mapped to the default. *)
Lemma priceLevelToEuros_unknown (k : jsstring) :
  ownProperty mapping k = None ->
  existsb (eqString k) objectPrototype = false ->
  priceLevelToEuros (Some k) = VNumber (25 # 10).
Proof.
  intros H1 H2. unfold priceLevelToEuros, getProperty. rewrite H1, H2.
  reflexivity.
Qed.

(** C3. When more than half of a batch was skipped, fewer than five
    candidates were new and the retry counter is below its last value, the
    iteration makes one request for another query, after the batch and as
    its last action.  With a suggestion that is not empty and differs from
    the query, the next event of the loop is the discovery call with the
    suggestion; with none, an empty one or the query itself, the loop
    ends. *)
Theorem retry_requests_one_query
    (W : World) (names : list jsstring) (v : LoopVars) (s : State)
    (places : list Place) (r : BatchResult) :
  placesApi W (calls s) (query v) = Some places ->
  fst (processPlaces W places (called (EvFetchPlaces (query v)) s)) = Returns r ->
  (length places < 2 * skippedCount r)%nat ->
  (newCount r < 5)%nat ->
  (retryCount v < MAX_RETRIES - 1)%nat ->
  let s1 := snd (processPlaces W places (called (EvFetchPlaces (query v)) s)) in
  let ask := AskNewQuery (suggestPrompt (query v) (names ++ skippedNames r)) in
  let answer := suggestion (groq W (calls s1) ask) in
  let s2 := called (EvGroq ask) s1 in
  (exists evs,
     trace s2 = trace s ++ [EvFetchPlaces (query v)] ++ evs ++ [EvGroq ask] /\
     count isSuggest evs = 0%nat /\ count isFetch evs = 0%nat) /\
  iteration W names v s = (Returns (decide_step (tally v r) answer), s2) /\
  (forall q, answer = Some q -> q <> [] -> q <> query v ->
     decide_step (tally v r) answer = Continue (retried (tally v r) q) /\
     forall fuel, exists rest,
       trace (snd (loop (S (S fuel)) W names v s))
       = trace s2 ++ EvFetchPlaces q :: rest) /\
  (answer = None \/ answer = Some [] \/ answer = Some (query v) ->
     forall fuel, loop (S fuel) W names v s = (Returns (tally v r), s2)).
Proof.
  intros Hplaces Hr H1 H2 H3 s1 ask answer s2.
  assert (shouldRetry r (length places) (retryCount v) = true) as Hretry
    by (apply IngestFacts.shouldRetry_true; auto).
  assert (iteration W names v s
          = (Returns (decide_step (tally v r) answer), s2)) as Hiter.
  { rewrite IngestFacts.iteration_run, Hplaces. subst s2 answer ask s1.
    destruct (processPlaces W places _) as [o s']. simpl in Hr. subst o.
    rewrite Hretry. reflexivity. }
  assert (retryCount v <? MAX_RETRIES = true)%nat as Hloop
    by (apply Nat.ltb_lt; unfold MAX_RETRIES in *; lia).
  split; [|split; [exact Hiter|split]].
  - destruct (IngestFacts.processPlaces_run W places
                (called (EvFetchPlaces (query v)) s))
      as (o & s' & added & evs & E & HR & _).
    exists evs. subst s2 s1. rewrite E. simpl.
    destruct HR as (_ & _ & _ & _ & -> & Hev & _). simpl.
    rewrite <- !app_assoc. split; [reflexivity|].
    split; (eapply IngestFacts.count_none; [|exact Hev]);
      intros [| [] | | |]; simpl; intros; try discriminate; reflexivity.
  - intros q Hq Hne Hdiff.
    assert (decide_step (tally v r) answer = Continue (retried (tally v r) q))
      as Hstep.
    { rewrite Hq. unfold decide_step. destruct q as [|c t]; [congruence|].
      unfold eqString. simpl. rewrite bool_decide_eq_false_2 by exact Hdiff.
      reflexivity. }
    split; [exact Hstep|]. intros fuel.
    rewrite IngestFacts.loop_eq, Hloop. unfold bind. rewrite Hiter, Hstep.
    apply (IngestFacts.loop_starts fuel W names (retried (tally v r) q) s2).
    simpl. unfold MAX_RETRIES in *. lia.
  - intros Hans fuel.
    rewrite IngestFacts.loop_eq, Hloop. unfold bind. rewrite Hiter.
    assert (decide_step (tally v r) answer = Break (tally v r)) as ->.
    { unfold decide_step.
      destruct Hans as [->|[->| ->]]; try reflexivity.
      destruct (query v) as [|c t] eqn:Eq; [reflexivity|].
      simpl. rewrite <- Eq. unfold eqString.
      rewrite bool_decide_eq_true_2 by reflexivity. reflexivity. }
    reflexivity.
Qed.

Lemma retry_requests_one_query_witness :
  exists step s2,
    iteration Examples.world1 (List.map name Examples.ledger2)
      (firstVars None) (loaded (boot (Stored Examples.ledger2)))
    = (Returns step, s2) /\
    count isSuggest (trace s2) = 1%nat.
Proof.
  pose proof (retry_requests_one_query Examples.world1
                (List.map name Examples.ledger2) (firstVars None)
                (loaded (boot (Stored Examples.ledger2)))
                [Examples.place "Toma Cafe" "maps/1";
                 Examples.place "Hola Coffee" "maps/2";
                 Examples.place "Acid Cafe" "maps/3"]
                {| newCount := 1; skippedCount := 2;
                   skippedNames := [lit "Toma Cafe"; lit "Hola Coffee"] |}
                eq_refl eq_refl) as H.
  cbv zeta in H.
  destruct H as (_ & Hiter & _); [simpl; lia|simpl; lia|unfold MAX_RETRIES; simpl; lia|].
  do 2 eexists. split; [exact Hiter|]. vm_compute. reflexivity.
Defined.

(** C4, as the claim states it, fails: with sixteen names known, a name
    skipped in the round is not in the prompt. *)
Lemma suggestion_prompt_misses_skipped :
  In (lit "Zeta") [lit "Zeta"] /\
  includes (lit "Zeta")
    (suggestPrompt (lit "cafes madrid") (Examples.known16 ++ [lit "Zeta"]))
  = false.
Proof. split; [left; reflexivity|vm_compute; reflexivity]. Qed.

(** C4, amended.  The request for another query carries the prompt made of
    the fixed text around the query and of the first fifteen names of the
    known names followed by the names skipped in the round: at most fifteen
    known names, and of the skipped names only as many as the known names
    leave room for. *)
Theorem suggestion_prompt_names
    (W : World) (names : list jsstring) (v : LoopVars) (s : State)
    (places : list Place) (r : BatchResult) :
  placesApi W (calls s) (query v) = Some places ->
  fst (processPlaces W places (called (EvFetchPlaces (query v)) s)) = Returns r ->
  shouldRetry r (length places) (retryCount v) = true ->
  let s1 := snd (processPlaces W places (called (EvFetchPlaces (query v)) s)) in
  trace (snd (iteration W names v s))
  = trace s1 ++
    [EvGroq (AskNewQuery
               (promptHead (query v)
                ++ join [LF]
                     (firstn 15 names
                      ++ firstn (15 - length names) (skippedNames r))
                ++ promptTail))].
Proof.
  intros Hplaces Hr Hretry s1.
  rewrite IngestFacts.iteration_run, Hplaces. subst s1.
  destruct (processPlaces W places _) as [o s']. simpl in Hr. subst o.
  rewrite Hretry. cbv zeta. simpl.
  unfold suggestPrompt. rewrite firstn_app. reflexivity.
Qed.

Lemma suggestion_prompt_names_witness :
  count isSuggest
    (trace (snd (iteration Examples.world1 (List.map name Examples.ledger2)
                   (firstVars None) (loaded (boot (Stored Examples.ledger2))))))
  = 1%nat.
Proof.
  rewrite (suggestion_prompt_names Examples.world1
             (List.map name Examples.ledger2) (firstVars None)
             (loaded (boot (Stored Examples.ledger2)))
             [Examples.place "Toma Cafe" "maps/1";
              Examples.place "Hola Coffee" "maps/2";
              Examples.place "Acid Cafe" "maps/3"]
             {| newCount := 1; skippedCount := 2;
                skippedNames := [lit "Toma Cafe"; lit "Hola Coffee"] |}
             eq_refl eq_refl eq_refl).
  vm_compute. reflexivity.
Defined.

(** C5, as the claim states it, fails: in this run the first batch appends
    an entry and is followed by a second discovery call, and the ledger is
    saved once, after the second batch. *)
Lemma ledger_not_saved_between_batches :
  let res := main Examples.world1 None (boot (Stored Examples.ledger2)) in
  (exists v, fst res = Returns v /\ totalNew v = 1%nat) /\
  count isFetch (trace (snd res)) = 2%nat /\
  count isSave (trace (snd res)) = 1%nat /\
  savedEachBatch false (trace (snd res)) = false.
Proof.
  cbv zeta. split; [eexists; split; vm_compute; reflexivity|].
  repeat split; vm_compute; reflexivity.
Qed.

(** C5, amended.  A run of [main] saves the ledger once, after its loop has
    ended: when [main] returns, the last two events are the save of the
    whole ledger in memory, which is the ledger as loaded followed by the
    entries appended in all the batches of the run, and the report; no
    event before them is a save.  When a call throws during the loop, the
    ledger file is left as it was. *)
Theorem ledger_saved_once_after_loop
    (W : World) (argv2 : option jsstring) (s : State) :
  exists added evs,
    let res := main W argv2 s in
    let spots := loadProcessedSpots (ledgerFile s) ++ added in
    count isSave evs = 0%nat /\
    processedSpots (snd res) = spots /\
    match fst res with
    | Returns v =>
        ledgerFile (snd res) = Stored spots /\
        trace (snd res)
        = trace s ++ evs ++
          [EvSaveLedger spots;
           EvReport (totalNew v) (totalSkipped v) (length spots) (retryCount v)]
    | Throws =>
        ledgerFile (snd res) = ledgerFile s /\
        trace (snd res) = trace s ++ evs
    | OutOfFuel => False
    end.
Proof.
  destruct (IngestFacts.main_ran W argv2 s)
    as (o & s' & added & evs & E & _ & _ & Hev & _ & Ho).
  exists added, evs. cbv zeta. rewrite E. simpl.
  split.
  { eapply IngestFacts.count_none; [|exact Hev].
    intros [| [] | | |]; simpl; intros; try discriminate; reflexivity. }
  destruct o as [v| |]; [| |destruct Ho].
  - destruct Ho as (A & B & C). auto.
  - destruct Ho as (A & B & C). auto.
Qed.

(** C9. A discovery call that finds nothing ends the loop: the iteration
    neither throws nor asks for another query, and leaves the totals as
    they were; the quotient of the two zero counters is [NaN], which is not
    greater than one half.  When it is the first call of the run, [main]
    returns with no retry, saves the ledger as it was loaded and reports
    no new and no skipped candidate. *)
Theorem empty_batch_ends_run
    (W : World) (argv2 : option jsstring) (s : State) :
  placesApi W (calls s) (orString argv2 defaultQuery) = Some [] ->
  let q := orString argv2 defaultQuery in
  let spots := loadProcessedSpots (ledgerFile s) in
  gtHalf (divide 0 0) = false /\
  (forall names v st,
     placesApi W (calls st) (query v) = Some [] ->
     exists v',
       iteration W names v st
       = (Returns (Break v'), called (EvFetchPlaces (query v)) st) /\
       query v' = query v /\ retryCount v' = retryCount v /\
       totalNew v' = totalNew v /\ totalSkipped v' = totalSkipped v) /\
  exists s',
    main W argv2 s
    = (Returns {| query := q; retryCount := 0; totalNew := 0;
                  totalSkipped := 0 |}, s') /\
    ledgerFile s' = Stored spots /\
    processedSpots s' = spots /\
    trace s'
    = trace s ++ [EvFetchPlaces q; EvSaveLedger spots;
                  EvReport 0 0 (length spots) 0].
Proof.
  intros Hempty q spots.
  assert (forall names v st,
            placesApi W (calls st) (query v) = Some [] ->
            iteration W names v st
            = (Returns (Break (tally v {| newCount := 0; skippedCount := 0;
                                          skippedNames := [] |})),
               called (EvFetchPlaces (query v)) st)) as Hiter.
  { intros names v st H. rewrite IngestFacts.iteration_run, H. reflexivity. }
  split; [reflexivity|]. split.
  - intros names v st H. eexists. split; [apply Hiter, H|].
    simpl. repeat split; lia.
  - rewrite IngestFacts.main_run, IngestFacts.loop_eq. simpl.
    unfold bind. rewrite Hiter by exact Hempty.
    eexists. split; [reflexivity|]. unfold finished. simpl.
    rewrite <- app_assoc. repeat split.
Qed.

Lemma empty_batch_ends_run_witness :
  exists s',
    main Examples.world0 None (boot Missing)
    = (Returns {| query := defaultQuery; retryCount := 0; totalNew := 0;
                  totalSkipped := 0 |}, s') /\
    ledgerFile s' = Stored [].
Proof.
  destruct (empty_batch_ends_run Examples.world0 None (boot Missing) eq_refl)
    as (_ & _ & s' & Hmain & Hfile & _).
  exists s'. split; [exact Hmain|exact Hfile].
Defined.

(** ** What the specification says of the review refiner *)

Import Refine RefineObs.

Lemma buildMdx_shape fm body author :
  buildMdx fm body author
  = fence ++ patchAuthor fm author ++ delimiter ++ LF :: body ++ [LF].
Proof. reflexivity. Qed.

(** C10. For a frontmatter with no quoted author field and no quoted title
    field, the header that [buildMdx] writes is the frontmatter as it is,
    whatever the author. *)
Theorem buildMdx_without_title_adds_no_author (fm body author : jsstring) :
  findField (lit "author:") false fm = None ->
  findField (lit "title:") false fm = None ->
  buildMdx fm body author
  = lit "---" ++ [LF] ++ fm ++ [LF] ++ lit "---" ++ [LF; LF] ++ body ++ [LF].
Proof.
  intros Ha Ht. unfold buildMdx.
  rewrite (RefineFacts.patch_nothing fm author Ha Ht). reflexivity.
Qed.

Lemma buildMdx_without_title_adds_no_author_witness :
  buildMdx (lit "neighborhood: Sol") (lit "## New") (lit "sara")
  = lit "---" ++ [LF] ++ lit "neighborhood: Sol" ++ [LF] ++ lit "---"
    ++ [LF; LF] ++ lit "## New" ++ [LF].
Proof.
  apply buildMdx_without_title_adds_no_author; vm_compute; reflexivity.
Defined.

(** C6, as the claim states it, fails: the file parses, and after the
    rewrite neither the body nor the author field is the one given.  The
    body is the one [refineReview] returns for an empty completion. *)
Lemma rewrite_round_trip_fails :
  let original :=
    lit "---" ++ [LF] ++ lit "name: Toma" ++ [LF] ++ lit "---" ++ [LF; LF]
    ++ lit "old" ++ [LF] in
  let newBody := lit "## The Vibe" ++ [LF; LF] in
  let author := lit "sara" in
  exists fm oldBody header body,
    parseMdx original = Some (fm, oldBody) /\
    parseMdx (buildMdx fm newBody author) = Some (header, body) /\
    body <> newBody /\ authorField header <> Some author.
Proof.
  cbv zeta. do 4 eexists.
  split; [vm_compute; reflexivity|].
  split; [vm_compute; reflexivity|].
  split; [vm_compute; discriminate|vm_compute; discriminate].
Qed.

(** C6, amended.  For a content file that parses, whose frontmatter has a
    quoted author field, or has a quoted title field and does not contain
    the text of the key of an author field: with a new body that has no
    white space at either end and an author that is not empty and has no
    dollar, double quote or line feed, the rewritten file parses to the
    new body, and the author field of its header is the author. *)
Theorem rewrite_round_trip (original fm oldBody newBody author : jsstring) :
  parseMdx original = Some (fm, oldBody) ->
  hasAuthorSlot fm = true ->
  plainAuthor author = true ->
  trim newBody = newBody ->
  exists header,
    parseMdx (buildMdx fm newBody author) = Some (header, newBody) /\
    authorField header = Some author.
Proof.
  intros Hparse Hslot Hp Htrim.
  apply RefineFacts.parse_shape in Hparse as (rest & _ & _ & Hclear).
  exists (patchAuthor fm author). rewrite buildMdx_shape.
  assert (Clear (patchAuthor fm author) /\
          authorField (patchAuthor fm author) = Some author) as [Hc Ha].
  { unfold hasAuthorSlot in Hslot. unfold authorField.
    destruct (findField (lit "author:") false fm) as [[[[b m] v] a]|] eqn:Ef.
    - rewrite (RefineFacts.patch_replace _ _ _ _ _ _ Hp Ef).
      destruct (RefineFacts.findField_Some _ _ _ _ _ _ _ Ef) as (Hfm & Hm & _).
      rewrite Hfm in Hclear, Ef.
      rewrite (RefineFacts.author_found_replace _ _ _ _ _ Hp Ef).
      split; [|reflexivity]. eapply RefineFacts.Clear_replace; eauto.
    - apply andb_true_iff in Hslot as [Hi Ht]. apply negb_true_iff in Hi.
      destruct (findField (lit "title:") false fm) as [[[[b m] v] a]|] eqn:Et;
        [|discriminate].
      rewrite (RefineFacts.patch_insert _ _ _ _ _ _ Hp Hi Et).
      destruct (RefineFacts.findField_Some _ _ _ _ _ _ _ Et) as (Hfm & Hm & _).
      rewrite Hfm in Hclear, Hi.
      rewrite (RefineFacts.author_found_insert _ _ _ _ Hp Hi).
      split; [|reflexivity]. eapply RefineFacts.Clear_insert; eauto. }
  split; [|exact Ha].
  rewrite (RefineFacts.clear_parse _ _ Hc), StringFacts.trim_between_line_feeds.
  rewrite Htrim. reflexivity.
Qed.

Lemma rewrite_round_trip_witness :
  exists header,
    parseMdx
      (buildMdx (lit "title: " ++ [QUOTE] ++ lit "Toma" ++ [QUOTE])
         (lit "## New") (lit "sara"))
    = Some (header, lit "## New") /\
    authorField header = Some (lit "sara").
Proof.
  apply (rewrite_round_trip
           (lit "---" ++ [LF] ++ lit "title: " ++ [QUOTE] ++ lit "Toma"
            ++ [QUOTE] ++ [LF] ++ lit "---" ++ [LF; LF] ++ lit "old" ++ [LF])
           (lit "title: " ++ [QUOTE] ++ lit "Toma" ++ [QUOTE])
           (lit "old"));
    vm_compute; reflexivity.
Defined.

(** ** The two ledgers *)

(** C8. Each of the two scripts keeps the keys of its ledger distinct: when
    the ledger file holds no two entries with the same address on the map
    (for the spot-fetching script) or with the same file name (for the
    review refiner), it still does after any number of runs, whatever the
    discovery calls return, the same candidate several times in a batch
    included, and whatever the spots directory holds before each run. *)
Theorem ledger_keys_stay_distinct :
  (forall (rs : list (Ingest.World * option jsstring)) (f : Ingest.LedgerFile),
     NoDup (List.map Ingest.uri (Ingest.loadProcessedSpots f)) ->
     NoDup (List.map Ingest.uri
              (Ingest.loadProcessedSpots (IngestRuns.runs rs f)))) /\
  (forall (rs : list (Refine.World * option jsstring * gmap jsstring jsstring))
          (f : Refine.LedgerFile),
     NoDup (List.map Refine.filename (RefineObs.load f)) ->
     NoDup (List.map Refine.filename (RefineObs.load (RefineObs.runs rs f)))).
Proof.
  split.
  - intros rs f. apply IngestFacts.ingest_runs_ledger.
  - intros rs f. apply RefineRuns.refine_runs_ledger.
Qed.

Lemma ledger_keys_stay_distinct_witness :
  NoDup (List.map Ingest.uri
           (Ingest.loadProcessedSpots
              (IngestRuns.runs
                 [(Examples.worldTwice, None); (Examples.world1, None)]
                 (Ingest.Stored Examples.ledger2)))) /\
  length (Ingest.loadProcessedSpots
            (IngestRuns.runs [(Examples.worldTwice, None)]
               (Ingest.Stored Examples.ledger2))) = 3%nat.
Proof.
  split; [|vm_compute; reflexivity].
  apply (proj1 ledger_keys_stay_distinct).
  apply NoDup_ListNoDup. vm_compute.
  repeat constructor; simpl; intuition discriminate.
Defined.

(** ** More on the strings of the scripts *)

Module TrimFacts.

Lemma trimStart_head s :
  match trimStart s with
  | c :: _ => isSpace c = false
  | [] => True
  end.
Proof.
  induction s as [|c s IH]; simpl; [exact I|].
  destruct (isSpace c) eqn:E; [exact IH|exact E].
Qed.

Lemma trimStart_fixed c s : isSpace c = false -> trimStart (c :: s) = c :: s.
Proof. simpl. intros ->. reflexivity. Qed.

Lemma trimStart_idem s : trimStart (trimStart s) = trimStart s.
Proof.
  pose proof (trimStart_head s) as H. destruct (trimStart s) as [|c r];
    [reflexivity|]. apply trimStart_fixed, H.
Qed.

Lemma trimStart_snoc y c :
  isSpace c = false -> trimStart (y ++ [c]) = trimStart y ++ [c].
Proof.
  intros Hc. induction y as [|x y IH]; simpl; [rewrite Hc; reflexivity|].
  destruct (isSpace x); [exact IH|reflexivity].
Qed.

Lemma trimEnd_cons c s : isSpace c = false -> trimEnd (c :: s) = c :: trimEnd s.
Proof.
  intros Hc. unfold trimEnd. simpl. rewrite (trimStart_snoc _ _ Hc).
  rewrite rev_app_distr. reflexivity.
Qed.

Lemma trimEnd_idem s : trimEnd (trimEnd s) = trimEnd s.
Proof. unfold trimEnd. rewrite rev_involutive, trimStart_idem. reflexivity. Qed.

(** [trim] applied twice is [trim]. *)
Lemma trim_idem s : trim (trim s) = trim s.
Proof.
  unfold trim. pose proof (trimStart_head s) as H.
  destruct (trimStart s) as [|c r]; [reflexivity|].
  rewrite (trimEnd_cons c r H), (trimStart_fixed c _ H), <- (trimEnd_cons c r H).
  apply trimEnd_idem.
Qed.

Lemma forallb_rev (p : N -> bool) s : forallb p (rev s) = forallb p s.
Proof.
  induction s as [|c s IH]; simpl; [reflexivity|].
  rewrite forallb_app, IH. simpl. rewrite andb_true_r. apply andb_comm.
Qed.

Lemma forallb_trimStart (p : N -> bool) s :
  forallb p s = true -> forallb p (trimStart s) = true.
Proof.
  induction s as [|c s IH]; simpl; [auto|]. intros H.
  destruct (isSpace c); [|exact H].
  apply andb_true_iff in H as [_ H]. auto.
Qed.

(** What holds of every code unit of a string holds of those that [trim]
    keeps. *)
Lemma forallb_trim (p : N -> bool) s :
  forallb p s = true -> forallb p (trim s) = true.
Proof.
  intros H. unfold trim, trimEnd. rewrite forallb_rev.
  apply forallb_trimStart. rewrite forallb_rev. apply forallb_trimStart, H.
Qed.

Lemma firstLine_notLF s : forallb (fun c => negb (c =? LF)) (firstLine s) = true.
Proof.
  induction s as [|c s IH]; simpl; [reflexivity|].
  destruct (c =? LF) eqn:E; [reflexivity|]. simpl. rewrite E, IH. reflexivity.
Qed.

Lemma forallb_firstLine (p : N -> bool) s :
  forallb p s = true -> forallb p (firstLine s) = true.
Proof.
  induction s as [|c s IH]; simpl; [auto|]. intros H.
  apply andb_true_iff in H as [Hc Hs].
  destruct (c =? LF); [reflexivity|]. simpl. rewrite Hc. auto.
Qed.

Lemma removeQuotes_notQuote s :
  forallb (fun c => negb (c =? QUOTE)) (removeQuotes s) = true.
Proof.
  unfold removeQuotes. induction s as [|c s IH]; simpl; [reflexivity|].
  destruct (c =? QUOTE) eqn:E; simpl; [exact IH|]. rewrite E, IH. reflexivity.
Qed.

End TrimFacts.

(** ** More on the spot-fetching script *)

Import Ingest IngestObs MoreObs.

(** X1. The one-line clean-up that the three short requests share
    (neighborhood, name, query): its result has no double quote and no line
    feed, and no white space at either end. *)
Theorem oneLine_is_clean (s : jsstring) :
  forallb (fun c => negb (c =? QUOTE)) (oneLine s) = true /\
  forallb (fun c => negb (c =? LF)) (oneLine s) = true /\
  trim (oneLine s) = oneLine s.
Proof.
  unfold oneLine. split; [|split].
  - apply TrimFacts.forallb_trim, TrimFacts.forallb_firstLine,
      TrimFacts.removeQuotes_notQuote.
  - apply TrimFacts.forallb_trim, TrimFacts.firstLine_notLF.
  - apply TrimFacts.trim_idem.
Qed.

Module IngestMore.
Import IngestFacts.

Lemma oneLine_Centro : oneLine (lit "Centro") = lit "Centro".
Proof. reflexivity. Qed.

(** A new candidate that is processed to the end: the entry appended and
    the file written. *)
Lemma processPlace_new W place acc s acc' s' :
  uriOf place ∉ processedUris s ->
  processPlace W place acc s = (Returns acc', s') ->
  exists e f s1,
    Enriched s s1 /\ s' = recorded e (fileOf e) f s1 /\ acc' = keep acc /\
    uri e = uriOf place /\ name e = nameOf place /\
    neighborhood e = sf_neighborhood f /\
    (exists cn, sf_title f = titleOf place cn) /\
    slug e = Slug.slugify (unicode W) (neighborhood e) ++ [HYPHEN]
             ++ Slug.slugify (unicode W) (sf_title f) /\
    sf_author f = lit "murad-madi" /\
    sf_coffee_price f = priceLevelToEuros (priceLevel place) /\
    processedAt e = clock W (calls s1).
Proof.
  intros Hu. unfold processPlace, bind at 1, hasUri.
  fold (uriOf place). fold (nameOf place).
  rewrite bool_decide_eq_false_2 by exact Hu.
  unfold bind at 1.
  destruct (inferNeighborhood_run W (nameOf place)
              (orString (formattedAddress place) []) s) as [nb ->].
  set (s1 := called _ s).
  assert (Enriched s s1) as H1 by (apply Enriched_called; reflexivity).
  unfold bind at 1.
  destruct (cleanCafeName_run W (nameOf place) s1) as [cn ->].
  set (s2 := called _ s1).
  assert (Enriched s s2) as H2.
  { eapply Enriched_trans; [exact H1|]. apply Enriched_called; reflexivity. }
  unfold bind at 1.
  destruct (synthesizeReview_run W cn (reviews place) (rating place) s2)
    as (o & s3 & -> & H3 & Ho & Hen).
  assert (Enriched s s3) as H3' by (eapply Enriched_trans; eauto).
  destruct o as [[syn|]| |]; try discriminate.
  unfold bind, generateMdx, ret, emit, nextCall, pushSpot.
  cbv beta iota zeta. intros H. injection H as <- <-.
    set (title := match cn with
                  | [] => orString (displayName place) (lit "Unknown Cafe")
                  | _ :: _ => cn
                  end).
    set (sl := Slug.slugify (unicode W) nb ++ [HYPHEN]
               ++ Slug.slugify (unicode W) title).
    exists {| uri := uriOf place; name := nameOf place; neighborhood := nb;
              slug := sl; processedAt := clock W (calls s3) |},
      {| sf_title := title; sf_author := lit "murad-madi";
         sf_neighborhood := nb; sf_wifi_speed := wifi_speed syn;
         sf_noise_level := noise_level syn; sf_plug_access := plug_access syn;
         sf_coffee_price := priceLevelToEuros (priceLevel place);
         sf_casi_score := casi_score syn;
         sf_lat := orNumber (latitude place) (40416775 # 1000000);
         sf_long := orNumber (longitude place) (- 370379 # 100000);
         sf_review := review syn |}, s3.
    split; [exact H3'|]. split; [reflexivity|].
    cbn [uri name neighborhood slug processedAt sf_title sf_author
         sf_neighborhood sf_coffee_price].
    repeat split. exists cn. reflexivity.
Qed.

Lemma processPlace_known W place acc s :
  uriOf place ∈ processedUris s ->
  processPlace W place acc s = (Returns (skip place acc), s).
Proof.
  intros Hu.
  destruct (processPlace_run W place acc s)
    as (o & s' & E & [(_ & -> & ->)|(Hn & _)]); [exact E|].
  destruct (Hn Hu).
Qed.

Lemma writtenFiles_app a b : writtenFiles (a ++ b) = writtenFiles a ++ writtenFiles b.
Proof.
  induction a as [|e a IH]; simpl; [reflexivity|].
  destruct e; simpl; rewrite IH; reflexivity.
Qed.

Lemma writtenFiles_enrich evs : forallb isEnrich evs = true -> writtenFiles evs = [].
Proof.
  induction evs as [|e evs IH]; simpl; [reflexivity|]. intros H.
  apply andb_true_iff in H as [He Hr]. destruct e; try discriminate; auto.
Qed.

Lemma slugify_slugOrEmpty U x : slugOrEmpty (Slug.slugify U x) = true.
Proof.
  destruct (SlugFacts.slug_shape
              (Slug.collapseNonAlnum
                 (Slug.removeDiacritics (normalizeNFD U (toLowerCase U x))))
              (proj1 (SlugFacts.collapseFrom_collapsed false _))) as [H|H];
    unfold Slug.slugify, slugOrEmpty.
  - rewrite H. reflexivity.
  - destruct (Slug.trimHyphens _); [reflexivity|exact H].
Qed.

(** A batch that returns, against the partition of its candidates. *)
Lemma processFrom_detail W places acc s r s' :
  processFrom W places acc s = (Returns r, s') ->
  exists added evs,
    processedSpots s' = processedSpots s ++ added /\
    trace s' = trace s ++ evs /\
    processedUris s'
    = list_to_set (List.map uriOf places) ∪ processedUris s /\
    List.map uri added
    = List.map uriOf (fst (partitionNew (processedUris s) places)) /\
    List.map name added
    = List.map nameOf (fst (partitionNew (processedUris s) places)) /\
    skippedNames r
    = skippedNames acc
      ++ List.map nameOf (snd (partitionNew (processedUris s) places)) /\
    newCount r
    = (newCount acc + length (fst (partitionNew (processedUris s) places)))%nat /\
    skippedCount r
    = (skippedCount acc
       + length (snd (partitionNew (processedUris s) places)))%nat /\
    writtenFiles evs = List.map fileOf added /\
    Forall (wellSlugged W) added.
Proof.
  revert acc s. induction places as [|p rest IH]; intros acc s.
  - simpl. intros [= <- <-]. exists [], []. simpl. rewrite !app_nil_r.
    repeat split; auto; try lia. set_solver.
  - cbn [processFrom partitionNew]. unfold bind at 1.
    destruct (decide (uriOf p ∈ processedUris s)) as [Hk|Hn].
    + rewrite (processPlace_known W p acc s Hk).
      rewrite bool_decide_eq_true_2 by exact Hk.
      intros H. destruct (IH _ _ H)
        as (added & evs & A1 & A2 & A3 & A4 & A5 & A6 & A7 & A8 & A9 & A10).
      destruct (partitionNew (processedUris s) rest) as [n k].
      exists added, evs. cbn [fst snd skip skippedNames skippedCount newCount] in *.
      split; [exact A1|]. split; [exact A2|].
      split; [rewrite A3; cbn [List.map]; set_solver|].
      split; [exact A4|]. split; [exact A5|].
      split; [rewrite A6, <- app_assoc; reflexivity|].
      split; [exact A7|]. split; [cbn [length]; lia|]. auto.
    + rewrite bool_decide_eq_false_2 by exact Hn.
      destruct (processPlace W p acc s) as [[acc1| |] s1] eqn:E; try discriminate.
      destruct (processPlace_new W p acc s acc1 s1 Hn E)
        as (e & f & s0 & HE & -> & -> & B1 & B2 & B3 & [cn B4] & B5 & _).
      destruct HE as (E1 & E2 & E3 & E4 & evs0 & E5 & E6).
      intros H. destruct (IH _ _ H)
        as (added & evs & A1 & A2 & A3 & A4 & A5 & A6 & A7 & A8 & A9 & A10).
      cbn [recorded processedSpots processedUris trace keep skippedNames
           skippedCount newCount] in *.
      rewrite E2, B1 in *.
      destruct (partitionNew ({[uriOf p]} ∪ processedUris s) rest) as [n k].
      cbn [fst snd] in *.
      exists (e :: added), (evs0 ++ [EvWriteSpot (fileOf e) f] ++ evs).
      split; [rewrite A1, E1, <- app_assoc; reflexivity|].
      split; [rewrite A2, E5, <- !app_assoc; reflexivity|].
      split; [rewrite A3; cbn [List.map]; set_solver|].
      split; [cbn [List.map]; rewrite A4, B1; reflexivity|].
      split; [cbn [List.map]; rewrite A5, B2; reflexivity|].
      split; [exact A6|]. split; [cbn [length]; lia|]. split; [exact A8|].
      split.
      * rewrite !writtenFiles_app, (writtenFiles_enrich _ E6).
        cbn [writtenFiles app List.map]. rewrite A9. reflexivity.
      * constructor; [|exact A10]. exists (Slug.slugify (unicode W) (sf_title f)).
        split; [exact B5|apply slugify_slugOrEmpty].
Qed.

(** When every candidate is known, the batch skips them all and leaves the
    state as it was. *)
Lemma processFrom_all_known W places acc s :
  (forall p, p ∈ places -> uriOf p ∈ processedUris s) ->
  processFrom W places acc s
  = (Returns {| newCount := newCount acc;
                skippedCount := skippedCount acc + length places;
                skippedNames := skippedNames acc ++ List.map nameOf places |},
     s).
Proof.
  revert acc. induction places as [|p rest IH]; intros acc H.
  - simpl. rewrite Nat.add_0_r, app_nil_r. destruct acc. reflexivity.
  - cbn [processFrom]. unfold bind.
    rewrite (processPlace_known W p acc s) by (apply H; left).
    rewrite IH by (intros q Hq; apply H; right; exact Hq).
    cbn [skip newCount skippedCount skippedNames length List.map].
    rewrite <- app_assoc. do 3 f_equal. lia.
Qed.

Lemma join_nonempty sep x xs : x <> [] -> join sep (x :: xs) <> [].
Proof.
  intros Hx. destruct xs; simpl; [exact Hx|].
  destruct x; [contradiction|discriminate].
Qed.

(** The texts that [synthesizeReview] joins. *)
Lemma texts_of_reviews (l : list (option jsstring)) :
  let texts :=
    List.filter (fun t : jsstring => match t with [] => false | _ => true end)
      (List.map (fun r => orString r []) l) in
  if existsb hasText l then exists x xs, texts = x :: xs /\ x <> []
  else texts = [].
Proof.
  induction l as [|r l IH]; simpl; [reflexivity|].
  destruct r as [[|c t]|]; simpl; try exact IH.
  exists (c :: t), (List.filter
                      (fun t : jsstring => match t with [] => false | _ => true end)
                      (List.map (fun r => orString r []) l)).
  split; [reflexivity|discriminate].
Qed.

Lemma reviewsText_firstReviews rs :
  if existsb hasText (firstReviews rs)
  then exists c t, reviewsText rs = Some (c :: t)
  else reviewsText rs = None \/ reviewsText rs = Some [].
Proof.
  unfold firstReviews, reviewsText. destruct rs as [l|]; [|simpl; auto].
  pose proof (texts_of_reviews (firstn 5 l)) as H. cbv zeta in H.
  destruct (existsb hasText (firstn 5 l)).
  - destruct H as (x & xs & -> & Hx).
    pose proof (join_nonempty (LF :: lit "---" ++ [LF]) x xs Hx) as Hj.
    destruct (join _ _) as [|c t]; [contradiction|]. eauto.
  - rewrite H. auto.
Qed.

(** *** The loop, call by call *)

Lemma count_one p e : count p [e] = if p e then 1%nat else 0%nat.
Proof. unfold count. simpl. destruct (p e); reflexivity. Qed.

Lemma iteration_detail W names v s :
  exists o s' added evs,
    iteration W names v s = (o, s') /\
    processedSpots s' = processedSpots s ++ added /\
    trace s' = trace s ++ evs /\
    count isWrite evs = length added /\
    count isFetch evs = 1%nat /\
    (count isSuggest evs <= 1)%nat /\
    (count isSuggest evs = 1%nat -> (S (retryCount v) < MAX_RETRIES)%nat) /\
    match o with
    | Returns (Continue v') =>
        retryCount v' = S (retryCount v) /\
        totalNew v' = (totalNew v + length added)%nat /\
        count isSuggest evs = 1%nat
    | Returns (Break v') =>
        retryCount v' = retryCount v /\
        totalNew v' = (totalNew v + length added)%nat
    | Throws => ~ Enrichable W \/ exists n q, placesApi W n q = None
    | OutOfFuel => False
    end.
Proof.
  rewrite iteration_run.
  destruct (placesApi W (calls s) (query v)) as [places|] eqn:Hp.
  2: { exists Throws, (called (EvFetchPlaces (query v)) s), [],
         [EvFetchPlaces (query v)].
       split; [reflexivity|]. cbn [called processedSpots trace].
       rewrite app_nil_r, !count_one. cbn [isWrite isFetch isSuggest length].
       repeat split; auto; try lia; try discriminate. right. eauto. }
  destruct (processPlaces_run W places (called (EvFetchPlaces (query v)) s))
    as (o & s1 & added & evs & -> & HR & Ho).
  destruct HR as (A1 & _ & _ & _ & A5 & A6 & A7 & _).
  assert (count isFetch evs = 0%nat) as Hf.
  { apply (count_none isBatchEvent); [|exact A6]. intros [| [] | | |]; auto. }
  assert (count isSuggest evs = 0%nat) as Hs.
  { apply (count_none isBatchEvent); [|exact A6]. intros [| [] | | |]; auto;
      discriminate. }
  cbn [called processedSpots trace] in A1, A5.
  destruct o as [r| |].
  - destruct Ho as [Hn _].
    destruct (shouldRetry r (length places) (retryCount v)) eqn:Hr.
    + cbv zeta. set (ask := AskNewQuery _). set (answer := suggestion _).
      exists (Returns (decide_step (tally v r) answer)), (called (EvGroq ask) s1),
        added, ([EvFetchPlaces (query v)] ++ evs ++ [EvGroq ask]).
      split; [reflexivity|]. cbn [called processedSpots trace].
      split; [exact A1|]. split; [rewrite A5, <- !app_assoc; reflexivity|].
      rewrite !count_app, Hf, Hs, A7, !count_one. subst ask.
      cbn [isWrite isFetch isSuggest].
      apply shouldRetry_true in Hr as (_ & _ & Hr). unfold MAX_RETRIES in *.
      split; [lia|]. split; [lia|]. split; [lia|]. split; [lia|].
      unfold decide_step. destruct answer as [[|c t]|]; simpl; try (split; lia).
      destruct (negb _); simpl; repeat split; lia.
    + exists (Returns (Break (tally v r))), s1, added,
        ([EvFetchPlaces (query v)] ++ evs).
      split; [reflexivity|]. split; [exact A1|].
      split; [rewrite A5, <- !app_assoc; reflexivity|].
      rewrite !count_app, Hf, Hs, A7, !count_one.
      cbn [isWrite isFetch isSuggest tally retryCount totalNew].
      repeat split; lia.
  - exists Throws, s1, added, ([EvFetchPlaces (query v)] ++ evs).
    split; [reflexivity|]. split; [exact A1|].
    split; [rewrite A5, <- !app_assoc; reflexivity|].
    rewrite !count_app, Hf, Hs, A7, !count_one.
    cbn [isWrite isFetch isSuggest].
    repeat split; try lia. left. exact Ho.
  - destruct Ho.
Qed.

Lemma loop_detail fuel W names v s :
  (MAX_RETRIES <= fuel + retryCount v)%nat ->
  (retryCount v < MAX_RETRIES)%nat ->
  exists o s' added evs,
    loop fuel W names v s = (o, s') /\
    processedSpots s' = processedSpots s ++ added /\
    trace s' = trace s ++ evs /\
    count isWrite evs = length added /\
    (1 <= count isFetch evs)%nat /\
    (count isFetch evs + retryCount v <= MAX_RETRIES)%nat /\
    (count isSuggest evs + retryCount v <= MAX_RETRIES - 1)%nat /\
    match o with
    | Returns v' =>
        totalNew v' = (totalNew v + length added)%nat /\
        (count isFetch evs + retryCount v = S (retryCount v'))%nat /\
        (retryCount v' <= count isSuggest evs + retryCount v)%nat /\
        (count isSuggest evs + retryCount v <= S (retryCount v'))%nat
    | Throws => ~ Enrichable W \/ exists n q, placesApi W n q = None
    | OutOfFuel => False
    end.
Proof.
  revert v s. induction fuel as [|fuel IH]; intros v s Hfuel Hlt; [simpl in *; lia|].
  rewrite loop_eq. destruct (Nat.ltb_spec (retryCount v) MAX_RETRIES); [|lia].
  unfold bind.
  destruct (iteration_detail W names v s)
    as (o & s1 & a1 & e1 & -> & B1 & B2 & B3 & B4 & B5 & B6 & Ho).
  destruct o as [[v'|v']| |].
  - destruct Ho as (C1 & C2 & C3).
    destruct (IH v' s1)
      as (o & s2 & a2 & e2 & -> & D1 & D2 & D3 & D0 & D4 & D5 & Ho2);
      [lia|rewrite C1; auto|].
    exists o, s2, (a1 ++ a2), (e1 ++ e2). split; [reflexivity|].
    split; [rewrite D1, B1, <- app_assoc; reflexivity|].
    split; [rewrite D2, B2, <- app_assoc; reflexivity|].
    rewrite !count_app, length_app. unfold MAX_RETRIES in *.
    split; [lia|]. split; [lia|]. split; [lia|]. split; [lia|].
    destruct o as [v2| |]; [|exact Ho2|exact Ho2]. lia.
  - destruct Ho as (C1 & C2).
    exists (Returns v'), s1, a1, e1. split; [reflexivity|].
    unfold MAX_RETRIES in *. repeat split; auto; lia.
  - exists Throws, s1, a1, e1. split; [reflexivity|].
    unfold MAX_RETRIES in *. repeat split; auto; lia.
  - destruct Ho.
Qed.

(** A run as a whole, call by call. *)
Lemma main_detail W argv2 s :
  exists o s' added evs,
    main W argv2 s = (o, s') /\
    processedSpots s' = loadProcessedSpots (ledgerFile s) ++ added /\
    count isWrite evs = length added /\
    (1 <= count isFetch evs <= MAX_RETRIES)%nat /\
    (count isSuggest evs <= MAX_RETRIES - 1)%nat /\
    count isSave evs = 0%nat /\
    match o with
    | Returns v =>
        trace s' = trace s ++ evs ++
                   [EvSaveLedger (processedSpots s');
                    EvReport (totalNew v) (totalSkipped v)
                      (length (processedSpots s')) (retryCount v)] /\
        totalNew v = length added /\
        count isFetch evs = S (retryCount v) /\
        (retryCount v <= count isSuggest evs <= S (retryCount v))%nat
    | Throws =>
        trace s' = trace s ++ evs /\
        (~ Enrichable W \/ exists n q, placesApi W n q = None)
    | OutOfFuel => False
    end.
Proof.
  rewrite main_run.
  destruct (loop_ran MAX_RETRIES W
              (List.map name (loadProcessedSpots (ledgerFile s)))
              (firstVars argv2) (loaded s))
    as (o0 & s0 & added0 & evs0 & E0 & HR & _); [unfold MAX_RETRIES; simpl; lia|].
  destruct (loop_detail MAX_RETRIES W
              (List.map name (loadProcessedSpots (ledgerFile s)))
              (firstVars argv2) (loaded s))
    as (o & s1 & added & evs & E & A1 & A2 & A3 & A0 & A4 & A5 & Ho);
    [unfold MAX_RETRIES; simpl; lia|unfold MAX_RETRIES; simpl; lia|].
  rewrite E in E0. injection E0 as <- <-.
  destruct HR as (_ & _ & _ & _ & R5 & R6 & _).
  rewrite A2 in R5. apply app_inv_head in R5. subst evs0.
  assert (count isSave evs = 0%nat) as Hsave.
  { apply (count_none isLoopEvent); [|exact R6]. intros [| [] | | |]; auto;
      discriminate. }
  rewrite E. cbn [loaded firstVars processedSpots trace retryCount totalNew] in *.
  destruct o as [v| |].
  - destruct Ho as (C1 & C2 & C3 & C4).
    exists (Returns v), (finished v s1), added, evs. split; [reflexivity|].
    cbn [finished processedSpots trace]. unfold MAX_RETRIES in *.
    split; [exact A1|]. split; [exact A3|]. split; [lia|]. split; [lia|].
    split; [exact Hsave|].
    split; [rewrite A2, <- app_assoc; reflexivity|]. lia.
  - exists Throws, s1, added, evs. split; [reflexivity|].
    unfold MAX_RETRIES in *.
    split; [exact A1|]. split; [exact A3|]. split; [lia|].
    split; [lia|]. split; [exact Hsave|]. split; [exact A2|exact Ho].
  - destruct Ho.
Qed.

End IngestMore.

(** X2. The three short requests to the text generation never throw: each
    makes one request and returns.  A rejected request, a completion
    without content and a content of white space only end in the fallback
    of the function: [Centro] for the neighbourhood; the raw name as it is
    after a rejection, and its one-line clean-up otherwise, for the name;
    [null] after a rejection, and the empty string otherwise, for the new
    query. *)
Theorem short_requests_fall_back (W : World) (s : State) :
  (forall n a,
     let ask := AskNeighborhood n a in
     exists x,
       inferNeighborhoodWithGroq W n a s = (Returns x, called (EvGroq ask) s) /\
       (orString (trimmedContent (groq W (calls s) ask)) [] = [] ->
        x = lit "Centro")) /\
  (forall raw,
     let ask := AskCleanName raw in
     exists x,
       cleanCafeNameWithGroq W raw s = (Returns x, called (EvGroq ask) s) /\
       (groq W (calls s) ask = Rejected -> x = raw) /\
       (groq W (calls s) ask <> Rejected ->
        orString (trimmedContent (groq W (calls s) ask)) [] = [] ->
        x = oneLine raw)) /\
  (forall q names,
     let ask := AskNewQuery (suggestPrompt q names) in
     exists x,
       suggestNewQuery W q names s = (Returns x, called (EvGroq ask) s) /\
       (x = None <-> groq W (calls s) ask = Rejected) /\
       (groq W (calls s) ask <> Rejected ->
        orString (trimmedContent (groq W (calls s) ask)) [] = [] ->
        x = Some [])).
Proof.
  split; [|split].
  - intros n a ask. unfold inferNeighborhoodWithGroq, bind.
    rewrite IngestFacts.callGroq_run. fold ask.
    destruct (groq W (calls s) ask) as [| |t]; eexists; (split; [reflexivity|]).
    + reflexivity.
    + intros _. apply IngestMore.oneLine_Centro.
    + simpl. destruct (trim t); [|discriminate]. intros _.
      apply IngestMore.oneLine_Centro.
  - intros raw ask. unfold cleanCafeNameWithGroq, bind.
    rewrite IngestFacts.callGroq_run. fold ask.
    destruct (groq W (calls s) ask) as [| |t]; eexists; (split; [reflexivity|]).
    + split; [reflexivity|]. intros H. contradiction.
    + split; [discriminate|]. reflexivity.
    + split; [discriminate|]. simpl. destruct (trim t); [|discriminate].
      reflexivity.
  - intros q names ask. rewrite IngestFacts.suggestNewQuery_run. fold ask.
    eexists. split; [reflexivity|].
    destruct (groq W (calls s) ask) as [| |t]; simpl.
    + split; [tauto|]. intros H. contradiction.
    + split; [split; discriminate|]. reflexivity.
    + split; [split; discriminate|]. destruct (trim t); [|discriminate].
      reflexivity.
Qed.

Lemma short_requests_fall_back_witness :
  exists x,
    inferNeighborhoodWithGroq Examples.world0 (lit "Toma Cafe") []
      (boot Missing)
    = (Returns x,
       called (EvGroq (AskNeighborhood (lit "Toma Cafe") [])) (boot Missing)) /\
    x = lit "Centro".
Proof.
  destruct (short_requests_fall_back Examples.world0 (boot Missing)) as (H & _).
  destruct (H (lit "Toma Cafe") []) as (x & E & Hx).
  exists x. split; [exact E|]. apply Hx. reflexivity.
Defined.

(** X3. [synthesizeReview] asks the text generation exactly when one of
    the first five reviews of the candidate has a text.  Without such a
    review it returns the default synthesis and calls nothing.  With one it
    makes one request, about the texts joined, and it throws exactly when
    that request is rejected: this call is outside of the [try] of the
    function. *)
Theorem synthesizeReview_asks_when_reviewed
    (W : World) (placeName : jsstring) (rs : option (list (option jsstring)))
    (rating : option Q) (s : State) :
  (existsb hasText (firstReviews rs) = false ->
   synthesizeReview W placeName rs rating s
   = (Returns (Some (defaultSynthesis placeName rating)), s)) /\
  (existsb hasText (firstReviews rs) = true ->
   exists t,
     reviewsText rs = Some t /\ t <> [] /\
     let ask := AskSynthesis placeName t rating in
     snd (synthesizeReview W placeName rs rating s) = called (EvGroq ask) s /\
     (fst (synthesizeReview W placeName rs rating s) = Throws
      <-> groq W (calls s) ask = Rejected) /\
     fst (synthesizeReview W placeName rs rating s) <> OutOfFuel).
Proof.
  pose proof (IngestMore.reviewsText_firstReviews rs) as H.
  split; intros Hex; rewrite Hex in H.
  - unfold synthesizeReview. destruct H as [-> | ->]; reflexivity.
  - destruct H as (c & t & Hr). exists (c :: t).
    split; [exact Hr|]. split; [discriminate|]. cbv zeta.
    unfold synthesizeReview. rewrite Hr. unfold bind.
    rewrite IngestFacts.callGroq_run.
    destruct (groq W (calls s) _) as [| |text].
    + simpl. repeat split; auto; discriminate.
    + destruct (jsonParse W _); simpl; repeat split; auto; discriminate.
    + destruct (jsonParse W _); simpl; repeat split; auto; discriminate.
Qed.

Lemma synthesizeReview_asks_when_reviewed_witness :
  synthesizeReview Examples.world0 (lit "Acid") None None (boot Missing)
  = (Returns (Some (defaultSynthesis (lit "Acid") None)), boot Missing) /\
  exists t,
    reviewsText (Some [None; Some (lit "Fast wifi"); Some []; Some (lit "Loud")])
    = Some t /\ t <> [].
Proof.
  split.
  - apply (synthesizeReview_asks_when_reviewed Examples.world0 (lit "Acid") None
             None (boot Missing)). reflexivity.
  - destruct (synthesizeReview_asks_when_reviewed Examples.world0 (lit "Acid")
                (Some [None; Some (lit "Fast wifi"); Some []; Some (lit "Loud")])
                None (boot Missing)) as (_ & H).
    destruct (H eq_refl) as (t & Ht & Hne & _). exists t. auto.
Defined.

(** X4. Whatever the price level, [priceLevelToEuros] never returns zero
    nor [undefined]: its result is truthy.  For a key that is not the name
    of a member of [Object.prototype] (and for a missing one) it is one of
    the four amounts 1.8, 2.5, 3.5 and 4.5. *)
Theorem priceLevelToEuros_never_zero (key : option jsstring) :
  truthy (priceLevelToEuros key) = true /\
  ((priceLevelToEuros key = VNumber (18 # 10) \/
    priceLevelToEuros key = VNumber (25 # 10) \/
    priceLevelToEuros key = VNumber (35 # 10) \/
    priceLevelToEuros key = VNumber (45 # 10)) \/
   exists k, key = Some k /\ In k objectPrototype /\
             priceLevelToEuros key = VInherited k).
Proof.
  destruct key as [k|]; [|split; [reflexivity|left; right; left; reflexivity]].
  unfold priceLevelToEuros, getProperty, mapping. cbn [ownProperty].
  unfold eqString. repeat case_bool_decide.
  1-5: split; [reflexivity|left]; cbv; auto.
  destruct (existsb _ objectPrototype) eqn:E.
  - split; [reflexivity|right]. exists k. split; [reflexivity|].
    split; [|reflexivity]. apply existsb_exists in E as (x & Hx & Hk).
    apply bool_decide_eq_true_1 in Hk. subst x. exact Hx.
  - split; [reflexivity|left; right; left; reflexivity].
Qed.

(** X5. What a batch does with its candidates.  A candidate is new when its
    address is neither in the set of known addresses when the batch begins
    nor that of an earlier candidate of the same batch.  When
    [processPlaces] returns, the entries it appended to the ledger are those
    of the new candidates, in order, with their addresses and display
    names; the names it reports as skipped are those of the others, in
    order; its two counters are the sizes of the two groups; and the set of
    known addresses has grown by the addresses of all the candidates. *)
Theorem batch_partitions_candidates
    (W : World) (places : list Place) (s s' : State) (r : BatchResult) :
  processPlaces W places s = (Returns r, s') ->
  exists added,
    processedSpots s' = processedSpots s ++ added /\
    List.map uri added
    = List.map uriOf (fst (partitionNew (processedUris s) places)) /\
    List.map name added
    = List.map nameOf (fst (partitionNew (processedUris s) places)) /\
    skippedNames r
    = List.map nameOf (snd (partitionNew (processedUris s) places)) /\
    newCount r = length (fst (partitionNew (processedUris s) places)) /\
    skippedCount r = length (snd (partitionNew (processedUris s) places)) /\
    processedUris s'
    = list_to_set (List.map uriOf places) ∪ processedUris s.
Proof.
  intros H. destruct (IngestMore.processFrom_detail _ _ _ _ _ _ H)
    as (added & evs & A1 & A2 & A3 & A4 & A5 & A6 & A7 & A8 & _).
  exists added. simpl in A6, A7, A8. auto 10.
Qed.

Lemma batch_partitions_candidates_witness :
  exists r s',
    processPlaces Examples.worldTwice
      [Examples.place "Toma Cafe" "maps/1"; Examples.place "Acid Cafe" "maps/3";
       Examples.place "Acid Cafe" "maps/3"]
      (loaded (boot (Stored Examples.ledger2))) = (Returns r, s') /\
    skippedNames r = [lit "Toma Cafe"; lit "Acid Cafe"] /\
    newCount r = 1%nat.
Proof.
  destruct (processPlaces Examples.worldTwice _ _) as [o s'] eqn:E.
  assert (exists r, o = Returns r) as [r ->].
  { apply (f_equal fst) in E. vm_compute in E. subst o. eexists. reflexivity. }
  exists r, s'. split; [reflexivity|].
  destruct (batch_partitions_candidates _ _ _ _ _ E)
    as (added & _ & _ & _ & H1 & H2 & _).
  split; [rewrite H1|rewrite H2]; vm_compute; reflexivity.
Defined.

(** X6. The files of a batch and the entries of the ledger.  When
    [processPlaces] returns, the files it has written are, in order, one
    for each entry it appended, under the name made of the slug of the
    entry and [.mdx]; and the slug of each entry is the slug of its
    neighbourhood, a hyphen, and a slug or nothing. *)
Theorem batch_files_match_entries
    (W : World) (places : list Place) (s s' : State) (r : BatchResult) :
  processPlaces W places s = (Returns r, s') ->
  exists added evs,
    processedSpots s' = processedSpots s ++ added /\
    trace s' = trace s ++ evs /\
    writtenFiles evs = List.map fileOf added /\
    Forall (wellSlugged W) added /\
    Forall (fun e => slugOrEmpty (Slug.slugify (unicode W) (neighborhood e))
                     = true) added.
Proof.
  intros H. destruct (IngestMore.processFrom_detail _ _ _ _ _ _ H)
    as (added & evs & A1 & A2 & _ & _ & _ & _ & _ & _ & A9 & A10).
  exists added, evs. repeat split; auto.
  apply Forall_forall. intros e _. apply IngestMore.slugify_slugOrEmpty.
Qed.

Lemma batch_files_match_entries_witness :
  exists evs,
    trace (snd (processPlaces Examples.world1
                  [Examples.place "Acid Cafe" "maps/3"]
                  (loaded (boot (Stored Examples.ledger2)))))
    = evs /\
    writtenFiles evs = [lit "centro-acid-cafe.mdx"].
Proof.
  destruct (processPlaces Examples.world1 _ _) as [o s'] eqn:E.
  assert (exists r, o = Returns r) as [r ->].
  { apply (f_equal fst) in E. vm_compute in E. subst o. eexists. reflexivity. }
  destruct (batch_files_match_entries _ _ _ _ _ E)
    as (added & evs & H1 & H2 & H3 & _).
  exists (trace s'). split; [reflexivity|].
  apply (f_equal snd) in E. simpl in E. subst s'. vm_compute. reflexivity.
Defined.

(** X7. A batch is skipped as a whole when it is processed again.  After
    [processPlaces] has returned on a list of candidates, processing the
    same list in the state it left, whatever the services answer, calls
    nothing, writes nothing, changes nothing, and reports every candidate
    as skipped. *)
Theorem batch_rerun_skips_all
    (W W' : World) (places : list Place) (s s' : State) (r : BatchResult) :
  processPlaces W places s = (Returns r, s') ->
  processPlaces W' places s'
  = (Returns {| newCount := 0; skippedCount := length places;
                skippedNames := List.map nameOf places |}, s').
Proof.
  intros H. destruct (IngestMore.processFrom_detail _ _ _ _ _ _ H)
    as (added & evs & _ & _ & A3 & _).
  unfold processPlaces. rewrite IngestMore.processFrom_all_known; [reflexivity|].
  intros p Hp. rewrite A3. apply elem_of_union_l, elem_of_list_to_set.
  apply list_elem_of_fmap. exists p. auto.
Qed.

Lemma batch_rerun_skips_all_witness :
  exists s',
    snd (processPlaces Examples.world1 [Examples.place "Acid Cafe" "maps/3"]
           (boot Missing)) = s' /\
    processPlaces Examples.world0 [Examples.place "Acid Cafe" "maps/3"] s'
    = (Returns {| newCount := 0; skippedCount := 1;
                  skippedNames := [lit "Acid Cafe"] |}, s').
Proof.
  destruct (processPlaces Examples.world1 _ _) as [o s'] eqn:E.
  assert (exists r, o = Returns r) as [r ->].
  { apply (f_equal fst) in E. vm_compute in E. subst o. eexists. reflexivity. }
  exists s'. split; [reflexivity|].
  exact (batch_rerun_skips_all _ Examples.world0 _ _ _ _ E).
Defined.

(** X8. The totals of a run.  When [main] returns, the number of new spots
    it reports is the number of files written and of entries appended to
    the ledger during the run; the number of discovery calls is one more
    than the number of query refinements it reports; and a suggestion was
    requested for each refinement and at most once more. *)
Theorem run_totals
    (W : World) (argv2 : option jsstring) (s s' : State) (v : LoopVars) :
  main W argv2 s = (Returns v, s') ->
  exists added evs,
    processedSpots s' = loadProcessedSpots (ledgerFile s) ++ added /\
    trace s' = trace s ++ evs ++
               [EvSaveLedger (processedSpots s');
                EvReport (totalNew v) (totalSkipped v)
                  (length (processedSpots s')) (retryCount v)] /\
    totalNew v = length added /\
    totalNew v = count isWrite evs /\
    count isFetch evs = S (retryCount v) /\
    (retryCount v <= count isSuggest evs <= S (retryCount v))%nat.
Proof.
  intros H. destruct (IngestMore.main_detail W argv2 s)
    as (o & s1 & added & evs & E & A1 & A2 & _ & _ & _ & Ho).
  rewrite H in E. injection E as <- <-.
  destruct Ho as (B1 & B2 & B3 & B4).
  exists added, evs. repeat split; auto; lia.
Qed.

Lemma run_totals_witness :
  exists v s',
    main Examples.world1 None (boot (Stored Examples.ledger2)) = (Returns v, s') /\
    totalNew v = 1%nat /\ retryCount v = 1%nat.
Proof.
  destruct (main Examples.world1 None _) as [o s'] eqn:E.
  assert (o = Returns {| query := lit "quiet cafes in Retiro"; retryCount := 1;
                         totalNew := 1; totalSkipped := 2 |}) as ->.
  { apply (f_equal fst) in E. vm_compute in E. subst o. reflexivity. }
  do 2 eexists. split; [reflexivity|].
  destruct (run_totals _ _ _ _ _ E) as (added & evs & _). split; reflexivity.
Defined.

(** X9. The calls of a run are bounded.  However the services answer and
    however the run ends, [main] makes at least one and at most three
    discovery calls and at most two requests for a new query, and it does
    not save the ledger before its loop has ended. *)
Theorem run_calls_are_bounded
    (W : World) (argv2 : option jsstring) (s : State) :
  exists evs tail,
    trace (snd (main W argv2 s)) = trace s ++ evs ++ tail /\
    (1 <= count isFetch evs <= 3)%nat /\
    (count isSuggest evs <= 2)%nat /\
    count isSave evs = 0%nat /\
    count isFetch tail = 0%nat /\ count isSuggest tail = 0%nat.
Proof.
  destruct (IngestMore.main_detail W argv2 s)
    as (o & s1 & added & evs & E & _ & _ & A3 & A4 & A5 & Ho).
  rewrite E. unfold MAX_RETRIES in *. simpl in A4. simpl snd.
  destruct o as [v| |].
  - destruct Ho as (B1 & _). eexists evs, _. split; [exact B1|].
    repeat split; auto; lia.
  - destruct Ho as (B1 & _). exists evs, []. rewrite app_nil_r.
    split; [exact B1|]. repeat split; auto; lia.
  - destruct Ho.
Qed.

(** X10. A run ends well when the services answer.  When the discovery
    service always answers, the text generation rejects no request and no
    completion parses to [null], [main] returns (writes to the disk are
    taken to succeed): it saves the ledger and reports its totals.
    Conversely a run that throws was refused by one of the services. *)
Theorem run_returns_when_services_answer
    (W : World) (argv2 : option jsstring) (s : State) :
  (Enrichable W -> Discoverable W ->
   exists v s', main W argv2 s = (Returns v, s') /\
                ledgerFile s' = Stored (processedSpots s')) /\
  (fst (main W argv2 s) = Throws -> ~ Enrichable W \/ ~ Discoverable W).
Proof.
  destruct (IngestMore.main_detail W argv2 s)
    as (o & s1 & added & evs & E & _ & _ & _ & _ & _ & Ho).
  assert (o = Throws -> ~ Enrichable W \/ ~ Discoverable W) as Hthrows.
  { intros ->. destruct Ho as (_ & [Hn | (n & q & Hq)]); [left; exact Hn|].
    right. intros Hd. exact (Hd n q Hq). }
  split.
  - intros He Hd. destruct o as [v| |].
    + exists v, s1. split; [exact E|].
      rewrite IngestFacts.main_run in E.
      destruct (loop _ _ _ _ _) as [[v0| |] s0]; try discriminate.
      injection E as <- <-. reflexivity.
    + destruct (Hthrows eq_refl); contradiction.
    + destruct Ho.
  - rewrite E. exact Hthrows.
Qed.

Lemma run_returns_when_services_answer_witness :
  exists v s',
    main Examples.world0 None (boot Missing) = (Returns v, s') /\
    ledgerFile s' = Stored (processedSpots s').
Proof.
  destruct (run_returns_when_services_answer Examples.world0 None (boot Missing))
    as (H & _).
  apply H.
  - split; intros; simpl; discriminate.
  - intros n q. simpl. discriminate.
Defined.

(** ** More on the review refiner *)

Import Refine RefineObs MoreRefineObs.

Module RefineMore.
Import StringFacts RefineFacts TrimFacts.

Lemma rcount_app p a b : count p (a ++ b) = (count p a + count p b)%nat.
Proof. unfold count. rewrite List.filter_app, length_app. reflexivity. Qed.

Lemma rwritten_app a b : writtenFiles (a ++ b) = writtenFiles a ++ writtenFiles b.
Proof.
  induction a as [|e a IH]; simpl; [reflexivity|].
  destruct e; simpl; rewrite IH; reflexivity.
Qed.

Lemma rwritten_count evs : length (writtenFiles evs) = count isWrite evs.
Proof.
  unfold count. induction evs as [|e evs IH]; simpl; [reflexivity|].
  destruct e; simpl; rewrite IH; reflexivity.
Qed.

Lemma pausesAtRate_app a b : pausesAtRate a -> pausesAtRate b -> pausesAtRate (a ++ b).
Proof.
  intros Ha Hb ms H. apply elem_of_app in H as [H|H]; [apply Ha|apply Hb]; exact H.
Qed.

(** The author picked is one of the list, and [buildMdx] writes it as it
    is. *)
Lemma author_listed W s :
  exists a,
    selectRandomAuthor W s = (Returns a, ticked s) /\
    a ∈ AUTHORS /\ plainAuthor a = true.
Proof.
  unfold selectRandomAuthor, bind, nextCall. cbv beta iota zeta.
  cbn [fst snd calls].
  repeat match goal with
         | |- context [if ?c then _ else _] => destruct c
         end;
    eexists; (split; [reflexivity|]); (split; [|reflexivity]);
    unfold AUTHORS; repeat constructor.
Qed.

Lemma refineReview_eq W sn nb body s :
  refineReview W sn nb body s
  = (match groq W (calls s) sn nb body with
     | Rejected => Throws
     | c => Returns (refinedText c)
     end, asked sn nb body s).
Proof.
  unfold refineReview, bind, nextCall, emit, asked, refinedText, vibe.
  cbv beta iota zeta. cbn [fst snd calls ledgerFile spotsDir trace].
  destruct (groq W (calls s) sn nb body); try reflexivity.
  all: destruct (startsWith _ _); reflexivity.
Qed.

Lemma pauses_listed evs :
  forallb (fun e => match e with
                    | EvSleep ms => bool_decide (ms = RATE_LIMIT_MS)
                    | _ => true
                    end) evs = true ->
  pausesAtRate evs.
Proof.
  intros H ms Hin. apply list_elem_of_In in Hin.
  rewrite forallb_forall in H. specialize (H _ Hin). simpl in H.
  apply bool_decide_eq_true_1 in H. exact H.
Qed.

(** One file, event by event. *)
Lemma refineFile_detail W single total f p s :
  exists o s' evs,
    refineFile W single total f p s = (o, s') /\
    trace s' = trace s ++ evs /\
    (count isGroq evs <= 1)%nat /\
    pausesAtRate evs /\
    match o with
    | Returns p' =>
        exists content fm body a,
          spotsDir s !! f = Some content /\
          parseMdx content = Some (fm, body) /\
          a ∈ AUTHORS /\
          groq W (S (calls s)) (spotNameOf fm f) (neighborhoodOf fm) body
          <> Rejected /\
          spotsDir s'
          = <[f := buildMdx fm
                     (refinedText (groq W (S (calls s)) (spotNameOf fm f)
                                     (neighborhoodOf fm) body)) a]>
              (spotsDir s) /\
          writtenFiles evs = [f] /\
          processed p' = S (processed p) /\
          count isSleep evs
          = (if (S (processed p) <? total)%nat then 1 else 0)%nat /\
          count isSave evs = (if single then 0 else 1)%nat /\
          if single then
            refinedSpots p' = refinedSpots p /\ ledgerFile s' = ledgerFile s
          else
            exists e, filename e = f /\ spotName e = spotNameOf fm f /\
              refinedSpots p' = refinedSpots p ++ [e] /\
              ledgerFile s' = Stored (refinedSpots p')
    | Throws =>
        spotsDir s' = spotsDir s /\ ledgerFile s' = ledgerFile s /\
        writtenFiles evs = [] /\ count isSleep evs = 0%nat /\
        count isSave evs = 0%nat /\
        (spotsDir s !! f = None \/
         (exists content, spotsDir s !! f = Some content /\
                          parseMdx content = None) \/
         (exists content fm body,
            spotsDir s !! f = Some content /\
            parseMdx content = Some (fm, body) /\
            groq W (S (calls s)) (spotNameOf fm f) (neighborhoodOf fm) body
            = Rejected))
    | Exits _ => False
    end.
Proof.
  unfold refineFile, bind at 1, readFile.
  destruct (spotsDir s !! f) as [content|] eqn:Hf.
  2: { exists Throws, s, []. rewrite app_nil_r.
       repeat split; auto. intros ms H. inversion H. }
  destruct (parseMdx content) as [[fm body]|] eqn:Hp.
  2: { exists Throws, s, []. rewrite app_nil_r.
       repeat split; eauto. intros ms H. inversion H. }
  unfold bind at 1.
  destruct (author_listed W s) as (a & -> & Ha & _).
  unfold bind at 1. rewrite refineReview_eq.
  fold (spotNameOf fm f). fold (neighborhoodOf fm).
  cbn [ticked calls].
  destruct (groq W (S (calls s)) (spotNameOf fm f) (neighborhoodOf fm) body)
    eqn:Hg.
  - exists Throws, (asked (spotNameOf fm f) (neighborhoodOf fm) body (ticked s)),
      [EvGroq (spotNameOf fm f) (neighborhoodOf fm) body].
    split; [reflexivity|]. split; [reflexivity|].
    split; [unfold count; cbn [List.filter isGroq length]; lia|].
    split; [intros ms H; apply list_elem_of_singleton in H; discriminate H|].
    repeat split; auto. right. right. exists content, fm, body. auto.
  - destruct single;
      unfold bind, writeFile, saveRefinedSpots, bind, emit, nextCall, ret, asked,
        ticked;
      cbv beta iota zeta;
      cbn [fst snd calls ledgerFile spotsDir trace refinedSpots processed];
      destruct (S (processed p) <? total)%nat;
      (do 3 eexists); (split; [reflexivity|]);
      cbn [fst snd calls ledgerFile spotsDir trace refinedSpots processed];
      (split; [rewrite <- !app_assoc; reflexivity|]);
      (split; [unfold count; cbn [app List.filter isGroq length]; lia|]);
      (split; [apply pauses_listed; cbn [app forallb]; reflexivity|]);
      exists content, fm, body, a; rewrite Hg;
      (split; [reflexivity|]); (split; [exact Hp|]); (split; [exact Ha|]);
      (split; [discriminate|]); (split; [reflexivity|]);
      (split; [reflexivity|]); (split; [reflexivity|]);
      (split; [reflexivity|]); (split; [reflexivity|]);
      try (split; reflexivity);
      eexists; repeat split; reflexivity.
  - destruct single;
      unfold bind, writeFile, saveRefinedSpots, bind, emit, nextCall, ret, asked,
        ticked;
      cbv beta iota zeta;
      cbn [fst snd calls ledgerFile spotsDir trace refinedSpots processed];
      destruct (S (processed p) <? total)%nat;
      (do 3 eexists); (split; [reflexivity|]);
      cbn [fst snd calls ledgerFile spotsDir trace refinedSpots processed];
      (split; [rewrite <- !app_assoc; reflexivity|]);
      (split; [unfold count; cbn [app List.filter isGroq length]; lia|]);
      (split; [apply pauses_listed; cbn [app forallb]; reflexivity|]);
      exists content, fm, body, a; rewrite Hg;
      (split; [reflexivity|]); (split; [exact Hp|]); (split; [exact Ha|]);
      (split; [discriminate|]); (split; [reflexivity|]);
      (split; [reflexivity|]); (split; [reflexivity|]);
      (split; [reflexivity|]); (split; [reflexivity|]);
      try (split; reflexivity);
      eexists; repeat split; reflexivity.
Qed.

(** The loop, event by event. *)
Lemma refineAll_detail W single total files p s :
  exists p' s' added evs,
    refineAll W single total files p s = (Returns p', s') /\
    trace s' = trace s ++ evs /\
    pausesAtRate evs /\
    (count isGroq evs <= length files)%nat /\
    sublist (writtenFiles evs) files /\
    processed p' = (processed p + length (writtenFiles evs))%nat /\
    (count isSleep evs + Nat.min (processed p) (total - 1)
     = Nat.min (processed p') (total - 1))%nat /\
    dom (spotsDir s') = dom (spotsDir s) /\
    (forall g, g ∉ writtenFiles evs -> spotsDir s' !! g = spotsDir s !! g) /\
    refinedSpots p' = refinedSpots p ++ added /\
    if single then
      added = [] /\ ledgerFile s' = ledgerFile s /\ count isSave evs = 0%nat
    else
      List.map filename added = writtenFiles evs /\
      count isSave evs = length added /\
      (load (ledgerFile s) = refinedSpots p ->
       load (ledgerFile s') = refinedSpots p').
Proof.
  revert p s. induction files as [|f rest IH]; intros p s.
  - exists p, s, [], []. simpl. rewrite !app_nil_r.
    split; [reflexivity|]. split; [reflexivity|].
    split; [intros ms H; inversion H|]. split; [unfold count; simpl; lia|].
    split; [constructor|]. split; [lia|]. split; [unfold count; simpl; lia|].
    split; [reflexivity|]. split; [reflexivity|]. split; [reflexivity|].
    destruct single; auto.
  - cbn [refineAll].
    destruct (refineFile_detail W single total f p s)
      as (o & s1 & e1 & -> & T1 & G1 & P1 & Ho).
    destruct o as [p1| |c]; [| |destruct Ho].
    + destruct Ho as (content & fm & body & a & Hf & _ & _ & _ & Hdir & Hw & Hpr
                      & Hsl & Hsv & Hled).
      destruct (IH p1 s1)
        as (p' & s' & added & e2 & -> & T2 & P2 & G2 & S2 & Pr2 & Sl2 & D2 & U2
            & R2 & L2).
      assert (dom (spotsDir s1) = dom (spotsDir s)) as Hdom.
      { rewrite Hdir. apply dom_insert_lookup_L. rewrite Hf. eauto. }
      assert (forall g, g <> f -> spotsDir s1 !! g = spotsDir s !! g) as Hother.
      { intros g Hg. rewrite Hdir. apply lookup_insert_ne. congruence. }
      exists p', s',
        (if single then []
         else drop (length (refinedSpots p)) (refinedSpots p1) ++ added),
        (e1 ++ e2).
      split; [reflexivity|]. split; [rewrite T2, T1, <- app_assoc; reflexivity|].
      split; [apply pausesAtRate_app; assumption|].
      rewrite !rcount_app, rwritten_app, Hw. cbn [app length].
      split; [lia|]. split; [apply sublist_skip, S2|].
      split; [lia|]. split.
      { rewrite Hsl, <- Sl2, Hpr.
        destruct (Nat.ltb_spec (S (processed p)) total); lia. }
      split; [rewrite D2; exact Hdom|]. split.
      { intros g Hg. apply not_elem_of_cons in Hg as [Hg1 Hg2].
        rewrite (U2 g Hg2). apply Hother, Hg1. }
      destruct single.
      * destruct Hled as [Hr Hl]. destruct L2 as (-> & L2 & L3).
        rewrite app_nil_r in R2. rewrite app_nil_r.
        split; [congruence|]. split; [reflexivity|].
        split; [congruence|]. rewrite Hsv, L3. reflexivity.
      * destruct Hled as (e & He & _ & Hr & Hl). destruct L2 as (L1 & L2 & L3).
        rewrite Hr, drop_app_length.
        split; [rewrite R2, Hr, <- app_assoc; reflexivity|].
        split; [cbn [app List.map]; rewrite He, L1; reflexivity|].
        split; [rewrite Hsv, L2; reflexivity|].
        intros _. apply L3. rewrite Hl. reflexivity.
    + destruct Ho as (Hdir & Hled & Hw & Hsl & Hsv & _).
      destruct (IH p s1)
        as (p' & s' & added & e2 & -> & T2 & P2 & G2 & S2 & Pr2 & Sl2 & D2 & U2
            & R2 & L2).
      exists p', s', added, (e1 ++ e2).
      split; [reflexivity|]. split; [rewrite T2, T1, <- app_assoc; reflexivity|].
      split; [apply pausesAtRate_app; assumption|].
      rewrite !rcount_app, rwritten_app, Hw, Hsl, Hsv. cbn [app length].
      split; [lia|]. split; [apply sublist_cons, S2|].
      split; [exact Pr2|]. split; [exact Sl2|].
      split; [rewrite D2, Hdir; reflexivity|].
      split; [intros g Hg; rewrite (U2 g Hg), Hdir; reflexivity|].
      split; [exact R2|].
      destruct single; [rewrite <- Hled; exact L2|].
      destruct L2 as (L1 & L2 & L3). split; [exact L1|]. split; [exact L2|].
      rewrite <- Hled. exact L3.
Qed.

(** The files of a batch. *)
Lemma selectFiles_iff s :
  exists files,
    selectFiles None s = (Returns files, s) /\ NoDup files /\
    forall f, f ∈ files <-> selectable s f.
Proof.
  unfold selectFiles, bind, readdir, loadRefinedSpots, ret, selectable.
  cbv beta iota zeta. cbn [fst snd].
  eexists. split; [reflexivity|]. fold (load (ledgerFile s)).
  split; [|intros f; split].
  - apply NoDup_ListNoDup. do 3 apply List.NoDup_filter.
    apply NoDup_ListNoDup, NoDup_fst_map_to_list.
  - intros Hf. apply list_elem_of_In, List.filter_In in Hf as [Hf Hl].
    apply List.filter_In in Hf as [Hf Hne]. apply List.filter_In in Hf as [Hf He].
    split; [|split; [exact He|split]].
    + apply list_elem_of_In, list_elem_of_fmap in Hf as ([k v] & -> & Hkv).
      apply elem_of_map_to_list in Hkv. simpl. eauto.
    + apply negb_true_iff, bool_decide_eq_false in Hne. exact Hne.
    + intros Hin. apply negb_true_iff in Hl. unfold inLedger in Hl.
      apply bool_decide_eq_false in Hl. apply Hl, elem_of_list_to_set, Hin.
  - intros ([v Hv] & B & C & D).
    apply list_elem_of_In, List.filter_In.
    split; [apply List.filter_In; split; [apply List.filter_In; split|]|].
    + apply list_elem_of_In, list_elem_of_fmap. exists (f, v).
      split; [reflexivity|]. apply elem_of_map_to_list. exact Hv.
    + exact B.
    + apply negb_true_iff, bool_decide_eq_false. exact C.
    + apply negb_true_iff. unfold inLedger. apply bool_decide_eq_false.
      intros H. apply D. apply elem_of_list_to_set in H. exact H.
Qed.

(** A run in batch mode, event by event. *)
Lemma main_batch_detail W s :
  exists n s' files added evs,
    selectFiles None s = (Returns files, s) /\
    NoDup files /\
    (forall f, f ∈ files <-> selectable s f) /\
    main W None s = (Returns n, s') /\
    trace s' = trace s ++ evs /\
    pausesAtRate evs /\
    (count isGroq evs <= length files)%nat /\
    sublist (writtenFiles evs) files /\
    n = length (writtenFiles evs) /\
    count isSleep evs = Nat.min n (length files - 1) /\
    dom (spotsDir s') = dom (spotsDir s) /\
    (forall g, g ∉ writtenFiles evs -> spotsDir s' !! g = spotsDir s !! g) /\
    load (ledgerFile s') = load (ledgerFile s) ++ added /\
    List.map filename added = writtenFiles evs /\
    count isSave evs = length added.
Proof.
  destruct (selectFiles_iff s) as (files & E & Hnd & Hsel).
  unfold main, bind at 1. rewrite E.
  destruct files as [|f rest].
  - exists 0%nat, s, [], [], []. rewrite !app_nil_r.
    split; [reflexivity|]. split; [exact Hnd|]. split; [exact Hsel|].
    split; [reflexivity|]. split; [reflexivity|].
    split; [intros ms Hms; inversion Hms|].
    split; [unfold count; simpl; lia|]. split; [constructor|].
    repeat split; auto.
  - unfold bind at 1, loadRefinedSpots. fold (load (ledgerFile s)).
    destruct (refineAll_detail W false (length (f :: rest)) (f :: rest)
                {| refinedSpots := load (ledgerFile s); processed := 0 |} s)
      as (p' & s' & added & evs & E' & T & P & G & S & Pr & Sl & D & U & R
          & L1 & L2 & L3).
    unfold bind, ret. rewrite E'. cbn [processed refinedSpots] in *.
    exists (processed p'), s', (f :: rest), added, evs.
    split; [reflexivity|]. split; [exact Hnd|]. split; [exact Hsel|].
    split; [reflexivity|]. split; [exact T|]. split; [exact P|].
    split; [exact G|]. split; [exact S|]. split; [exact Pr|].
    split; [rewrite <- Sl; lia|]. split; [exact D|]. split; [exact U|].
    split; [rewrite (L3 eq_refl), R; reflexivity|]. auto.
Qed.

(** A run in single-file mode on a file of the directory. *)
Lemma main_single_detail W c t s :
  is_Some (spotsDir s !! fileArg (c :: t)) ->
  exists n s' evs,
    main W (Some (c :: t)) s = (Returns n, s') /\
    trace s' = trace s ++ evs /\
    sublist (writtenFiles evs) [fileArg (c :: t)] /\
    n = length (writtenFiles evs) /\
    count isSleep evs = 0%nat /\ count isSave evs = 0%nat /\
    (count isGroq evs <= 1)%nat /\
    dom (spotsDir s') = dom (spotsDir s) /\
    (forall g, g ∉ writtenFiles evs -> spotsDir s' !! g = spotsDir s !! g) /\
    ledgerFile s' = ledgerFile s.
Proof.
  intros [v Hv]. unfold main, bind at 1, selectFiles, bind, existsFile, ret.
  fold (fileArg (c :: t)). cbv beta iota zeta. cbn [fst snd]. rewrite Hv.
  destruct (refineAll_detail W true 1 [fileArg (c :: t)]
              {| refinedSpots := []; processed := 0 |} s)
    as (p' & s' & added & evs & E' & T & P & G & S & Pr & Sl & D & U & R
        & L1 & L2 & L3).
  cbn [length]. rewrite E'. cbn [processed refinedSpots length] in *.
  exists (processed p'), s', evs. repeat split; auto; lia.
Qed.

(** Trimming a text that begins with the two number signs of a heading. *)
Lemma trim_heading t :
  startsWith (lit "##") (trim (lit "##" ++ t)) = true.
Proof.
  unfold trim. cbn [lit app List.map list_ascii_of_string N_of_ascii].
  change (N_of_ascii "#"%char) with 35.
  rewrite trimStart_fixed by reflexivity.
  rewrite !trimEnd_cons by reflexivity. reflexivity.
Qed.

Lemma refinedText_heading c :
  startsWith (lit "##") (refinedText c) = true /\
  startsWith (lit "##") (trim (refinedText c)) = true.
Proof.
  unfold refinedText. cbv zeta.
  set (t := match c with Content text => trim text | _ => [] end).
  assert (trim t = t) as Ht by (subst t; destruct c; auto using trim_idem).
  destruct (startsWith (lit "##") t) eqn:E.
  - rewrite Ht, E. auto.
  - split; [reflexivity|]. apply (trim_heading (lit " The Vibe" ++ [LF; LF] ++ t)).
Qed.

(** The rewritten file parses to the header with the author and to the new
    body, trimmed. *)
Lemma rebuilt_parses fm author newBody :
  Clear fm -> hasAuthorSlot fm = true -> plainAuthor author = true ->
  parseMdx (buildMdx fm newBody author)
  = Some (patchAuthor fm author, trim newBody) /\
  authorField (patchAuthor fm author) = Some author.
Proof.
  intros Hclear Hslot Hp.
  assert (buildMdx fm newBody author
          = fence ++ patchAuthor fm author ++ delimiter ++ LF :: newBody ++ [LF])
    as -> by reflexivity.
  assert (Clear (patchAuthor fm author) /\
          authorField (patchAuthor fm author) = Some author) as [Hc Ha].
  { unfold hasAuthorSlot in Hslot. unfold authorField.
    destruct (findField (lit "author:") false fm) as [[[[b m] v] a]|] eqn:Ef.
    - rewrite (patch_replace _ _ _ _ _ _ Hp Ef).
      destruct (findField_Some _ _ _ _ _ _ _ Ef) as (Hfm & Hm & _).
      rewrite Hfm in Hclear, Ef.
      rewrite (author_found_replace _ _ _ _ _ Hp Ef).
      split; [|reflexivity]. eapply Clear_replace; eauto.
    - apply andb_true_iff in Hslot as [Hi Ht]. apply negb_true_iff in Hi.
      destruct (findField (lit "title:") false fm) as [[[[b m] v] a]|] eqn:Et;
        [|discriminate].
      rewrite (patch_insert _ _ _ _ _ _ Hp Hi Et).
      destruct (findField_Some _ _ _ _ _ _ _ Et) as (Hfm & Hm & _).
      rewrite Hfm in Hclear, Hi.
      rewrite (author_found_insert _ _ _ _ Hp Hi).
      split; [|reflexivity]. eapply Clear_insert; eauto. }
  split; [|exact Ha].
  rewrite (clear_parse _ _ Hc), trim_between_line_feeds. reflexivity.
Qed.

End RefineMore.

(** X11. [parseMdx] splits a content file at the first delimiter.  It
    succeeds exactly on the texts made of the opening fence, a frontmatter
    in which no delimiter line begins, the delimiter line, and a rest; it
    then returns that frontmatter and the rest trimmed, so that the body
    it returns has no white space at either end.  It throws exactly on the
    texts that are not made of the fence, some text, the delimiter and a
    rest. *)
Theorem parseMdx_splits_at_first_delimiter (content : jsstring) :
  (forall fm body,
     parseMdx content = Some (fm, body) <->
     exists rest,
       content = fence ++ fm ++ delimiter ++ rest /\ body = trim rest /\
       Clear fm) /\
  (parseMdx content = None <->
   forall fm rest, content <> fence ++ fm ++ delimiter ++ rest) /\
  (forall fm body, parseMdx content = Some (fm, body) -> trim body = body).
Proof.
  split; [|split].
  - intros fm body. split.
    + apply RefineFacts.parse_shape.
    + intros (rest & -> & -> & Hc). apply RefineFacts.clear_parse, Hc.
  - split.
    + intros H fm rest ->. unfold parseMdx in H.
      rewrite StringFacts.stripPrefix_app in H.
      destruct (splitFirst delimiter (fm ++ delimiter ++ rest)) as [[a b]|] eqn:E;
        [discriminate H|].
      pose proof (StringFacts.splitFirst_None _ _ E fm (delimiter ++ rest) eq_refl)
        as Hn.
      rewrite StringFacts.stripPrefix_app in Hn. discriminate Hn.
    + intros H. destruct (parseMdx content) as [[fm body]|] eqn:E; [|reflexivity].
      apply RefineFacts.parse_shape in E as (rest & E & _). destruct (H _ _ E).
  - intros fm body H.
    apply RefineFacts.parse_shape in H as (rest & _ & -> & _).
    apply TrimFacts.trim_idem.
Qed.

Lemma parseMdx_splits_at_first_delimiter_witness :
  exists rest,
    tomaFile
    = fence ++ (lit "title: " ++ [QUOTE] ++ lit "Toma" ++ [QUOTE]) ++ delimiter
      ++ rest /\
    lit "old" = trim rest.
Proof.
  destruct (parseMdx_splits_at_first_delimiter tomaFile) as (H & _).
  destruct (proj1 (H (lit "title: " ++ [QUOTE] ++ lit "Toma" ++ [QUOTE])
                     (lit "old")))
    as (rest & H1 & H2 & _); [vm_compute; reflexivity|].
  exists rest. split; assumption.
Defined.

(** X12. [refineReview] makes one request and changes no file.  It throws
    exactly when the request is rejected.  The text it returns always
    begins with the two number signs of a heading, and still does once
    trimmed, whatever the completion: a text without a heading, an empty
    one included, is put under the heading [The Vibe]. *)
Theorem refineReview_gives_heading
    (W : World) (spotName neighborhood currentReview : jsstring) (s : State) :
  snd (refineReview W spotName neighborhood currentReview s)
  = asked spotName neighborhood currentReview s /\
  match fst (refineReview W spotName neighborhood currentReview s) with
  | Returns refined =>
      groq W (calls s) spotName neighborhood currentReview <> Rejected /\
      startsWith (lit "##") refined = true /\
      startsWith (lit "##") (trim refined) = true
  | Throws => groq W (calls s) spotName neighborhood currentReview = Rejected
  | Exits _ => False
  end.
Proof.
  rewrite RefineMore.refineReview_eq. split; [reflexivity|]. cbn [fst].
  destruct (groq W (calls s) spotName neighborhood currentReview);
    [reflexivity| |]; (split; [discriminate|]);
    apply RefineMore.refinedText_heading.
Qed.



(** X14. In single-file mode [main] looks for the file under the name
    given, with [.mdx] appended when the name does not end with it.  When
    the directory has no such file, the process exits with code 1 and
    nothing has happened.  Otherwise [main] returns, having made at most
    one request and written at most that one file, which it does whether
    the ledger lists the file or not; it neither reads, saves nor changes
    the ledger, and it does not pause. *)
Theorem single_file_mode_leaves_ledger
    (W : World) (arg : jsstring) (s : State) :
  arg <> [] ->
  (spotsDir s !! fileArg arg = None -> main W (Some arg) s = (Exits 1, s)) /\
  (is_Some (spotsDir s !! fileArg arg) ->
   exists n s' evs,
     main W (Some arg) s = (Returns n, s') /\
     trace s' = trace s ++ evs /\
     ledgerFile s' = ledgerFile s /\
     count isSave evs = 0%nat /\ count isSleep evs = 0%nat /\
     (count isGroq evs <= 1)%nat /\
     n = length (writtenFiles evs) /\
     sublist (writtenFiles evs) [fileArg arg] /\
     forall g, g <> fileArg arg -> spotsDir s' !! g = spotsDir s !! g).
Proof.
  intros Harg. destruct arg as [|c t]; [contradiction|]. split.
  - intros Hnone. unfold main, bind at 1, selectFiles, bind, existsFile.
    fold (fileArg (c :: t)). cbv beta iota zeta. cbn [fst snd].
    rewrite Hnone. reflexivity.
  - intros Hsome.
    destruct (RefineMore.main_single_detail W c t s Hsome)
      as (n & s' & evs & E & T & S & N & Sl & Sv & G & _ & U & L).
    exists n, s', evs. repeat split; auto.
    intros g Hg. apply U. intros Hin. apply Hg.
    apply (elem_of_sublist _ _ _ Hin) in S.
    apply list_elem_of_singleton in S. exact S.
Qed.

Lemma single_file_mode_leaves_ledger_witness :
  main reviewer (Some (lit "sol-nada")) (boot Missing tomaDir)
  = (Exits 1, boot Missing tomaDir) /\
  exists n s',
    main reviewer (Some (lit "sol-toma")) (boot Missing tomaDir)
    = (Returns n, s') /\ ledgerFile s' = Missing.
Proof.
  split.
  - apply (single_file_mode_leaves_ledger reviewer (lit "sol-nada")
             (boot Missing tomaDir)); [discriminate|vm_compute; reflexivity].
  - destruct (single_file_mode_leaves_ledger reviewer (lit "sol-toma")
                (boot Missing tomaDir)) as (_ & H); [discriminate|].
    destruct H as (n & s' & evs & E & _ & L & _);
      [vm_compute; eexists; reflexivity|].
    exists n, s'. split; [exact E|exact L].
Defined.

(** X15. The files of a batch.  Without a file name on the command line
    (an empty one is none), [main] selects, each once, exactly the files of
    the spots directory whose name ends with [.mdx], is not
    [example-spot.mdx] and is not the file name of an entry of the
    ledger; selecting changes nothing. *)
Theorem batch_selects_unrefined_files (s : State) :
  exists files,
    selectFiles None s = (Returns files, s) /\
    selectFiles (Some []) s = (Returns files, s) /\
    NoDup files /\
    forall f, f ∈ files <->
              is_Some (spotsDir s !! f) /\ endsWith (lit ".mdx") f = true /\
              f <> lit "example-spot.mdx" /\
              f ∉ List.map filename (load (ledgerFile s)).
Proof.
  destruct (RefineMore.selectFiles_iff s) as (files & E & Hnd & Hsel).
  exists files. split; [exact E|]. split; [exact E|]. split; [exact Hnd|].
  exact Hsel.
Qed.

(** X16. The accounts of a run in batch mode.  [main] then always returns:
    a file that fails is passed over.  The number of reviews it reports is
    the number of files it has written; each of them is one of the files
    selected, written once, in the order of the selection.  The ledger on
    the disk ends as the one loaded followed by one entry for each file
    written, in order, under the name of the file, and it was saved once
    for each of them.  No more requests were made than files selected. *)
Theorem batch_run_accounts (W : World) (s : State) :
  exists n s' files added evs,
    selectFiles None s = (Returns files, s) /\
    main W None s = (Returns n, s') /\
    trace s' = trace s ++ evs /\
    n = length (writtenFiles evs) /\
    sublist (writtenFiles evs) files /\
    NoDup (writtenFiles evs) /\
    load (ledgerFile s') = load (ledgerFile s) ++ added /\
    List.map filename added = writtenFiles evs /\
    count isWrite evs = n /\
    count isSave evs = n /\
    (count isGroq evs <= length files)%nat.
Proof.
  destruct (RefineMore.main_batch_detail W s)
    as (n & s' & files & added & evs & E & Hnd & _ & Em & T & _ & G & S & N & _
        & _ & _ & L & F & Sv).
  exists n, s', files, added, evs. repeat split; auto.
  - eapply sublist_NoDup; eauto.
  - rewrite N. symmetry. apply RefineMore.rwritten_count.
  - rewrite Sv, N, <- F, length_map. reflexivity.
Qed.

(** X17. A run of [main], in either mode, creates and deletes no file of
    the spots directory, and changes only the files it has written, each
    of which was there before. *)
Theorem only_written_files_change
    (W : World) (argv2 : option jsstring) (s : State) :
  exists evs,
    trace (snd (main W argv2 s)) = trace s ++ evs /\
    dom (spotsDir (snd (main W argv2 s))) = dom (spotsDir s) /\
    (forall g, g ∉ writtenFiles evs ->
               spotsDir (snd (main W argv2 s)) !! g = spotsDir s !! g) /\
    (forall g, g ∈ writtenFiles evs -> is_Some (spotsDir s !! g)).
Proof.
  assert (exists evs,
            trace (snd (main W None s)) = trace s ++ evs /\
            dom (spotsDir (snd (main W None s))) = dom (spotsDir s) /\
            (forall g, g ∉ writtenFiles evs ->
                       spotsDir (snd (main W None s)) !! g = spotsDir s !! g) /\
            (forall g, g ∈ writtenFiles evs -> is_Some (spotsDir s !! g)))
    as Hbatch.
  { destruct (RefineMore.main_batch_detail W s)
      as (n & s' & files & added & evs & _ & _ & Hsel & -> & T & _ & _ & S & _
          & _ & D & U & _).
    exists evs. cbn [snd]. repeat split; auto.
    intros g Hg. apply (elem_of_sublist _ _ _ Hg), Hsel in S. apply S. }
  destruct argv2 as [[|c t]|]; [exact Hbatch| |exact Hbatch].
  destruct (spotsDir s !! fileArg (c :: t)) as [v|] eqn:Hv.
  - destruct (RefineMore.main_single_detail W c t s)
      as (n & s' & evs & -> & T & S & _ & _ & _ & _ & D & U & _);
      [rewrite Hv; eauto|].
    exists evs. cbn [snd]. repeat split; auto.
    intros g Hg. apply (elem_of_sublist _ _ _ Hg) in S.
    apply list_elem_of_singleton in S. subst g. rewrite Hv. eauto.
  - exists []. unfold main, bind at 1, selectFiles, bind, existsFile.
    fold (fileArg (c :: t)). cbv beta iota zeta. cbn [fst snd].
    rewrite Hv. cbn [snd]. rewrite app_nil_r. repeat split; auto.
    intros g Hg. inversion Hg.
Qed.

(** X18. What a batch leaves to be refined.  After a run of [main] in
    batch mode, the files that a next batch would select are exactly those
    selected by this run that it has not written: a file refined in batch
    mode is not refined again. *)
Theorem refined_files_are_not_selected_again (W : World) (s : State) :
  exists files files' evs,
    selectFiles None s = (Returns files, s) /\
    trace (snd (main W None s)) = trace s ++ evs /\
    selectFiles None (snd (main W None s))
    = (Returns files', snd (main W None s)) /\
    forall f, f ∈ files' <-> f ∈ files /\ f ∉ writtenFiles evs.
Proof.
  destruct (RefineMore.main_batch_detail W s)
    as (n & s' & files & added & evs & E & _ & Hsel & -> & T & _ & _ & S & _
        & _ & D & U & L & F & _).
  destruct (RefineMore.selectFiles_iff s') as (files' & E' & _ & Hsel').
  exists files, files', evs. cbn [snd].
  split; [exact E|]. split; [exact T|]. split; [exact E'|].
  intros f. rewrite Hsel', Hsel. unfold selectable.
  rewrite L, List.map_app, F, <- !elem_of_dom, D.
  rewrite not_elem_of_app. tauto.
Qed.

(** X19. What the refiner writes, it can read again.  For a file of the
    directory that parses and whose frontmatter has a quoted author field,
    or a quoted title field and no text of the key of an author field:
    when the request for the review is not rejected, the [try] block of
    [main] succeeds, and the content it has written to the file parses;
    its header has a quoted author field, which names one of [AUTHORS],
    and its body is the text that [refineReview] returned, trimmed, which
    begins with the two number signs of a heading. *)
Theorem refined_file_parses_again
    (W : World) (single : bool) (total : nat) (f : jsstring) (p : Progress)
    (s : State) (content fm body : jsstring) :
  spotsDir s !! f = Some content ->
  parseMdx content = Some (fm, body) ->
  hasAuthorSlot fm = true ->
  groq W (S (calls s)) (spotNameOf fm f) (neighborhoodOf fm) body <> Rejected ->
  exists p' s' new header author,
    refineFile W single total f p s = (Returns p', s') /\
    spotsDir s' !! f = Some new /\
    parseMdx new
    = Some (header,
            trim (refinedText (groq W (S (calls s)) (spotNameOf fm f)
                                 (neighborhoodOf fm) body))) /\
    startsWith (lit "##")
      (trim (refinedText (groq W (S (calls s)) (spotNameOf fm f)
                            (neighborhoodOf fm) body))) = true /\
    authorField header = Some author /\ author ∈ AUTHORS /\
    hasAuthorSlot header = true.
Proof.
  intros Hf Hp Hslot Hg.
  destruct (RefineMore.refineFile_detail W single total f p s)
    as (o & s' & evs & E & _ & _ & _ & Ho).
  destruct o as [p'| |c].
  - destruct Ho as (content' & fm' & body' & a & Hf' & Hp' & Ha & _ & Hdir & _).
    rewrite Hf in Hf'. injection Hf' as <-.
    rewrite Hp in Hp'. injection Hp' as <- <-.
    assert (plainAuthor a = true) as Hpl.
    { unfold AUTHORS in Ha.
      repeat (apply elem_of_cons in Ha as [->|Ha]; [reflexivity|]).
      inversion Ha. }
    destruct (RefineFacts.parse_shape _ _ _ Hp) as (rest & _ & _ & Hclear).
    destruct (RefineMore.rebuilt_parses fm a
                (refinedText (groq W (S (calls s)) (spotNameOf fm f)
                                (neighborhoodOf fm) body)) Hclear Hslot Hpl)
      as (Hparse & Hauthor).
    exists p', s',
      (buildMdx fm
         (refinedText (groq W (S (calls s)) (spotNameOf fm f)
                         (neighborhoodOf fm) body)) a),
      (patchAuthor fm a), a.
    split; [exact E|]. split; [rewrite Hdir; apply lookup_insert_eq|].
    split; [exact Hparse|].
    split; [apply RefineMore.refinedText_heading|].
    split; [exact Hauthor|]. split; [exact Ha|].
    unfold hasAuthorSlot. unfold authorField in Hauthor.
    destruct (findField (lit "author:") false (patchAuthor fm a));
      [reflexivity|discriminate].
  - destruct Ho as (_ & _ & _ & _ & _ & [Hn|[(c' & Hc & Hn)|(c' & fm' & b' & Hc & Hp' & Hr)]]).
    + congruence.
    + congruence.
    + rewrite Hf in Hc. injection Hc as <-. rewrite Hp in Hp'.
      injection Hp' as <- <-. contradiction.
  - destruct Ho.
Qed.

Lemma refined_file_parses_again_witness :
  exists p' s' new header,
    refineFile reviewer false 1 (lit "sol-toma.mdx")
      {| refinedSpots := []; processed := 0 |} (boot Missing tomaDir)
    = (Returns p', s') /\
    spotsDir s' !! lit "sol-toma.mdx" = Some new /\
    parseMdx new = Some (header, lit "## First Impressions").
Proof.
  destruct (refined_file_parses_again reviewer false 1 (lit "sol-toma.mdx")
              {| refinedSpots := []; processed := 0 |} (boot Missing tomaDir)
              tomaFile (lit "title: " ++ [QUOTE] ++ lit "Toma" ++ [QUOTE])
              (lit "old"))
    as (p' & s' & new & header & author & E & Hn & Hp & _);
    [vm_compute; reflexivity|vm_compute; reflexivity|vm_compute; reflexivity
    |vm_compute; discriminate|].
  exists p', s', new, header. split; [exact E|]. split; [exact Hn|].
  rewrite Hp. vm_compute. reflexivity.
Defined.

(** X20. An author field that is not quoted blocks the update.  When the
    frontmatter contains the text of the key of an author field but no
    quoted author field, [buildMdx] writes the frontmatter as it is,
    whatever the author and even when there is a title: the author given
    is not recorded. *)
Theorem unquoted_author_blocks_update (fm body author : jsstring) :
  includes (lit "author:") fm = true ->
  findField (lit "author:") false fm = None ->
  buildMdx fm body author
  = lit "---" ++ [LF] ++ fm ++ [LF] ++ lit "---" ++ [LF; LF] ++ body ++ [LF].
Proof.
  intros Hi Hf. unfold buildMdx, patchAuthor. destruct author; [reflexivity|].
  rewrite Hi. unfold replaceField. rewrite Hf. reflexivity.
Qed.

Lemma unquoted_author_blocks_update_witness :
  buildMdx (lit "title: " ++ [QUOTE] ++ lit "Toma" ++ [QUOTE] ++ [LF]
            ++ lit "author: murad")
    (lit "## New") (lit "sara")
  = lit "---" ++ [LF]
    ++ (lit "title: " ++ [QUOTE] ++ lit "Toma" ++ [QUOTE] ++ [LF]
        ++ lit "author: murad")
    ++ [LF] ++ lit "---" ++ [LF; LF] ++ lit "## New" ++ [LF].
Proof.
  apply unquoted_author_blocks_update; vm_compute; reflexivity.
Defined.

(** X21. [buildMdx] touches nothing but the author field.  For an author
    without dollar, double quote or line feed: when the leftmost quoted
    author field of the frontmatter is [m], between [b] and [a], the
    header written is [b], the new author field and [a]; when the
    frontmatter does not contain the text of the key of an author field
    and its leftmost quoted title field is [m], between [b] and [a], the
    header written is [b], [m], a line feed, the new author field and
    [a]. *)
Theorem author_is_replaced_in_place (fm body author b m v a : jsstring) :
  plainAuthor author = true ->
  (findField (lit "author:") false fm = Some (b, m, v, a) ->
   fm = b ++ m ++ a /\
   buildMdx fm body author
   = lit "---" ++ [LF] ++ (b ++ authorLine author ++ a) ++ [LF] ++ lit "---"
     ++ [LF; LF] ++ body ++ [LF]) /\
  (includes (lit "author:") fm = false ->
   findField (lit "title:") false fm = Some (b, m, v, a) ->
   fm = b ++ m ++ a /\
   buildMdx fm body author
   = lit "---" ++ [LF] ++ (b ++ m ++ [LF] ++ authorLine author ++ a) ++ [LF]
     ++ lit "---" ++ [LF; LF] ++ body ++ [LF]).
Proof.
  intros Hp. split.
  - intros Hf. split; [apply (RefineFacts.findField_Some _ _ _ _ _ _ _ Hf)|].
    unfold buildMdx. rewrite (RefineFacts.patch_replace _ _ _ _ _ _ Hp Hf).
    reflexivity.
  - intros Hi Hf. split; [apply (RefineFacts.findField_Some _ _ _ _ _ _ _ Hf)|].
    unfold buildMdx. rewrite (RefineFacts.patch_insert _ _ _ _ _ _ Hp Hi Hf).
    rewrite <- !app_assoc. reflexivity.
Qed.

Lemma author_is_replaced_in_place_witness :
  buildMdx (lit "title: " ++ [QUOTE] ++ lit "Toma" ++ [QUOTE] ++ [LF]
            ++ lit "wifi: fast")
    (lit "## New") (lit "sara")
  = lit "---" ++ [LF]
    ++ ([] ++ (lit "title: " ++ [QUOTE] ++ lit "Toma" ++ [QUOTE]) ++ [LF]
        ++ authorLine (lit "sara") ++ [LF] ++ lit "wifi: fast")
    ++ [LF] ++ lit "---" ++ [LF; LF] ++ lit "## New" ++ [LF].
Proof.
  apply (author_is_replaced_in_place
           (lit "title: " ++ [QUOTE] ++ lit "Toma" ++ [QUOTE] ++ [LF]
            ++ lit "wifi: fast")
           (lit "## New") (lit "sara") []
           (lit "title: " ++ [QUOTE] ++ lit "Toma" ++ [QUOTE]) (lit "Toma")
           ([LF] ++ lit "wifi: fast"));
    vm_compute; reflexivity.
Defined.

(** X22. The pauses of a batch.  [main] pauses after each file it has
    refined but for the last of the files selected: when it has refined
    [n] of them, it has paused [n] times if a file failed and [n - 1]
    times otherwise.  Each pause lasts 600 seconds. *)
Theorem rate_limit_pauses (W : World) (s : State) :
  exists n s' files evs,
    selectFiles None s = (Returns files, s) /\
    main W None s = (Returns n, s') /\
    trace s' = trace s ++ evs /\
    (n <= length files)%nat /\
    count isSleep evs = (if (n <? length files)%nat then n else n - 1)%nat /\
    (forall ms, EvSleep ms ∈ evs -> ms = 600000%Z).
Proof.
  destruct (RefineMore.main_batch_detail W s)
    as (n & s' & files & added & evs & E & _ & _ & Em & T & P & _ & S & N & Sl
        & _).
  exists n, s', files, evs.
  split; [exact E|]. split; [exact Em|]. split; [exact T|].
  assert (n <= length files)%nat as Hn
    by (rewrite N; apply sublist_length, S).
  split; [exact Hn|]. split; [|exact P].
  rewrite Sl. destruct (Nat.ltb_spec n (length files)); lia.
Qed.

(** ** The site *)

Module SiteFacts.
Import Site.

Lemma keepsSpot_iff fw fn fp spot :
  keepsSpot fw fn fp spot = true <->
  (fw = lit "all" \/ wifi spot = fw) /\
  (fn = lit "all" \/ noise spot = fn) /\
  (fp = lit "available" -> power spot = lit "available").
Proof.
  unfold keepsSpot, eqString.
  repeat case_bool_decide; simpl; split; try discriminate; try tauto;
    intros (H1 & H2 & H3); try tauto; try (destruct H1; congruence);
    try (destruct H2; congruence).
Qed.

Lemma keepsSpot_and fw fn fp spot :
  keepsSpot fw fn fp spot
  = keepsSpot fw (lit "all") (lit "all") spot
    && keepsSpot (lit "all") fn (lit "all") spot
    && keepsSpot (lit "all") (lit "all") fp spot.
Proof.
  unfold keepsSpot, eqString.
  rewrite !(bool_decide_eq_true_2 (lit "all" = lit "all")) by reflexivity.
  rewrite (bool_decide_eq_false_2 (lit "all" = lit "available")) by discriminate.
  simpl. repeat case_bool_decide; reflexivity.
Qed.

Lemma filter_filter {A} (p q : A -> bool) l :
  List.filter p (List.filter q l) = List.filter (fun x => q x && p x) l.
Proof.
  induction l as [|x l IH]; simpl; [reflexivity|].
  destruct (q x); simpl; [destruct (p x)|]; rewrite IH; reflexivity.
Qed.

Lemma filter_sublist {A} (p : A -> bool) l : sublist (List.filter p l) l.
Proof.
  induction l as [|x l IH]; simpl; [constructor|].
  destruct (p x); [apply sublist_skip|apply sublist_cons]; exact IH.
Qed.

Lemma filter_all {A} (p : A -> bool) l :
  (forall x, p x = true) -> List.filter p l = l.
Proof.
  intros H. induction l as [|x l IH]; simpl; [reflexivity|].
  rewrite H, IH. reflexivity.
Qed.

(** A text that ends with an extension, and its reverse. *)
Lemma endsWith_app suffix s : Refine.endsWith suffix (s ++ suffix) = true.
Proof.
  unfold Refine.endsWith, startsWith. rewrite rev_app_distr.
  rewrite StringFacts.stripPrefix_app. reflexivity.
Qed.

Lemma endsWith_inv suffix s :
  Refine.endsWith suffix s = true -> exists a, s = a ++ suffix.
Proof.
  unfold Refine.endsWith, startsWith.
  destruct (stripPrefix (rev suffix) (rev s)) as [r|] eqn:E; [|discriminate].
  intros _. apply StringFacts.stripPrefix_Some in E.
  exists (rev r). apply (f_equal (@rev N)) in E.
  rewrite rev_involutive, rev_app_distr, rev_involutive in E. exact E.
Qed.

Lemma dropLast_app s suffix : dropLast (length suffix) (s ++ suffix) = s.
Proof.
  unfold dropLast. rewrite length_app, Nat.add_sub.
  rewrite firstn_app, Nat.sub_diag, firstn_all. simpl. apply app_nil_r.
Qed.

(** The id of a file named by a text without a slash and [.mdx]. *)
Lemma generateId_flat s :
  SLASH ∉ s -> generateId (s ++ lit ".mdx") = s.
Proof.
  intros Hs. unfold generateId.
  assert (Refine.endsWith (lit "/index.mdx") (s ++ lit ".mdx") = false) as ->.
  { destruct (Refine.endsWith (lit "/index.mdx") (s ++ lit ".mdx")) eqn:E;
      [|reflexivity].
    apply endsWith_inv in E as [a E].
    change (lit "/index.mdx") with (lit "/index" ++ lit ".mdx") in E.
    rewrite app_assoc in E. apply app_inj_2 in E as [E _]; [|reflexivity].
    exfalso. apply Hs. rewrite E. apply elem_of_app. right. left. }
  assert (Refine.endsWith (lit "/index.md") (s ++ lit ".mdx") = false) as ->.
  { destruct (Refine.endsWith (lit "/index.md") (s ++ lit ".mdx")) eqn:E;
      [|reflexivity].
    apply endsWith_inv in E as [a E].
    change (lit ".mdx") with (lit ".md" ++ [120]) in E.
    change (lit "/index.md") with (lit "/index.m" ++ [100]) in E.
    rewrite !app_assoc in E. apply app_inj_tail in E as [_ E]. discriminate E. }
  simpl. unfold stripExtension. rewrite endsWith_app.
  apply (dropLast_app s (lit ".mdx")).
Qed.

Lemma slugOrEmpty_units b :
  MoreObs.slugOrEmpty b = true -> forallb Slug.isSlugUnit b = true.
Proof.
  destruct b as [|c r]; [reflexivity|]. unfold MoreObs.slugOrEmpty.
  unfold Slug.matchesSlugPattern. intros H.
  apply andb_true_iff in H as [Hc Hr]. simpl.
  rewrite (SlugFacts.alnum_unit c Hc). apply SlugFacts.slugTail_units, Hr.
Qed.

Lemma units_no_slash s : forallb Slug.isSlugUnit s = true -> SLASH ∉ s.
Proof.
  intros H Hin. apply list_elem_of_In in Hin.
  rewrite forallb_forall in H. specialize (H _ Hin). discriminate H.
Qed.

End SiteFacts.

(** X23. The filter of the map.  A spot is shown exactly when it is one of
    the spots given and, for each of the three filters that is set, it has
    the value asked for: the wifi and the noise filters are set when they
    are not [all], the power filter when it is [available] (any other
    value of it filters nothing).  The spots shown keep their order, and
    with the filters as the component starts, all of them are shown. *)
Theorem map_filter_shows_matching_spots
    (spots : list Site.Spot) (filterWifi filterNoise filterPower : jsstring) :
  (forall spot,
     In spot (Site.filteredSpots spots filterWifi filterNoise filterPower) <->
     In spot spots /\
     (filterWifi = lit "all" \/ Site.wifi spot = filterWifi) /\
     (filterNoise = lit "all" \/ Site.noise spot = filterNoise) /\
     (filterPower = lit "available" -> Site.power spot = lit "available")) /\
  sublist (Site.filteredSpots spots filterWifi filterNoise filterPower) spots /\
  (filterPower <> lit "available" ->
   Site.filteredSpots spots filterWifi filterNoise filterPower
   = Site.filteredSpots spots filterWifi filterNoise (lit "all")) /\
  Site.filteredSpots spots (lit "all") (lit "all") (lit "all") = spots.
Proof.
  split; [|split; [|split]].
  - intros spot. unfold Site.filteredSpots.
    rewrite List.filter_In, SiteFacts.keepsSpot_iff. reflexivity.
  - apply SiteFacts.filter_sublist.
  - intros Hp. unfold Site.filteredSpots. apply List.filter_ext. intros spot.
    unfold Site.keepsSpot, Site.eqString.
    rewrite (bool_decide_eq_false_2 _ Hp).
    rewrite (bool_decide_eq_false_2 (lit "all" = lit "available"))
      by discriminate.
    reflexivity.
  - apply SiteFacts.filter_all. intros spot. reflexivity.
Qed.

(** X24. The filters of the map combine.  Filtering on the wifi, then on
    the noise, then on the power is filtering on the three at once, and
    filtering twice with the same filters is filtering once. *)
Theorem map_filters_compose
    (spots : list Site.Spot) (filterWifi filterNoise filterPower : jsstring) :
  Site.filteredSpots
    (Site.filteredSpots
       (Site.filteredSpots spots filterWifi (lit "all") (lit "all"))
       (lit "all") filterNoise (lit "all"))
    (lit "all") (lit "all") filterPower
  = Site.filteredSpots spots filterWifi filterNoise filterPower /\
  Site.filteredSpots
    (Site.filteredSpots spots filterWifi filterNoise filterPower)
    filterWifi filterNoise filterPower
  = Site.filteredSpots spots filterWifi filterNoise filterPower.
Proof.
  unfold Site.filteredSpots. rewrite !SiteFacts.filter_filter. split.
  - apply List.filter_ext. intros spot.
    rewrite (SiteFacts.keepsSpot_and filterWifi filterNoise filterPower).
    rewrite andb_assoc. reflexivity.
  - apply List.filter_ext. intros spot. apply andb_diag.
Qed.

(** X25. The page of a spot written by the spot-fetching script.  The
    loader of the site gives to each file that [processPlaces] has written
    the slug of its ledger entry as its id: the file is named by the slug
    and [.mdx], and a slug has no slash. *)
Theorem spot_id_is_ledger_slug
    (W : Ingest.World) (places : list Ingest.Place) (s s' : Ingest.State)
    (r : Ingest.BatchResult) :
  Ingest.processPlaces W places s = (Ingest.Returns r, s') ->
  exists added evs,
    Ingest.processedSpots s' = Ingest.processedSpots s ++ added /\
    Ingest.trace s' = Ingest.trace s ++ evs /\
    List.map Site.generateId (MoreObs.writtenFiles evs)
    = List.map Ingest.slug added.
Proof.
  intros H. destruct (IngestMore.processFrom_detail _ _ _ _ _ _ H)
    as (added & evs & A1 & A2 & _ & _ & _ & _ & _ & _ & A9 & A10).
  exists added, evs. split; [exact A1|]. split; [exact A2|].
  rewrite A9, List.map_map. apply List.map_ext_in. intros e He.
  rewrite Forall_forall in A10.
  destruct (A10 e (proj2 (list_elem_of_In _ _) He)) as (b & Hslug & Hb).
  unfold MoreObs.fileOf. apply SiteFacts.generateId_flat.
  apply SiteFacts.units_no_slash. rewrite Hslug, !forallb_app.
  rewrite (SiteFacts.slugOrEmpty_units _ (IngestMore.slugify_slugOrEmpty _ _)).
  rewrite (SiteFacts.slugOrEmpty_units _ Hb). reflexivity.
Qed.

Lemma spot_id_is_ledger_slug_witness :
  exists evs,
    Ingest.trace
      (snd (Ingest.processPlaces Examples.world1
              [Examples.place "Acid Cafe" "maps/3"]
              (IngestObs.loaded (Ingest.boot (Ingest.Stored Examples.ledger2)))))
    = evs /\
    List.map Site.generateId (MoreObs.writtenFiles evs) = [lit "centro-acid-cafe"].
Proof.
  destruct (Ingest.processPlaces Examples.world1 _ _) as [o s'] eqn:E.
  assert (exists r, o = Ingest.Returns r) as [r ->].
  { apply (f_equal fst) in E. vm_compute in E. subst o. eexists. reflexivity. }
  destruct (spot_id_is_ledger_slug _ _ _ _ _ E) as (added & evs & _).
  exists (Ingest.trace s'). split; [reflexivity|].
  apply (f_equal snd) in E. simpl in E. subst s'. vm_compute. reflexivity.
Defined.

(** X26. The bands of the computed field [rentScore]: it is [High] for a
    price of the coffee below 2, [Low] for one above 3.5 and [Medium] from
    2 to 3.5, both included.  With the amounts of [priceLevelToEuros], a
    spot written by the spot-fetching script is [High] only for the
    inexpensive level and [Low] only for the very expensive one. *)
Theorem rentScore_bands (price : Q) :
  (Site.rentScore price = lit "High" <-> (price < 2)%Q) /\
  (Site.rentScore price = lit "Low" <-> (35 # 10 < price)%Q) /\
  (Site.rentScore price = lit "Medium" <-> (2 <= price /\ price <= 35 # 10)%Q) /\
  forall priceLevel,
    Ingest.priceLevelToEuros priceLevel = Ingest.VNumber price ->
    (Site.rentScore price = lit "High"
     <-> priceLevel = Some (lit "PRICE_LEVEL_INEXPENSIVE")) /\
    (Site.rentScore price = lit "Low"
     <-> priceLevel = Some (lit "PRICE_LEVEL_VERY_EXPENSIVE")).
Proof.
  assert (forall a b, Refine.ltQ a b = true <-> (a < b)%Q) as Hlt.
  { intros a b. unfold Refine.ltQ. rewrite negb_true_iff.
    destruct (Qle_bool b a) eqn:E.
    - apply Qle_bool_iff in E. split; [discriminate|].
      intros H. exfalso. apply (Qlt_not_le _ _ H E).
    - split; [|reflexivity]. intros _. apply Qnot_le_lt. intros H.
      apply Qle_bool_iff in H. congruence. }
  assert (Site.rentScore price = lit "High" <-> (price < 2)%Q) as HH.
  { unfold Site.rentScore. rewrite <- Hlt.
    destruct (Refine.ltQ price 2); [tauto|].
    destruct (Refine.ltQ (35 # 10) price); split; discriminate. }
  assert (Site.rentScore price = lit "Low" <-> (35 # 10 < price)%Q) as HL.
  { unfold Site.rentScore. rewrite <- (Hlt (35 # 10)).
    destruct (Refine.ltQ price 2) eqn:E2.
    - split; [discriminate|]. intros E. exfalso.
      apply Hlt in E2. apply Hlt in E.
      apply (Qlt_irrefl price). eapply Qlt_trans; [exact E2|].
      eapply Qlt_trans; [|exact E]. reflexivity.
    - destruct (Refine.ltQ (35 # 10) price); [tauto|]. split; discriminate. }
  split; [exact HH|]. split; [exact HL|]. split.
  - unfold Site.rentScore.
    destruct (Refine.ltQ price 2) eqn:E2.
    { split; [discriminate|]. intros [H _]. apply Hlt in E2.
      exfalso. apply (Qlt_not_le _ _ E2 H). }
    destruct (Refine.ltQ (35 # 10) price) eqn:E3.
    { split; [discriminate|]. intros [_ H]. apply Hlt in E3.
      exfalso. apply (Qlt_not_le _ _ E3 H). }
    split; [|reflexivity]. intros _. split.
    + apply Qnot_lt_le. intros H. apply Hlt in H. congruence.
    + apply Qnot_lt_le. intros H. apply Hlt in H. congruence.
  - intros [k|] Hk.
    2: { injection Hk as <-. split; split; discriminate. }
    revert Hk.
    unfold Ingest.priceLevelToEuros, Ingest.getProperty, Ingest.mapping.
    cbn [Ingest.ownProperty]. unfold Ingest.eqString.
    repeat case_bool_decide; subst;
      try (intros [= <-]; split; split; (discriminate || reflexivity || congruence)).
    destruct (existsb _ Ingest.objectPrototype); [discriminate|].
    intros [= <-]. split; split; (discriminate || congruence).
Qed.

(** ** The sitemap filter *)

Module SitemapFacts.
Import Sitemap SitemapObs StringFacts.

Lemma stripPrefix_extend p r t x :
  stripPrefix p r = Some t -> stripPrefix p (r ++ x) = Some (t ++ x).
Proof.
  intros H. apply stripPrefix_Some in H. subst r.
  rewrite <- app_assoc. apply stripPrefix_app.
Qed.

(** A code unit that the text does not contain, put after a text that the
    prefix does not begin, does not complete the prefix. *)
Lemma stripPrefix_stop p c r t :
  c ∉ p -> stripPrefix p r = None -> stripPrefix p (r ++ c :: t) = None.
Proof.
  revert p. induction r as [|y r IH]; intros p Hc H.
  - destruct p as [|z p]; [discriminate|]. simpl.
    destruct (N.eqb_spec z c); [|reflexivity].
    exfalso. apply Hc. subst z. left.
  - destruct p as [|z p]; [discriminate|]. simpl in *.
    destruct (z =? y); [|reflexivity]. apply IH; [|exact H].
    intros Hin. apply Hc. right. exact Hin.
Qed.

Lemma stripPrefix_tag z p c r t :
  c ∉ p -> r <> [] ->
  stripPrefix (z :: p) r = None -> stripPrefix (z :: p) (r ++ c :: t) = None.
Proof.
  intros Hc Hr H. destruct r as [|y r]; [contradiction|]. simpl in *.
  destruct (z =? y); [|reflexivity]. apply stripPrefix_stop; assumption.
Qed.

Lemma includes_false p h :
  includes p h = false -> forall a b, h = a ++ b -> stripPrefix p b = None.
Proof.
  unfold includes. destruct (splitFirst p h) as [[x y]|] eqn:E; [discriminate|].
  intros _. apply splitFirst_None, E.
Qed.

Lemma noTag_of_includes z p h :
  TAG ∉ p -> includes (z :: p) h = false -> NoTag (z :: p) h.
Proof.
  intros Hp Hi a b t Hh Hb. apply stripPrefix_tag; [exact Hp|exact Hb|].
  apply (includes_false _ _ Hi a b Hh).
Qed.

Lemma splitFirst_None_intro p s :
  (forall a r, s = a ++ r -> stripPrefix p r = None) -> splitFirst p s = None.
Proof.
  induction s as [|c s IH]; intros H.
  - simpl. rewrite (H [] [] eq_refl). reflexivity.
  - simpl. rewrite (H [] (c :: s) eq_refl). rewrite IH; [reflexivity|].
    intros a r ->. apply (H (c :: a) r). reflexivity.
Qed.

Lemma includes_false_intro p s :
  (forall a r, s = a ++ r -> stripPrefix p r = None) -> includes p s = false.
Proof. intros H. unfold includes. rewrite splitFirst_None_intro; auto. Qed.

(** *** The lazy group *)

Lemma lazyUntil_Some close s u rest :
  lazyUntil close s = Some (u, rest) ->
  s = u ++ close ++ rest /\
  forallb notLineTerminator u = true /\
  forall u1 u2, u = u1 ++ u2 -> u2 <> [] ->
    stripPrefix close (u2 ++ close ++ rest) = None.
Proof.
  revert u. induction s as [|c s IH]; intros u; simpl.
  - destruct (stripPrefix close []) eqn:E; [|discriminate].
    intros [= <- <-]. apply stripPrefix_Some in E.
    split; [exact E|]. split; [reflexivity|].
    intros u1 u2 H. destruct u1, u2; try discriminate. congruence.
  - destruct (stripPrefix close (c :: s)) eqn:E.
    + intros [= <- <-]. apply stripPrefix_Some in E.
      split; [exact E|]. split; [reflexivity|].
      intros u1 u2 H. destruct u1, u2; try discriminate. congruence.
    + destruct (isLineTerminator c) eqn:Ec; [discriminate|].
      destruct (lazyUntil close s) as [[u' rest']|] eqn:El; [|discriminate].
      intros [= <- <-]. destruct (IH u' eq_refl) as (Hs & Hu & Hf).
      split; [rewrite Hs; reflexivity|].
      split; [simpl; unfold notLineTerminator at 1; rewrite Ec; exact Hu|].
      intros u1 u2 H Hne. destruct u1 as [|x u1]; simpl in H.
      * subst u2. simpl. rewrite <- Hs. exact E.
      * injection H as _ H. apply (Hf u1 u2 H Hne).
Qed.

Lemma lazyUntil_intro close u rest :
  forallb notLineTerminator u = true ->
  (forall u1 u2, u = u1 ++ u2 -> u2 <> [] ->
     stripPrefix close (u2 ++ close ++ rest) = None) ->
  lazyUntil close (u ++ close ++ rest) = Some (u, rest).
Proof.
  induction u as [|c u IH]; intros Hu Hf.
  - simpl. destruct (close ++ rest) eqn:E; simpl; rewrite <- E;
      rewrite stripPrefix_app; reflexivity.
  - simpl in Hu. apply andb_true_iff in Hu as [Hc Hu].
    assert (stripPrefix close (c :: u ++ close ++ rest) = None) as H0
      by (apply (Hf [] (c :: u) eq_refl); discriminate).
    cbn [app lazyUntil]. rewrite H0.
    unfold notLineTerminator in Hc. apply negb_true_iff in Hc. rewrite Hc.
    rewrite IH; [reflexivity|exact Hu|].
    intros u1 u2 -> Hne. apply (Hf (c :: u1) u2); [reflexivity|exact Hne].
Qed.

(** What the group has captured, it captures before any rest. *)
Lemma lazyUntil_Captured s u rest :
  lazyUntil (lit "</loc>") s = Some (u, rest) -> Captured u.
Proof.
  intros H. apply lazyUntil_Some in H as (_ & Hu & Hf).
  split; [exact Hu|]. intros u1 u2 r Hs Hne.
  specialize (Hf u1 u2 Hs Hne).
  change (lit "</loc>") with (lit "</loc" ++ [62]) in Hf at 2.
  change (lit "</loc>") with (lit "</loc" ++ [62]) at 2.
  rewrite <- !app_assoc in *. rewrite app_assoc in Hf. rewrite app_assoc.
  revert Hf. apply stripPrefix_window.
  rewrite length_app. destruct u2; [contradiction|]. simpl. lia.
Qed.

Lemma matchLoc_here u rest :
  Captured u ->
  matchLoc (lit "<loc>" ++ u ++ lit "</loc>" ++ rest) = Some (u, rest).
Proof.
  intros [Hu Hf]. unfold matchLoc. rewrite stripPrefix_app.
  apply lazyUntil_intro; [exact Hu|]. intros u1 u2 H Hne. eapply Hf; eauto.
Qed.

(** *** The leftmost match *)

Lemma findLoc_eq s :
  findLoc s =
  match matchLoc s with
  | Some m => Some m
  | None => match s with _ :: r => findLoc r | [] => None end
  end.
Proof. destruct s; reflexivity. Qed.

Lemma findLoc_Some s u rest :
  findLoc s = Some (u, rest) ->
  Captured u /\
  exists pre, s = pre ++ lit "<loc>" ++ u ++ lit "</loc>" ++ rest.
Proof.
  induction s as [|c s IH]; rewrite findLoc_eq.
  - unfold matchLoc. simpl. discriminate.
  - destruct (matchLoc (c :: s)) as [[u' rest']|] eqn:E.
    + intros [= <- <-]. unfold matchLoc in E.
      destruct (stripPrefix (lit "<loc>") (c :: s)) as [r|] eqn:Ep;
        [|discriminate].
      split; [eapply lazyUntil_Captured; eauto|].
      exists []. apply stripPrefix_Some in Ep. rewrite Ep.
      apply lazyUntil_Some in E as (-> & _). reflexivity.
    + intros H. destruct (IH H) as (Hc & pre & ->).
      split; [exact Hc|]. exists (c :: pre). reflexivity.
Qed.

Lemma findLoc_shorter s u rest :
  findLoc s = Some (u, rest) -> (length rest < length s)%nat.
Proof.
  intros H. apply findLoc_Some in H as (_ & pre & ->).
  rewrite !length_app. simpl. lia.
Qed.

Lemma findLoc_skip h t :
  (forall a b, h = a ++ b -> b <> [] ->
     stripPrefix (lit "<loc>") (b ++ t) = None) ->
  findLoc (h ++ t) = findLoc t.
Proof.
  induction h as [|c h IH]; intros H; [reflexivity|].
  cbn [app]. rewrite findLoc_eq. unfold matchLoc.
  change (c :: h ++ t) with ((c :: h) ++ t).
  rewrite (H [] (c :: h) eq_refl) by discriminate.
  cbn [app]. apply IH. intros a b -> Hb. apply (H (c :: a) b); auto.
Qed.

Lemma findLoc_here u rest :
  Captured u ->
  findLoc (lit "<loc>" ++ u ++ lit "</loc>" ++ rest) = Some (u, rest).
Proof.
  intros H. rewrite findLoc_eq, (matchLoc_here u rest H). reflexivity.
Qed.

(** *** The loop *)

Lemma execAll_fuel n m s :
  (length s <= n)%nat -> (length s <= m)%nat -> execAll n s = execAll m s.
Proof.
  revert m s. induction n as [|n IH]; intros m s Hn Hm.
  - destruct s; [|simpl in Hn; lia]. destruct m; reflexivity.
  - destruct m as [|m].
    + destruct s; [reflexivity|simpl in Hm; lia].
    + simpl. destruct (findLoc s) as [[u rest]|] eqn:E; [|reflexivity].
      apply findLoc_shorter in E. f_equal. apply IH; lia.
Qed.

Lemma execAll_found fuel s :
  Forall (fun u => Captured u /\
                   exists pre post,
                     s = pre ++ lit "<loc>" ++ u ++ lit "</loc>" ++ post)
    (execAll fuel s).
Proof.
  revert s. induction fuel as [|fuel IH]; intros s; simpl; [constructor|].
  destruct (findLoc s) as [[u rest]|] eqn:E; [|constructor].
  apply findLoc_Some in E as (Hc & pre & ->). constructor.
  - split; [exact Hc|]. exists pre, rest. reflexivity.
  - eapply Forall_impl; [apply IH|]. intros v (Hv & pre' & post' & ->).
    split; [exact Hv|].
    exists (pre ++ lit "<loc>" ++ u ++ lit "</loc>" ++ pre'), post'.
    rewrite <- !app_assoc. reflexivity.
Qed.

(** *** Sitemaps made of entries *)

Lemma tag_not_in (p : jsstring) :
  forallb (fun c => negb (c =? TAG)) p = true -> TAG ∉ p.
Proof.
  intros H Hin. apply list_elem_of_In in Hin.
  rewrite forallb_forall in H. specialize (H _ Hin).
  rewrite N.eqb_refl in H. discriminate H.
Qed.

Lemma noTag_loc h : includes (lit "<loc>") h = false -> NoTag (lit "<loc>") h.
Proof.
  change (lit "<loc>") with (TAG :: lit "loc>").
  apply noTag_of_includes, tag_not_in. reflexivity.
Qed.

Lemma noTag_url h : includes (lit "<url>") h = false -> NoTag (lit "<url>") h.
Proof.
  change (lit "<url>") with (TAG :: lit "url>").
  apply noTag_of_includes, tag_not_in. reflexivity.
Qed.

Lemma noTag_footer h : includes footer h = false -> NoTag footer h.
Proof.
  change footer with (TAG :: lit "/urlset>").
  apply noTag_of_includes, tag_not_in. reflexivity.
Qed.

Lemma urlEntry_eq u :
  urlEntry u = lit "<url>" ++ lit "<loc>" ++ u ++ lit "</loc>" ++ lit "</url>".
Proof. reflexivity. Qed.

Lemma rebuilt_cons h u urls :
  h ++ concat (List.map urlEntry (u :: urls)) ++ footer
  = h ++ lit "<url>" ++ lit "<loc>" ++ u ++ lit "</loc>"
    ++ (lit "</url>" ++ concat (List.map urlEntry urls) ++ footer).
Proof.
  cbn [List.map concat]. rewrite urlEntry_eq, <- !app_assoc. reflexivity.
Qed.

(** The URLs of a sitemap made of a header without [<loc>] and of
    entries. *)
Lemma execAll_rebuilt urls h fuel :
  NoTag (lit "<loc>") h -> Forall Captured urls ->
  (length (h ++ concat (List.map urlEntry urls) ++ footer) <= fuel)%nat ->
  execAll fuel (h ++ concat (List.map urlEntry urls) ++ footer) = urls.
Proof.
  revert h fuel. induction urls as [|u urls IH]; intros h fuel Hh Hu Hfuel.
  - destruct fuel as [|fuel]; [reflexivity|]. cbn [List.map concat app execAll].
    rewrite findLoc_skip.
    + reflexivity.
    + intros a b Ha Hb. apply (Hh a b (lit "/urlset>") Ha Hb).
  - rewrite rebuilt_cons in *.
    destruct fuel as [|fuel];
      [rewrite !length_app in Hfuel; simpl in Hfuel; lia|].
    cbn [execAll]. rewrite findLoc_skip.
    2: { intros a b Ha Hb. apply (Hh a b _ Ha Hb). }
    rewrite findLoc_skip.
    2: { intros a b Ha Hb.
         apply (noTag_loc (lit "<url>") eq_refl a b _ Ha Hb). }
    apply Forall_cons in Hu as [Hu Hus].
    rewrite (findLoc_here u _ Hu). f_equal.
    apply IH; [apply noTag_loc; reflexivity|exact Hus|].
    rewrite !length_app in *. simpl in *. lia.
Qed.

Lemma stripPrefix_shorten p r x :
  stripPrefix p (r ++ x) = None -> stripPrefix p r = None.
Proof.
  intros H. destruct (stripPrefix p r) eqn:E; [|reflexivity].
  rewrite (stripPrefix_extend _ _ _ x E) in H. discriminate H.
Qed.

(** No [<url>] begins in the header. *)
Lemma headerOf_no_url content :
  includes (lit "<url>") (headerOf content) = false.
Proof.
  unfold headerOf.
  destruct (splitFirst (lit "<url>") content) as [[h b]|] eqn:E.
  - apply includes_false_intro. intros a r Hh.
    destruct r as [|c r]; [reflexivity|].
    apply (stripPrefix_shorten _ _ (lit "<url>" ++ b)).
    apply (splitFirst_first _ _ _ _ E a (c :: r) Hh). discriminate.
  - destruct (splitFirst footer content) as [[h b]|] eqn:E2; [|reflexivity].
    apply includes_false_intro. intros a r Hh.
    apply (stripPrefix_shorten _ _ (footer ++ b)).
    apply (splitFirst_None _ _ E a). rewrite (splitFirst_Some _ _ _ _ E2), Hh.
    rewrite <- app_assoc. reflexivity.
Qed.

Lemma headerOf_rebuilt h urls :
  includes (lit "<url>") h = false -> includes footer h = false ->
  headerOf (h ++ concat (List.map urlEntry urls) ++ footer) = h.
Proof.
  intros Hu Hf. unfold headerOf. destruct urls as [|u urls].
  - cbn [List.map concat app].
    rewrite splitFirst_None_intro.
    + pose proof (splitFirst_intro footer h []) as H.
      rewrite app_nil_r in H. rewrite H; [reflexivity|].
      intros a1 a2 Ha Hne.
      apply (noTag_footer h Hf a1 a2 (lit "/urlset>") Ha Hne).
    + intros a r Har. destruct r as [|c r]; [reflexivity|].
      destruct (suffix_app_cases _ _ _ _ Har) as [(k & Hk & Hs & Hh)|(k & Hk)];
        [discriminate| |].
      * rewrite Hs. apply (noTag_url _ Hu a k (lit "/urlset>") Hh Hk).
      * apply (includes_false (lit "<url>") footer eq_refl k (c :: r) Hk).
  - rewrite rebuilt_cons. rewrite splitFirst_intro; [reflexivity|].
    intros a1 a2 Ha Hne. apply (noTag_url h Hu a1 a2 _ Ha Hne).
Qed.

(** *** The disk *)

Lemma existsSync_write W p c q :
  is_Some (disk W p) ->
  existsSync (writeFileSync W p c) q = existsSync W q.
Proof.
  intros [n Hn]. unfold existsSync, writeFileSync. cbn [disk].
  case_bool_decide; [subst q; rewrite Hn|]; reflexivity.
Qed.

Lemma filePathOf_write W p c url :
  is_Some (disk W p) ->
  filePathOf (writeFileSync W p c) url = filePathOf W url.
Proof.
  intros H. unfold filePathOf.
  change (pathnameOf (writeFileSync W p c)) with (pathnameOf W).
  destruct (pathnameOf W url) as [p0|]; [|reflexivity].
  rewrite !(existsSync_write W p c _ H). reflexivity.
Qed.

Lemma retained_write W p c url :
  is_Some (disk W p) -> filePathOf W url <> Some p ->
  retained (writeFileSync W p c) url = retained W url.
Proof.
  intros H Hp. unfold retained. rewrite (filePathOf_write W p c url H).
  destruct (filePathOf W url) as [fp|]; [|reflexivity].
  unfold writeFileSync. cbn [disk].
  case_bool_decide; [congruence|reflexivity].
Qed.

Lemma filter_fixed {A} (p q : A -> bool) l :
  (forall x, In x (List.filter p l) -> q x = true) ->
  List.filter q (List.filter p l) = List.filter p l.
Proof.
  induction l as [|x l IH]; simpl; [reflexivity|]. intros H.
  destruct (p x) eqn:E.
  - simpl. rewrite (H x) by (left; reflexivity).
    rewrite IH; [reflexivity|]. intros y Hy. apply H. right. exact Hy.
  - apply IH. intros y Hy. apply H. exact Hy.
Qed.

End SitemapFacts.

(** X27. The URLs that the sitemap filter extracts.  The loop over the
    matches of [locRegex] ends: with the length of the text as fuel, it
    gives what it gives with any more.  Every URL it collects stands in the
    text between [<loc>] and [</loc>], has no line terminator, and no
    [</loc>] begins in it; and a text without [<loc>] gives no URL. *)
Theorem extractUrls_finds_locs (content : jsstring) :
  (forall fuel, (length content <= fuel)%nat ->
                Sitemap.execAll fuel content = Sitemap.extractUrls content) /\
  Forall (fun url =>
            SitemapObs.Captured url /\
            includes (lit "</loc>") url = false /\
            exists pre post,
              content = pre ++ lit "<loc>" ++ url ++ lit "</loc>" ++ post)
    (Sitemap.extractUrls content) /\
  (includes (lit "<loc>") content = false -> Sitemap.extractUrls content = []).
Proof.
  split; [|split].
  - intros fuel H. apply SitemapFacts.execAll_fuel; [exact H|reflexivity].
  - eapply Forall_impl; [apply SitemapFacts.execAll_found|].
    intros url (Hc & Hocc). split; [exact Hc|]. split; [|exact Hocc].
    apply SitemapFacts.includes_false_intro. intros a r Hu.
    destruct r as [|c r]; [reflexivity|].
    apply (SitemapFacts.stripPrefix_shorten _ _ (lit "</loc>" ++ [])).
    apply (proj2 Hc a (c :: r) [] Hu). discriminate.
  - intros H. unfold Sitemap.extractUrls.
    destruct (length content) as [|n]; [reflexivity|]. cbn [Sitemap.execAll].
    rewrite <- (app_nil_r content), SitemapFacts.findLoc_skip; [reflexivity|].
    intros a b Ha Hb. rewrite app_nil_r.
    apply (SitemapFacts.includes_false _ _ H a b Ha).
Qed.

Lemma extractUrls_finds_locs_witness :
  Sitemap.extractUrls SitemapObs.siteMap
  = [lit "https://casilocal.es/"; lit "https://casilocal.es/about/"] /\
  Sitemap.extractUrls (lit "<urlset></urlset>") = [].
Proof.
  split; [vm_compute; reflexivity|].
  apply (extractUrls_finds_locs (lit "<urlset></urlset>")).
  vm_compute. reflexivity.
Defined.

(** X28. The sitemap that the filter writes reads back.  When no [<loc>]
    begins in the header of the sitemap read, the URLs extracted from the
    new sitemap are the URLs put into it, provided each of them is a text
    that the lazy group captures (as every extracted URL is); and when no
    [</urlset>] begins in that header either, the header of the new
    sitemap is the header of the one read. *)
Theorem new_sitemap_reads_back (content : jsstring) (urls : list jsstring) :
  includes (lit "<loc>") (Sitemap.headerOf content) = false ->
  Forall SitemapObs.Captured urls ->
  Sitemap.extractUrls (Sitemap.newSitemap content urls) = urls /\
  (includes Sitemap.footer (Sitemap.headerOf content) = false ->
   Sitemap.headerOf (Sitemap.newSitemap content urls)
   = Sitemap.headerOf content).
Proof.
  intros Hloc Hu. split.
  - unfold Sitemap.extractUrls, Sitemap.newSitemap.
    apply SitemapFacts.execAll_rebuilt;
      [apply SitemapFacts.noTag_loc, Hloc|exact Hu|reflexivity].
  - intros Hf. apply SitemapFacts.headerOf_rebuilt;
      [apply SitemapFacts.headerOf_no_url|exact Hf].
Qed.

Lemma new_sitemap_reads_back_witness :
  Sitemap.extractUrls
    (Sitemap.newSitemap SitemapObs.siteMap [lit "https://casilocal.es/"])
  = [lit "https://casilocal.es/"].
Proof.
  apply (new_sitemap_reads_back SitemapObs.siteMap [lit "https://casilocal.es/"]).
  - vm_compute. reflexivity.
  - pose proof (SitemapFacts.execAll_found 1 SitemapObs.siteMap) as H.
    assert (Sitemap.execAll 1 SitemapObs.siteMap = [lit "https://casilocal.es/"])
      as E by (vm_compute; reflexivity).
    rewrite E in H. apply Forall_cons in H as [[Hc _] _].
    constructor; [exact Hc|constructor].
Defined.

(** X29. Filtering twice is filtering once.  For a sitemap in whose header
    neither [<loc>] nor [</urlset>] begins, and when the page of no URL of
    the sitemap is the sitemap file itself: a second run of
    [filterSitemap], on the disk that the first run has left, returns and
    leaves every file as it was. *)
Theorem filterSitemap_twice (W : Sitemap.World) (content : jsstring) :
  Sitemap.disk W (Sitemap.SITEMAP_PATH W) = Some (Sitemap.File content) ->
  includes (lit "<loc>") (Sitemap.headerOf content) = false ->
  includes Sitemap.footer (Sitemap.headerOf content) = false ->
  (forall url, In url (Sitemap.extractUrls content) ->
               Sitemap.filePathOf W url <> Some (Sitemap.SITEMAP_PATH W)) ->
  fst (Sitemap.filterSitemap (snd (Sitemap.filterSitemap W))) = Sitemap.Returns /\
  forall q,
    Sitemap.disk (snd (Sitemap.filterSitemap (snd (Sitemap.filterSitemap W)))) q
    = Sitemap.disk (snd (Sitemap.filterSitemap W)) q.
Proof.
  intros Hdisk Hloc Hfoot Hpage.
  unfold Sitemap.filterSitemap at 2 4 5. rewrite Hdisk. cbv zeta. cbn [snd].
  set (kept := List.filter (Sitemap.retained W) (Sitemap.extractUrls content)).
  set (new := Sitemap.newSitemap content kept).
  set (W1 := Sitemap.writeFileSync W (Sitemap.SITEMAP_PATH W) new).
  assert (Sitemap.disk W1 (Sitemap.SITEMAP_PATH W1) = Some (Sitemap.File new))
    as Hdisk1.
  { unfold W1, Sitemap.writeFileSync. cbn [Sitemap.disk Sitemap.SITEMAP_PATH].
    rewrite bool_decide_eq_true_2 by reflexivity. reflexivity. }
  assert (Forall SitemapObs.Captured kept) as Hcap.
  { apply Forall_forall. intros u Hu. apply list_elem_of_In in Hu.
    apply List.filter_In in Hu as [Hu _].
    pose proof (SitemapFacts.execAll_found (length content) content) as Hall.
    rewrite Forall_forall in Hall.
    apply (Hall u), list_elem_of_In, Hu. }
  assert (Sitemap.extractUrls new = kept) as Hurls.
  { unfold Sitemap.extractUrls, new, Sitemap.newSitemap.
    apply SitemapFacts.execAll_rebuilt;
      [apply SitemapFacts.noTag_loc, Hloc|exact Hcap|reflexivity]. }
  assert (Sitemap.headerOf new = Sitemap.headerOf content) as Hhead.
  { apply SitemapFacts.headerOf_rebuilt;
      [apply SitemapFacts.headerOf_no_url|exact Hfoot]. }
  assert (List.filter (Sitemap.retained W1) kept = kept) as Hkept.
  { apply SitemapFacts.filter_fixed. intros u Hu.
    apply List.filter_In in Hu as [Hu Hr]. unfold W1.
    rewrite SitemapFacts.retained_write; [exact Hr|rewrite Hdisk; eauto|].
    apply Hpage, Hu. }
  unfold Sitemap.filterSitemap. rewrite Hdisk1. cbv zeta. cbn [fst snd].
  split; [reflexivity|]. intros q.
  rewrite Hurls, Hkept. unfold Sitemap.newSitemap at 1. rewrite Hhead.
  fold (Sitemap.newSitemap content kept). fold new.
  unfold Sitemap.writeFileSync at 1. cbn [Sitemap.disk].
  case_bool_decide; [|reflexivity].
  subst q. exact (eq_sym Hdisk1).
Qed.

Lemma filterSitemap_twice_witness :
  fst (Sitemap.filterSitemap (snd (Sitemap.filterSitemap SitemapObs.site)))
  = Sitemap.Returns /\
  Sitemap.disk (snd (Sitemap.filterSitemap SitemapObs.site))
    (lit "dist/sitemap-0.xml")
  = Some (Sitemap.File
            (lit "<urlset>" ++ Sitemap.urlEntry (lit "https://casilocal.es/")
             ++ Sitemap.footer)).
Proof.
  split; [|vm_compute; reflexivity].
  apply (filterSitemap_twice SitemapObs.site SitemapObs.siteMap).
  - reflexivity.
  - vm_compute. reflexivity.
  - vm_compute. reflexivity.
  - assert (Sitemap.extractUrls SitemapObs.siteMap
            = [lit "https://casilocal.es/"; lit "https://casilocal.es/about/"])
      as -> by (vm_compute; reflexivity).
    intros url [<-|[<-|[]]]; vm_compute; discriminate.
Defined.

(** X30. What a run of the sitemap filter does.  Without a sitemap file it
    returns and changes nothing; it throws, having changed nothing, when
    the sitemap cannot be read.  Otherwise it returns and changes the
    sitemap file only, which it writes as the header of the sitemap read,
    one entry for each URL retained, and the closing tag.  The URLs
    retained are, in their order, the extracted URLs that parse and whose
    page, at the path the script resolves, is a file that contains an
    image tag; a URL that does not parse or whose page is missing or
    cannot be read is dropped, and the run goes on. *)
Theorem filterSitemap_keeps_pages_with_images (W : Sitemap.World) :
  match Sitemap.disk W (Sitemap.SITEMAP_PATH W) with
  | None => Sitemap.filterSitemap W = (Sitemap.Returns, W)
  | Some Sitemap.Directory => Sitemap.filterSitemap W = (Sitemap.Throws, W)
  | Some (Sitemap.File content) =>
      exists kept,
        fst (Sitemap.filterSitemap W) = Sitemap.Returns /\
        Sitemap.disk (snd (Sitemap.filterSitemap W)) (Sitemap.SITEMAP_PATH W)
        = Some (Sitemap.File
                  (Sitemap.headerOf content
                   ++ concat (List.map Sitemap.urlEntry kept)
                   ++ Sitemap.footer)) /\
        (forall q, q <> Sitemap.SITEMAP_PATH W ->
                   Sitemap.disk (snd (Sitemap.filterSitemap W)) q
                   = Sitemap.disk W q) /\
        sublist kept (Sitemap.extractUrls content) /\
        forall url,
          In url kept <->
          In url (Sitemap.extractUrls content) /\
          exists path page,
            Sitemap.filePathOf W url = Some path /\
            Sitemap.disk W path = Some (Sitemap.File page) /\
            includes (lit "<img ") page = true
  end.
Proof.
  unfold Sitemap.filterSitemap.
  destruct (Sitemap.disk W (Sitemap.SITEMAP_PATH W)) as [[content|]|] eqn:E;
    [|reflexivity|reflexivity].
  exists (List.filter (Sitemap.retained W) (Sitemap.extractUrls content)).
  cbv zeta. cbn [fst snd Sitemap.writeFileSync Sitemap.disk].
  split; [reflexivity|].
  split; [rewrite bool_decide_eq_true_2 by reflexivity; reflexivity|].
  split; [intros q Hq; rewrite bool_decide_eq_false_2 by exact Hq; reflexivity|].
  split; [apply SiteFacts.filter_sublist|].
  intros url. rewrite List.filter_In. unfold Sitemap.retained.
  split; intros [Hin H]; (split; [exact Hin|]).
  - destruct (Sitemap.filePathOf W url) as [path|]; [|discriminate].
    destruct (Sitemap.disk W path) as [[page|]|] eqn:Ed; try discriminate.
    exists path, page. auto.
  - destruct H as (path & page & -> & -> & H). exact H.
Qed.
